(** * Ramadan reminder bot: scheduling, subscription store and image cache

    A shallow embedding of the notification engine of [main.go]: the
    event deriver ([reminderEventsForDay]), the trigger policy
    ([shouldTriggerReminder]), the day lookup ([currentDaySchedule]), the
    regional timetables ([applyOffset], [buildCalendars]), the image cache
    ([imageCache.getOrBuild]) and the subscription store ([StateStore]) with
    its persistence and the bot handlers that drive it; further the clock
    strings ([minutesToClock], [cleanClock]), the time to live of the cached
    images, the scheduler's table ([ReminderManager.Start], [Stop]), the
    choice of localised texts ([tr], [localizedNiyatText],
    [randomHadithForLang]) and the answers of the senders.

    Conventions.
    - Go's [int] and [int64] are integers in [Z]; arithmetic the program
      performs on them is wrapped to 64 bits with [wrap64].
    - A [time.Time] is an instant, counted in nanoseconds on one time line; a
      [time.Duration] is a 64-bit count of nanoseconds.
    - A Go [string] and a [[]byte] read from a file are byte strings
      ([string]); a [[]byte] payload of the cache is a [list byte].
    - A Go [map] is a [gmap]; a [nil] map that is only read is [None].
    - [float64] is IEEE-754 binary64, through the Standard Library's
      [spec_float] with precision 53 and maximal exponent 1024.
    - The wall clock, the file system and builder closures are threaded
      explicitly: every [time.Now()] is an argument, the disk is a value that
      operations return updated, a closure is a state transformer. *)

From Stdlib Require Import ZArith Lia String Ascii List Bool.
From Stdlib.Strings Require Import Byte.
From Stdlib Require Import Decimal DecimalString DecimalPos DecimalZ.
From Stdlib Require Import SpecFloat.
From stdpp Require Import gmap strings list fin_maps.

#[local] Open Scope Z_scope.

(** ** Machine integers *)

Definition int64_min : Z := - 2 ^ 63.
Definition int64_max : Z := 2 ^ 63 - 1.

(** Two's complement wrap-around of a 64-bit signed integer. *)
Definition wrap64 (z : Z) : Z := (z + 2 ^ 63) mod 2 ^ 64 - 2 ^ 63.

Definition is_int64 (z : Z) : Prop := int64_min ≤ z ≤ int64_max.

#[global] Instance is_int64_dec z : Decision (is_int64 z).
Proof. unfold is_int64. apply _. Defined.

Definition int_add (a b : Z) : Z := wrap64 (a + b).
Definition int_mul (a b : Z) : Z := wrap64 (a * b).

(** ** Package [time] *)

(** An instant, in nanoseconds.  The library's own bounds on representable
    instants (hundreds of billions of years) are not part of the model. *)
Abbreviation time_Time := Z (only parsing).
(** A duration: an [int64] count of nanoseconds. *)
Abbreviation time_Duration := Z (only parsing).

Definition time_Nanosecond : Z := 1.
Definition time_Microsecond : Z := 1000 * time_Nanosecond.
Definition time_Millisecond : Z := 1000 * time_Microsecond.
Definition time_Second : Z := 1000 * time_Millisecond.
Definition time_Minute : Z := 60 * time_Second.
Definition time_Hour : Z := 60 * time_Minute.

Definition minDuration : Z := int64_min.
Definition maxDuration : Z := int64_max.

(** [a * b] on two durations: [int64] multiplication. *)
Definition Duration_mul (a b : time_Duration) : time_Duration := int_mul a b.

(** [t.Add(d)]. *)
Definition Time_Add (t : time_Time) (d : time_Duration) : time_Time := t + d.

(** [t.Before(u)] and [t.After(u)]. *)
Definition Time_Before (t u : time_Time) : bool := t <? u.
Definition Time_After (t u : time_Time) : bool := u <? t.

(** [t.Sub(u)]: the difference, saturated to the range of a duration. *)
Definition Time_Sub (t u : time_Time) : time_Duration :=
  if t - u <? minDuration then minDuration
  else if maxDuration <? t - u then maxDuration
  else t - u.

(** ** Data model *)

(** [DayTimes]: prayer times in minutes from midnight for one day. *)
Record DayTimes : Type := mkDayTimes {
  Data : string;
  Day : Z;
  SuhoorEnd : Z;
  Fajr : Z;
  Dhuhr : Z;
  Asr : Z;
  Maghrib : Z;
  Isha : Z
}.

Record eventSpec : Type := mkEventSpec {
  Key : string;
  Title : string;
  Time : time_Time;
  IsNiyat : bool;
  UseIftar : bool;
  UseSuhoor : bool
}.

#[global] Instance DayTimes_eq_dec : EqDecision DayTimes.
Proof. solve_decision. Defined.

#[global] Instance eventSpec_eq_dec : EqDecision eventSpec.
Proof. solve_decision. Defined.

(** ** Event deriver and trigger policy *)

(** [time.Duration(m) * time.Minute] for a minute count [m] held in an
    [int]. *)
Definition minutes (m : Z) : time_Duration := Duration_mul m time_Minute.

Definition reminderEventsForDay (base : time_Time) (day : DayTimes) : list eventSpec :=
  [ {| Key := "suhoor"; Title := ""; Time := Time_Add base (minutes (SuhoorEnd day));
       IsNiyat := false; UseIftar := false; UseSuhoor := true |};
    {| Key := "fajr"; Title := ""; Time := Time_Add base (minutes (Fajr day));
       IsNiyat := false; UseIftar := false; UseSuhoor := false |};
    {| Key := "dhuhr"; Title := ""; Time := Time_Add base (minutes (Dhuhr day));
       IsNiyat := false; UseIftar := false; UseSuhoor := false |};
    {| Key := "asr"; Title := ""; Time := Time_Add base (minutes (Asr day));
       IsNiyat := false; UseIftar := false; UseSuhoor := false |};
    {| Key := "maghrib"; Title := ""; Time := Time_Add base (minutes (Maghrib day));
       IsNiyat := false; UseIftar := true; UseSuhoor := false |};
    {| Key := "isha"; Title := ""; Time := Time_Add base (minutes (Isha day));
       IsNiyat := false; UseIftar := false; UseSuhoor := false |} ].

(** [sent[k]] on a [map[string]bool] that may be [nil]: a missing key reads
    as [false]. *)
Definition sent_index (sent : option (gmap string bool)) (k : string) : bool :=
  match sent with
  | Some m => default false (m !! k)
  | None => false
  end.

Definition shouldTriggerReminder
    (now : time_Time) (ev : eventSpec) (sent : option (gmap string bool)) : bool :=
  if bool_decide (sent ≠ None) && sent_index sent (Key ev) then false
  else
    let remindAt := Time_Add (Time ev) (-30 * time_Minute) in
    negb (Time_Before now remindAt).

(** The fired-set a [sent] map stands for: the keys it marks [true].  The
    scheduling loop only ever writes [sent[ev.Key] = true], so for its maps
    this is the set of keys present. *)
Definition fired (sent : option (gmap string bool)) (k : string) : Prop :=
  ∃ m, sent = Some m ∧ m !! k = Some true.

(** [sent[k] = true], the only write the loop makes to its map. *)
Definition mark_sent (m : gmap string bool) (k : string) : gmap string bool :=
  <[k := true]> m.

(** The maps the loop can hold: built from [make(map[string]bool)] by
    [mark_sent]. *)
Inductive loop_sent : gmap string bool → Prop :=
  | loop_sent_fresh : loop_sent ∅
  | loop_sent_mark m k : loop_sent m → loop_sent (mark_sent m k).

(** The mark thirty minutes before an event. *)
Definition remind_mark (ev : eventSpec) : time_Time := Time ev - 30 * time_Minute.

(** The largest minute count whose duration fits 64 bits. *)
Definition max_minutes : Z := 153722867.

Definition minutes_representable (day : DayTimes) : Prop :=
  Forall (λ m, - max_minutes ≤ m ≤ max_minutes)
    [SuhoorEnd day; Fajr day; Dhuhr day; Asr day; Maghrib day; Isha day].

(** ** [float64] and package [math] *)

Abbreviation float64 := spec_float (only parsing).

(** [float64(z)]: the conversion of an integer, rounded to nearest even. *)
Definition f64_of_int (z : Z) : float64 := binary_normalize 53 1024 z 0 false.
Definition f64_add (x y : float64) : float64 := SFadd 53 1024 x y.
Definition f64_div (x y : float64) : float64 := SFdiv 53 1024 x y.

(** [math.Floor]: zeros, infinities and NaN are returned as they are. *)
Definition math_Floor (x : float64) : float64 :=
  match x with
  | S754_finite s m e =>
      if 0 <=? e then x
      else
        let z := if s then Z.neg m else Z.pos m in
        binary_normalize 53 1024 (z / 2 ^ (- e)) 0 s
  | _ => x
  end.

(** [int(x)]: the fraction is discarded.  A value that does not fit (and
    NaN) has no defined conversion in Go; amd64 yields the least [int64]. *)
Definition int_of_f64 (x : float64) : Z :=
  match x with
  | S754_zero _ => 0
  | S754_finite s m e =>
      let a := if 0 <=? e then Z.pos m * 2 ^ e else Z.pos m / 2 ^ (- e) in
      let z := if s then - a else a in
      if (int64_min <=? z) && (z <=? int64_max) then z else int64_min
  | _ => int64_min
  end.

(** [d.Hours()]: the whole hours plus the remaining nanoseconds over
    [60*60*1e9], in floating point. *)
Definition Duration_Hours (d : time_Duration) : float64 :=
  let hour := Z.quot d time_Hour in
  let nsec := Z.rem d time_Hour in
  f64_add (f64_of_int hour) (f64_div (f64_of_int nsec) (f64_of_int (60 * 60 * 1000000000))).

(** ** Day lookup *)

(** [int(math.Floor(now.Sub(start).Hours()/24.0)) + 1]. *)
Definition dayIndexAt (start now : time_Time) : Z :=
  int_add (int_of_f64 (math_Floor (f64_div (Duration_Hours (Time_Sub now start)) (f64_of_int 24)))) 1.

(** [currentDaySchedule]; [now] is the reading of [time.Now()].  The
    pointer returned by the code is to an element of [days]; the model
    returns the element. *)
Definition currentDaySchedule
    (days : list DayTimes) (start now : time_Time) : option DayTimes :=
  let dayIndex := dayIndexAt start now in
  if (dayIndex <? 0) || (Z.of_nat (length days) <? dayIndex) then None
  else List.find (λ d, Day d =? dayIndex) days.



(** ** Package [strings] *)

Definition bytes_of (codes : list nat) : list ascii := ascii_of_nat <$> codes.

(** The UTF-8 encodings of the code points [unicode.IsSpace] accepts. *)
Definition space_runes : list (list ascii) :=
  bytes_of <$>
  [ [9%nat]; [10%nat]; [11%nat]; [12%nat]; [13%nat]; [32%nat];
    [194; 133]%nat; [194; 160]%nat; [225; 154; 128]%nat;
    [226; 128; 128]%nat; [226; 128; 129]%nat; [226; 128; 130]%nat;
    [226; 128; 131]%nat; [226; 128; 132]%nat; [226; 128; 133]%nat;
    [226; 128; 134]%nat; [226; 128; 135]%nat; [226; 128; 136]%nat;
    [226; 128; 137]%nat; [226; 128; 138]%nat; [226; 128; 168]%nat;
    [226; 128; 169]%nat; [226; 128; 175]%nat; [226; 129; 159]%nat;
    [227; 128; 128]%nat ].

(** [l] without the prefix [p], when it starts with it. *)
Fixpoint strip_prefix (p l : list ascii) : option (list ascii) :=
  match p, l with
  | [], _ => Some l
  | a :: p', b :: l' => if Ascii.eqb a b then strip_prefix p' l' else None
  | _ :: _, [] => None
  end.

Fixpoint strip_any (ps : list (list ascii)) (l : list ascii) : option (list ascii) :=
  match ps with
  | [] => None
  | p :: ps' =>
      match strip_prefix p l with
      | Some l' => Some l'
      | None => strip_any ps' l
      end
  end.

Fixpoint trim_front (fuel : nat) (ps : list (list ascii)) (l : list ascii) : list ascii :=
  match fuel with
  | O => l
  | S n =>
      match strip_any ps l with
      | Some l' => trim_front n ps l'
      | None => l
      end
  end.

(** [strings.TrimSpace] (and [bytes.TrimSpace]): leading, then trailing
    white space is cut. *)
Definition strings_TrimSpace (s : string) : string :=
  let l := list_ascii_of_string s in
  let l1 := trim_front (length l) space_runes l in
  let r := trim_front (length l1) (@rev ascii <$> space_runes) (rev l1) in
  string_of_list_ascii (rev r).

(** [strings.HasPrefix] and [strings.TrimPrefix]. *)
Definition strings_HasPrefix (s p : string) : bool :=
  bool_decide (is_Some (strip_prefix (list_ascii_of_string p) (list_ascii_of_string s))).

Definition strings_TrimPrefix (s p : string) : string :=
  match strip_prefix (list_ascii_of_string p) (list_ascii_of_string s) with
  | Some r => string_of_list_ascii r
  | None => s
  end.

(** ** Clock strings *)

Definition is_digit (a : ascii) : bool :=
  let n := nat_of_ascii a in (48 <=? n)%nat && (n <=? 57)%nat.

Definition digit_val (a : ascii) : Z := Z.of_nat (nat_of_ascii a) - 48.

(** The loop of [cleanClock]: stop at the first ['-'], keep digits and
    [':'].  Every byte of a multi-byte rune is above the ASCII range, so
    ranging over bytes keeps what ranging over runes keeps. *)
Fixpoint cleanClock_loop (l : list ascii) : list ascii :=
  match l with
  | [] => []
  | r :: l' =>
      if Ascii.eqb r "-" then []
      else if is_digit r || Ascii.eqb r ":" then r :: cleanClock_loop l'
      else cleanClock_loop l'
  end.

Definition cleanClock (raw : string) : string :=
  string_of_list_ascii (cleanClock_loop (list_ascii_of_string (strings_TrimSpace raw))).

(** [time.Parse("15:04", s)], as the hour and minute it reads: an hour of
    one or two digits below 24, a colon, a minute of two digits below 60,
    and nothing after. *)
Definition time_Parse_clock (s : string) : option (Z * Z) :=
  let hm h rest :=
    match rest with
    | [c; m1; m2] =>
        if Ascii.eqb c ":" && is_digit m1 && is_digit m2 then
          let m := 10 * digit_val m1 + digit_val m2 in
          if (h <? 24) && (m <? 60) then Some (h, m) else None
        else None
    | _ => None
    end in
  match list_ascii_of_string s with
  | h1 :: rest =>
      if is_digit h1 then
        match rest with
        | h2 :: rest' =>
            if is_digit h2 then hm (10 * digit_val h1 + digit_val h2) rest'
            else hm (digit_val h1) rest
        | [] => None
        end
      else None
  | [] => None
  end.

(** [mustClockToMinutes]; [None] is the fatal exit on a clock that does
    not parse. *)
Definition mustClockToMinutes (raw : string) : option Z :=
  match time_Parse_clock (cleanClock raw) with
  | Some (h, m) => Some (int_add (int_mul h 60) m)
  | None => None
  end.

(** ** Regional timetables *)

Definition adjust (offset val : Z) : Z :=
  let out := int_add val offset in
  if out <? 0 then 0 else out.

Definition applyOffset (day : DayTimes) (offset : Z) : DayTimes :=
  {| Data := Data day;
     Day := Day day;
     SuhoorEnd := adjust offset (SuhoorEnd day);
     Fajr := adjust offset (Fajr day);
     Dhuhr := adjust offset (Dhuhr day);
     Asr := adjust offset (Asr day);
     Maghrib := adjust offset (Maghrib day);
     Isha := adjust offset (Isha day) |}.

(** The rows of the base timetable of [buildCalendars]: date, day number
    and the five clock strings (fajr, dhuhr, asr, maghrib, isha). *)
Definition base_table : list (string * Z * string * string * string * string * string) :=
  [
    ("18.02.2026", 0, "05:42", "12:41", "15:40", "18:13", "19:29");
    ("19.02.2026", 1, "05:41", "12:41", "15:40", "18:14", "19:30");
    ("20.02.2026", 2, "05:40", "12:40", "15:41", "18:15", "19:31");
    ("21.02.2026", 3, "05:39", "12:39", "15:41", "18:16", "19:32");
    ("22.02.2026", 4, "05:38", "12:38", "15:42", "18:17", "19:33");
    ("23.02.2026", 5, "05:37", "12:38", "15:43", "18:18", "19:34");
    ("24.02.2026", 6, "05:35", "12:38", "15:44", "18:20", "19:35");
    ("25.02.2026", 7, "05:34", "12:38", "15:44", "18:21", "19:36");
    ("26.02.2026", 8, "05:32", "12:38", "15:45", "18:22", "19:37");
    ("27.02.2026", 9, "05:31", "12:38", "15:46", "18:23", "19:38");
    ("28.02.2026", 10, "05:29", "12:37", "15:47", "18:24", "19:39");
    ("01.03.2026", 11, "05:28", "12:37", "15:48", "18:26", "19:41");
    ("02.03.2026", 12, "05:27", "12:37", "15:48", "18:27", "19:42");
    ("03.03.2026", 13, "05:26", "12:37", "15:49", "18:28", "19:43");
    ("04.03.2026", 14, "05:24", "12:37", "15:50", "18:29", "19:44");
    ("05.03.2026", 15, "05:22", "12:36", "15:50", "18:30", "19:45");
    ("06.03.2026", 16, "05:20", "12:36", "15:51", "18:31", "19:46");
    ("07.03.2026", 17, "05:19", "12:36", "15:51", "18:32", "19:47");
    ("08.03.2026", 18, "05:17", "12:36", "15:52", "18:33", "19:48");
    ("09.03.2026", 19, "05:16", "12:35", "15:53", "18:34", "19:49");
    ("10.03.2026", 20, "05:14", "12:35", "15:53", "18:35", "19:50");
    ("11.03.2026", 21, "05:13", "12:35", "15:54", "18:36", "19:51");
    ("12.03.2026", 22, "05:11", "12:38", "15:55", "18:37", "19:52");
    ("13.03.2026", 23, "05:10", "12:38", "15:55", "18:38", "19:53");
    ("14.03.2026", 24, "05:08", "12:38", "15:56", "18:39", "19:54");
    ("15.03.2026", 25, "05:07", "12:38", "15:56", "18:40", "19:55");
    ("16.03.2026", 26, "05:05", "12:38", "15:57", "18:41", "19:56");
    ("17.03.2026", 27, "05:04", "12:37", "15:57", "18:42", "19:57");
    ("18.03.2026", 28, "05:02", "12:36", "15:57", "18:43", "19:58");
    ("19.03.2026", 29, "05:01", "12:35", "15:58", "18:44", "19:59");
    ("20.03.2026", 30, "05:00", "12:34", "15:58", "18:45", "20:00")
  ].

(** The region offsets of [buildCalendars], in minutes; the names are the
    Cyrillic region names of the source, in UTF-8. *)
Definition offsets_table : list (string * Z) :=
  [
    ("Душанбе", 0);
    ("Ашт", (-6));
    ("Айни", 1);
    ("Кулоб", (-4));
    ("Рашт", (-6));
    ("Хамадони", (-3));
    ("Худжанд", (-3));
    ("Истаравшан", (-1));
    ("Исфара", (-7));
    ("Конибодом", (-6));
    ("Хоруг", (-11));
    ("Мургоб", (-20));
    ("Ш. Шохин", (-5));
    ("Муъминобод", (-3));
    ("Панчакент", 5);
    ("Шахритус", 3);
    ("Н. Хусрав", 4);
    ("Турсунзода", 3)
  ].

Definition offsets : gmap string Z := list_to_map offsets_table.

Definition baseDay_of
    (d : string * Z * string * string * string * string * string) : option DayTimes :=
  let '(date, day, fajr, dhuhr, asr, maghrib, isha) := d in
  fajr ← mustClockToMinutes fajr;
  dhuhr ← mustClockToMinutes dhuhr;
  asr ← mustClockToMinutes asr;
  maghrib ← mustClockToMinutes maghrib;
  isha ← mustClockToMinutes isha;
  Some {| Data := date; Day := day; SuhoorEnd := fajr; Fajr := fajr;
          Dhuhr := dhuhr; Asr := asr; Maghrib := maghrib; Isha := isha |}.

(** The base days; [None] when a clock string of the table is refused. *)
Definition baseDays : option (list DayTimes) := mapM baseDay_of base_table.

(** [buildCalendars]: every region of the offsets table gets the base days
    shifted by its offset.  The regions are distinct, so the order in which
    Go ranges over the offsets does not show in the result. *)
Definition buildCalendars : option (gmap string (list DayTimes)) :=
  match baseDays with
  | Some days =>
      Some (foldr (λ '(region, offset) (calendars : gmap string (list DayTimes)),
                     <[region := (λ bd, applyOffset bd offset) <$> days]> calendars)
                  ∅ offsets_table)
  | None => None
  end.

(** ** Image cache *)

(** A Go [error] value, by its message. *)
Abbreviation error := string (only parsing).

Record cachedImage : Type := mkCachedImage {
  data : list byte;
  expiresAt : time_Time
}.

(** What a [func() ([]byte, error)] returns: the bytes and the error, [None]
    for [nil]. *)
Abbreviation buildResult := (list byte * option string)%type (only parsing).

(** A builder closure: a transformer of whatever state [B] it captures. *)
Definition builder (B : Type) : Type := B → buildResult * B.

(** The readings of [time.Now()] one call of [getOrBuild] makes: before the
    lookup, when the entry is stored, and at the sweep. *)
Record clockReads : Type := mkClockReads {
  now_lookup : time_Time;
  now_store : time_Time;
  now_sweep : time_Time
}.

(** The sweep: every entry whose expiry [now] is after is deleted. *)
Definition sweep (now : time_Time) (items : gmap string cachedImage)
    : gmap string cachedImage :=
  filter (λ kv, Time_After now (expiresAt kv.2) = false) items.

(** The miss path of [getOrBuild]: build, and store a copy on success. *)
Definition buildAndStore {B : Type}
    (items : gmap string cachedImage) (key : string) (ttl : time_Duration)
    (build : builder B) (clk : clockReads) (b : B)
    : buildResult * option (gmap string cachedImage) * B :=
  let '((data, err), b') := build b in
  match err with
  | Some e => (([], Some e), Some items, b')
  | None =>
      let copied := data in
      let items1 :=
        <[key := {| data := copied; expiresAt := Time_Add (now_store clk) ttl |}]> items in
      let items2 :=
        if (512 <? size items1)%nat then sweep (now_sweep clk) items1 else items1 in
      ((copied, None), Some items2, b')
  end.

(** [imageCache.getOrBuild].  The receiver [c] is [None] for a [nil] cache
    and otherwise holds the entry map [c.items]; the result carries the
    returned pair, the cache after the call and the builder's state after
    the call.  The locks guard against concurrent callers and have no
    effect on one caller. *)
Definition getOrBuild {B : Type}
    (c : option (gmap string cachedImage)) (key : string) (ttl : time_Duration)
    (build : builder B) (clk : clockReads) (b : B)
    : buildResult * option (gmap string cachedImage) * B :=
  match c with
  | None => let '(r, b') := build b in (r, c, b')
  | Some items =>
      if ttl <=? 0 then let '(r, b') := build b in (r, c, b')
      else
        let now := now_lookup clk in
        match items !! key with
        | Some cached =>
            if Time_Before now (expiresAt cached)
            then ((data cached, None), c, b)
            else buildAndStore items key ttl build clk b
        | None => buildAndStore items key ttl build clk b
        end
  end.

(** A builder instrumented with a count of its invocations, as a test would
    wrap it. *)
Definition counting {B : Type} (build : builder B) : builder (B * nat) :=
  λ '(b, n), let '(r, b') := build b in (r, (b', S n)).


(** One instant for all three clock readings of a call. *)
Definition at_instant (t : time_Time) : clockReads :=
  {| now_lookup := t; now_store := t; now_sweep := t |}.

(** ** Package [strconv] *)

(** [strconv.FormatInt(i, 10)]. *)
Definition strconv_FormatInt (i : Z) : string := NilZero.string_of_int (Z.to_int i).

(** [strconv.ParseInt(s, 10, 64)]; [None] stands for either error (syntax
    or range).  One sign is accepted, then at least one digit and nothing
    but digits; the value must fit an [int64]. *)
Definition strconv_ParseInt (s : string) : option Z :=
  match s with
  | EmptyString => None
  | String c rest =>
      let '(neg, digits) :=
        if Ascii.eqb c "+" then (false, rest)
        else if Ascii.eqb c "-" then (true, rest)
        else (false, s) in
      match NilZero.uint_of_string digits with
      | None => None
      | Some u =>
          let un := Z.of_uint u in
          if negb neg && (2 ^ 63 <=? un) then None
          else if neg && (2 ^ 63 <? un) then None
          else Some (if neg then - un else un)
      end
  end.

(** ** Results and the libraries taken as given *)

(** A value or a Go [error] (by its message). *)
Inductive result (A : Type) : Type :=
  | Ok (a : A)
  | Err (e : string).
Arguments Ok {A} a.
Arguments Err {A} e.

Record UserSettings : Type := mkUserSettings {
  Language : string;
  Region : string;
  Notifications : bool;
  RegionSelected : bool
}.

#[global] Instance UserSettings_eq_dec : EqDecision UserSettings.
Proof. solve_decision. Defined.

(** [&UserSettings{}]. *)
Definition UserSettings_zero : UserSettings :=
  {| Language := ""; Region := ""; Notifications := false; RegionSelected := false |}.

(** [persistedStateData]; a [nil] map and an empty one are both [∅]. *)
Record persistedStateData : Type := mkPersisted {
  Users : gmap string UserSettings
}.

(** Library functions whose tables and grammars are outside the
    repository: Unicode case mapping, the JSON codec at the type
    [persistedStateData] ([json.MarshalIndent(data, "", "  ")], and
    [json.Unmarshal] into a zero value), and [filepath.Dir]. *)
Class GoLib : Type := mkGoLib {
  strings_ToLower : string → string;
  json_MarshalIndent : persistedStateData → result string;
  json_Unmarshal : string → result persistedStateData;
  filepath_Dir : string → string
}.

(** ** Language codes *)

Definition langTG : string := "tg".
Definition langRU : string := "ru".
Definition langEN : string := "en".
Definition langUZ : string := "uz".

(** [strings.ReplaceAll(s, "_", "-")]. *)
Definition replace_underscores (l : list ascii) : list ascii :=
  (λ a, if Ascii.eqb a "_" then "-"%char else a) <$> l.

(** [strings.Index(s, "-")]. *)
Fixpoint index_dash (l : list ascii) : option nat :=
  match l with
  | [] => None
  | a :: l' => if Ascii.eqb a "-" then Some O else S <$> index_dash l'
  end.

Definition normalizeLang `{GoLib} (raw : string) : string :=
  let lang := strings_ToLower (strings_TrimSpace raw) in
  let l := replace_underscores (list_ascii_of_string lang) in
  let l :=
    match index_dash l with
    | Some (S idx) => take (S idx) l
    | _ => l
    end in
  let lang := string_of_list_ascii l in
  if bool_decide (lang ∈ [langTG; "tj"; "tjk"; "tajik"; "taj"]) then langTG
  else if bool_decide (lang ∈ [langRU; "rus"; "russian"]) then langRU
  else if bool_decide (lang ∈ [langEN; "eng"; "english"]) then langEN
  else if bool_decide (lang ∈ [langUZ; "uzb"; "ozbek"; "o'zbek"]) then langUZ
  else "".

(** ** File system *)

(** A flat disk: a path names a regular file, a directory or nothing. *)
Inductive node : Type :=
  | File (content : string)
  | Dir.

Abbreviation disk := (gmap string node) (only parsing).

Definition ErrNotExist : string := "file does not exist".
Definition os_IsNotExist (e : string) : bool := bool_decide (e = ErrNotExist).

Definition os_ReadFile (d : disk) (path : string) : result string :=
  match d !! path with
  | Some (File raw) => Ok raw
  | Some Dir => Err "is a directory"
  | None => Err ErrNotExist
  end.

Definition os_WriteFile (d : disk) (path raw : string) : disk * option string :=
  match d !! path with
  | Some Dir => (d, Some "is a directory")
  | _ => (<[path := File raw]> d, None)
  end.

Fixpoint drop_while (f : ascii → bool) (l : list ascii) : list ascii :=
  match l with
  | [] => []
  | a :: l' => if f a then drop_while f l' else l
  end.

Definition is_separator (a : ascii) : bool := Ascii.eqb a "/".

(** The parent [os.MkdirAll] takes of a path: trailing separators are
    skipped, then the last element, and what precedes the separator found
    is the parent; there is none when nothing precedes it. *)
Definition path_parent (path : string) : option string :=
  let l := rev (list_ascii_of_string path) in
  let l := drop_while is_separator l in
  let l := drop_while (λ a, negb (is_separator a)) l in
  match l with
  | _ :: ((_ :: _) as parent) => Some (string_of_list_ascii (rev parent))
  | _ => None
  end.

(** [os.Mkdir]: a new directory where there is nothing. *)
Definition os_Mkdir (d : disk) (path : string) : disk * option string :=
  match d !! path with
  | Some _ => (d, Some "file exists")
  | None => (<[path := Dir]> d, None)
  end.

(** [os.MkdirAll], by recursion on the parents: a directory that is there
    is left alone, a regular file in the way is an error, and otherwise the
    parent is made first and then the directory itself.  Each parent is
    shorter than its path, so [fuel] up to the length of the path is
    enough. *)
Fixpoint MkdirAll_from (fuel : nat) (d : disk) (path : string) : disk * option string :=
  match d !! path with
  | Some Dir => (d, None)
  | Some (File _) => (d, Some "not a directory")
  | None =>
      let '(d1, err) :=
        match fuel, path_parent path with
        | S n, Some parent => MkdirAll_from n d parent
        | _, _ => (d, None)
        end in
      match err with
      | Some e => (d1, Some e)
      | None =>
          let '(d2, err) := os_Mkdir d1 path in
          match err with
          | Some e =>
              match d2 !! path with
              | Some Dir => (d2, None)
              | _ => (d2, Some e)
              end
          | None => (d2, None)
          end
      end
  end.

Definition os_MkdirAll (d : disk) (dir : string) : disk * option string :=
  MkdirAll_from (String.length dir) d dir.

(** The path and the parents [os.MkdirAll] goes through. *)
Fixpoint path_chain (fuel : nat) (path : string) : list string :=
  path :: match fuel, path_parent path with
          | S n, Some parent => path_chain n parent
          | _, _ => []
          end.

Definition os_Rename (d : disk) (oldpath newpath : string) : disk * option string :=
  match d !! oldpath with
  | None => (d, Some ErrNotExist)
  | Some n =>
      match d !! newpath with
      | Some Dir => (d, Some "file exists")
      | _ => (<[newpath := n]> (delete oldpath d), None)
      end
  end.

(** ** Subscription store *)

(** [StateStore]; every pointer the code puts in [users] is to a fresh
    struct, so the map holds the structs themselves.  One caller at a time:
    the mutex has no effect. *)
Record StateStore : Type := mkStateStore {
  users : gmap Z UserSettings;
  persistPath : string
}.

Definition snapshotLocked (s : StateStore) : gmap string UserSettings :=
  kmap strconv_FormatInt (users s).

Definition writeStateSnapshot `{GoLib}
    (path : string) (snapshot : gmap string UserSettings) (d : disk)
    : disk * option string :=
  let path := strings_TrimSpace path in
  if bool_decide (path = "") then (d, None)
  else
    match json_MarshalIndent {| Users := snapshot |} with
    | Err e => (d, Some e)
    | Ok raw =>
        let dir := filepath_Dir path in
        let '(d1, err) :=
          if bool_decide (dir ≠ ".") && bool_decide (dir ≠ "")
          then os_MkdirAll d dir else (d, None) in
        match err with
        | Some e => (d1, Some e)
        | None =>
            let tmp := path +:+ ".tmp" in
            let '(d2, err) := os_WriteFile d1 tmp raw in
            match err with
            | Some e => (d2, Some e)
            | None => os_Rename d2 tmp path
            end
        end
    end.

(** The loop of [loadFromDisk] over [data.Users]: a key that is no chat id
    is skipped.  Go ranges over the map in no fixed order and the fold takes
    the map's own; the two agree as long as no two keys spell the same chat
    id, which is so for every file the store has written. *)
Definition loadUsers (data : gmap string UserSettings) (into : gmap Z UserSettings)
    : gmap Z UserSettings :=
  map_fold (λ key settings acc,
              match strconv_ParseInt key with
              | Some chatID => <[chatID := settings]> acc
              | None => acc
              end) into data.

Definition loadFromDisk `{GoLib} (s : StateStore) (d : disk) : StateStore * option string :=
  let path := strings_TrimSpace (persistPath s) in
  if bool_decide (path = "") then (s, None)
  else
    match os_ReadFile d path with
    | Err e => if os_IsNotExist e then (s, None) else (s, Some e)
    | Ok raw =>
        if bool_decide (strings_TrimSpace raw = "") then (s, None)
        else
          match json_Unmarshal raw with
          | Err e => (s, Some e)
          | Ok data =>
              ({| users := loadUsers (Users data) (users s);
                  persistPath := persistPath s |}, None)
          end
    end.

Definition newStateStore `{GoLib} (path : string) (d : disk) : result StateStore :=
  let store := {| users := ∅; persistPath := strings_TrimSpace path |} in
  match loadFromDisk store d with
  | (_, Some err) => Err err
  | (store, None) => Ok store
  end.

(** [Get]: the settings of the chat, created empty on first access. *)
Definition Get (s : StateStore) (chatID : Z) : UserSettings * StateStore :=
  match users s !! chatID with
  | Some settings => (settings, s)
  | None =>
      (UserSettings_zero,
       {| users := <[chatID := UserSettings_zero]> (users s);
          persistPath := persistPath s |})
  end.

(** The common shape of the three setters: change the chat's record (an
    empty one when it has none), then write the snapshot.  A failed write is
    logged and changes nothing else. *)
Definition update_and_persist `{GoLib}
    (f : UserSettings → UserSettings) (s : StateStore) (d : disk) (chatID : Z)
    : StateStore * disk :=
  let settings := default UserSettings_zero (users s !! chatID) in
  let s' := {| users := <[chatID := f settings]> (users s);
               persistPath := persistPath s |} in
  let snapshot := snapshotLocked s' in
  (s', (writeStateSnapshot (persistPath s') snapshot d).1).

Definition SetRegion `{GoLib} (s : StateStore) (d : disk) (chatID : Z) (region : string)
    : StateStore * disk :=
  update_and_persist
    (λ settings, {| Language := Language settings; Region := region;
                    Notifications := true; RegionSelected := true |})
    s d chatID.

Definition SetLanguage `{GoLib} (s : StateStore) (d : disk) (chatID : Z) (lang : string)
    : StateStore * disk :=
  update_and_persist
    (λ settings, {| Language := normalizeLang lang; Region := Region settings;
                    Notifications := Notifications settings;
                    RegionSelected := RegionSelected settings |})
    s d chatID.

Definition SetNotifications `{GoLib} (s : StateStore) (d : disk) (chatID : Z) (enabled : bool)
    : StateStore * disk :=
  update_and_persist
    (λ settings, {| Language := Language settings; Region := Region settings;
                    Notifications := enabled;
                    RegionSelected := RegionSelected settings |})
    s d chatID.

Definition ActiveNotificationRegions (s : StateStore) : gmap Z string :=
  omap (λ settings,
          let region := strings_TrimSpace (Region settings) in
          if negb (Notifications settings) || bool_decide (region = "") then None
          else Some region)
       (users s).

(** ** Startup *)

(** What [main] does with the state file: the store it runs with and the
    subscriptions it restarts, or the fatal exit. *)
Inductive startup : Type :=
  | Fatal (msg : string)
  | Started (state : StateStore) (restored : gmap Z string).

Definition main_startup `{GoLib} (STATE_FILE : string) (d : disk) : startup :=
  let statePath := strings_TrimSpace STATE_FILE in
  let statePath := if bool_decide (statePath = "") then "state.json" else statePath in
  match newStateStore statePath d with
  | Err err => Fatal ("failed to initialize state store: " +:+ err)
  | Ok state => Started state (ActiveNotificationRegions state)
  end.

(** ** Bot handlers *)

(** What the handlers change: the store, the disk behind it, and the
    scheduler's table of running loops (chat to region).  Messages sent to
    the chat are output only and are left out. *)
Record Bot : Type := mkBot {
  state : StateStore;
  fs : gmap string node;
  active : gmap Z string
}.

Definition with_state (b : Bot) (sd : StateStore * gmap string node) : Bot :=
  {| state := sd.1; fs := sd.2; active := active b |}.

(** [b.state.Get(chatID)] for its effect and its result. *)
Definition bot_Get (b : Bot) (chatID : Z) : UserSettings * Bot :=
  let '(settings, s) := Get (state b) chatID in
  (settings, {| state := s; fs := fs b; active := active b |}).

(** [ReminderManager.Start] and [Stop], as far as the table goes. *)
Definition scheduler_Start (b : Bot) (chatID : Z) (region : string) : Bot :=
  {| state := state b; fs := fs b; active := <[chatID := region]> (active b) |}.

Definition scheduler_Stop (b : Bot) (chatID : Z) : Bot :=
  {| state := state b; fs := fs b; active := delete chatID (active b) |}.

Definition requireLanguage `{GoLib} (b : Bot) (chatID : Z) : (string * bool) * Bot :=
  let '(settings, b) := bot_Get b chatID in
  let lang := normalizeLang (Language settings) in
  if bool_decide (lang = "") then (("", false), b)
  else
    let b := if bool_decide (lang ≠ Language settings)
             then with_state b (SetLanguage (state b) (fs b) chatID lang)
             else b in
    ((lang, true), b).

Definition setNotifications `{GoLib} (b : Bot) (chatID : Z) (enabled : bool) : Bot :=
  let '(settings, b) := bot_Get b chatID in
  if bool_decide (Region settings = "") then b
  else
    let b := with_state b (SetNotifications (state b) (fs b) chatID enabled) in
    if enabled then scheduler_Start b chatID (Region settings)
    else scheduler_Stop b chatID.

(** A callback query: the sender, the data, and the chat of the message it
    belongs to when there is one. *)
Record CallbackQuery : Type := mkCallbackQuery {
  FromID : Z;
  CallbackData : string;
  MessageChat : option Z
}.

Definition handleCallback `{GoLib} (b : Bot) (cb : CallbackQuery) : Bot :=
  if bool_decide (CallbackData cb = "") then b
  else
    let chatID := default (FromID cb) (MessageChat cb) in
    if strings_HasPrefix (CallbackData cb) "lang:" then
      let lang := normalizeLang (strings_TrimPrefix (CallbackData cb) "lang:") in
      let lang := if bool_decide (lang = "") then langTG else lang in
      let b := with_state b (SetLanguage (state b) (fs b) chatID lang) in
      (bot_Get b chatID).2
    else if strings_HasPrefix (CallbackData cb) "region:" then
      let '((lang, ok), b) := requireLanguage b chatID in
      if negb ok then b
      else
        let region := strings_TrimPrefix (CallbackData cb) "region:" in
        let b := with_state b (SetRegion (state b) (fs b) chatID region) in
        scheduler_Start b chatID region
    else b.

(** [handleMessage], from the command [resolveCommand] has made of the
    text.  What [resolveCommand] and the senders ([handleStart],
    [promptLanguage], [sendHelp], [sendCalendar], [sendToday],
    [sendTestNotification]) do to the store is a [Get] of the chat, which
    every branch performs. *)
Definition handleMessage `{GoLib} (b : Bot) (chatID : Z) (lower : string) : Bot :=
  if bool_decide (lower ∈ ["/start"; "/menu"; "/lang"; "/language"]) then
    (bot_Get b chatID).2
  else
    let '((lang, ok), b) := requireLanguage b chatID in
    if negb ok then b
    else if bool_decide (lower = "/notifyoff") then setNotifications b chatID false
    else if bool_decide (lower = "/notifyon") then setNotifications b chatID true
    else b.

(** An update the bot receives. *)
Inductive update : Type :=
  | UMessage (chatID : Z) (lower : string)
  | UCallback (cb : CallbackQuery).

Definition handleUpdate `{GoLib} (b : Bot) (u : update) : Bot :=
  match u with
  | UMessage chatID lower => handleMessage b chatID lower
  | UCallback cb => handleCallback b cb
  end.

(** The bot after a sequence of updates, oldest first. *)
Definition run `{GoLib} (b : Bot) (us : list update) : Bot := foldl handleUpdate b us.

(** The bot [main] starts with when there is no state file. *)
Definition fresh_bot (path : string) : Bot :=
  {| state := {| users := ∅; persistPath := strings_TrimSpace path |};
     fs := ∅; active := ∅ |}.

(** The invariant of the specification: notifications are enabled only for
    a subscriber with a region. *)
Definition enabled_have_region (s : StateStore) : Prop :=
  ∀ chatID settings,
    users s !! chatID = Some settings →
    Notifications settings = true → Region settings ≠ "".

(** ** A sample of the libraries *)

(** The codec round-trips [data]: the text [json.MarshalIndent] writes for
    it is not blank and [json.Unmarshal] reads it back as [data].  This is
    what [encoding/json] does for maps whose strings are valid UTF-8. *)
Definition json_round_trips `{GoLib} (data : persistedStateData) : Prop :=
  ∀ raw, json_MarshalIndent data = Ok raw →
    json_Unmarshal raw = Ok data ∧ strings_TrimSpace raw ≠ "".

#[global] Instance persistedStateData_eq_dec : EqDecision persistedStateData.
Proof. solve_decision. Defined.

(** [strings.ToLower] on ASCII text. *)
Definition ToLower_ascii (s : string) : string :=
  string_of_list_ascii
    ((λ a, let n := nat_of_ascii a in
           if (65 <=? n)%nat && (n <=? 90)%nat then ascii_of_nat (n + 32) else a)
       <$> list_ascii_of_string s).

(** [filepath.Dir] on a clean path: what precedes the last slash. *)
Definition Dir_clean (path : string) : string :=
  let l := list_ascii_of_string path in
  match index_dash ((λ a, if Ascii.eqb a "/" then "-"%char else "x"%char) <$> rev l) with
  | None => "."
  | Some n =>
      match take (length l - S n) l with
      | [] => "/"
      | dir => string_of_list_ascii dir
      end
  end.

(** Lines joined by newlines, each apostrophe standing for a double
    quote. *)
Definition json_text (lines : list string) : string :=
  string_of_list_ascii
    ((λ a, if Ascii.eqb a "'" then ascii_of_nat 34 else a)
       <$> list_ascii_of_string (String.concat (String (ascii_of_nat 10) "") lines)).

(** Two subscribers: one with a region, one whose region is empty. *)
Definition sample_users : gmap Z UserSettings :=
  {[ 42 := {| Language := "tg"; Region := "Душанбе";
              Notifications := true; RegionSelected := true |};
     7 := {| Language := "ru"; Region := "";
             Notifications := true; RegionSelected := true |} ]}.

Definition sample_data : persistedStateData :=
  {| Users := {[ "42" := {| Language := "tg"; Region := "Душанбе";
                            Notifications := true; RegionSelected := true |};
                 "7" := {| Language := "ru"; Region := "";
                           Notifications := true; RegionSelected := true |} ]} |}.

(** The text [json.MarshalIndent(sample_data, "", "  ")] produces. *)
Definition sample_json : string :=
  json_text
    [ "{";
      "  'users': {";
      "    '42': {";
      "      'Language': 'tg',";
      "      'Region': 'Душанбе',";
      "      'Notifications': true,";
      "      'RegionSelected': true";
      "    },";
      "    '7': {";
      "      'Language': 'ru',";
      "      'Region': '',";
      "      'Notifications': true,";
      "      'RegionSelected': true";
      "    }";
      "  }";
      "}" ].

(** The libraries on a sample: ASCII case mapping, clean paths, and the
    codec on the one document above; anything else is refused. *)
Definition sample_lib : GoLib :=
  {| strings_ToLower := ToLower_ascii;
     json_MarshalIndent := λ data,
       if decide (data = sample_data) then Ok sample_json
       else Err "json: outside the sample";
     json_Unmarshal := λ raw,
       if decide (raw = sample_json) then Ok sample_data
       else Err "invalid character";
     filepath_Dir := Dir_clean |}.

(** ** The daily polling loop *)

(** The body of one tick of the day loop of [ReminderManager.loop]: the
    events are checked in order, and one that should trigger is marked in
    [sent] and delivered.  The result is the events delivered at this tick
    and the map after it. *)
Fixpoint tickEvents (now : time_Time) (events : list eventSpec) (sent : gmap string bool)
    : list eventSpec * gmap string bool :=
  match events with
  | [] => ([], sent)
  | ev :: rest =>
      if shouldTriggerReminder now ev (Some sent) then
        let '(out, sent') := tickEvents now rest (mark_sent sent (Key ev)) in
        (ev :: out, sent')
      else tickEvents now rest sent
  end.

(** The day loop, from a map [sent]: [ticks] are the clock readings at the
    ticks that occur before the loop is cancelled; the loop is left at the
    first tick that is not before [nextDay].  The result is the events
    delivered, in order. *)
Fixpoint pollDay (nextDay : time_Time) (events : list eventSpec)
    (ticks : list time_Time) (sent : gmap string bool) : list eventSpec :=
  match ticks with
  | [] => []
  | now :: ticks' =>
      if negb (Time_Before now nextDay) then []
      else
        let '(out, sent') := tickEvents now events sent in
        out ++ pollDay nextDay events ticks' sent'
  end.

(** ** Predicates of the statements *)

(** The day [bd] with [offset] added to each of its six times. *)
Definition shifted (bd : DayTimes) (offset : Z) : DayTimes :=
  {| Data := Data bd; Day := Day bd;
     SuhoorEnd := SuhoorEnd bd + offset; Fajr := Fajr bd + offset;
     Dhuhr := Dhuhr bd + offset; Asr := Asr bd + offset;
     Maghrib := Maghrib bd + offset; Isha := Isha bd + offset |}.

(** The six times of a day all lie within [[lo, hi]]. *)
Definition times_within (lo hi : Z) (bd : DayTimes) : Prop :=
  Forall (λ m, lo ≤ m ≤ hi)
    [SuhoorEnd bd; Fajr bd; Dhuhr bd; Asr bd; Maghrib bd; Isha bd].

(** No two keys of the persisted map are spellings of one chat id. *)
Definition keys_parse_apart (data : gmap string UserSettings) : Prop :=
  ∀ k1 k2 id, is_Some (data !! k1) → is_Some (data !! k2) →
    strconv_ParseInt k1 = Some id → strconv_ParseInt k2 = Some id → k1 = k2.

(** Every chat id of the store is an [int64], as the key type of the Go map
    has it. *)
Definition chat_ids_int64 (us : gmap Z UserSettings) : Prop :=
  map_Forall (λ chatID _, is_int64 chatID) us.

(** [strings.TrimSpace] on the bytes of a string. *)
Definition trim_list (l : list ascii) : list ascii :=
  let l1 := trim_front (length l) space_runes l in
  rev (trim_front (length l1) (@rev ascii <$> space_runes) (rev l1)).

(** The update is not a region callback with nothing after the prefix. *)
Definition names_region (u : update) : Prop :=
  match u with
  | UCallback cb => CallbackData cb ≠ "region:"
  | UMessage _ _ => True
  end.

(** ** Clock formatting *)

(** [fmt.Sprintf("%02d", n)]: the decimal digits, with one zero before a
    single digit; a sign counts towards the width of two. *)
Definition fmt_02d (n : Z) : string :=
  if (0 <=? n) && (n <? 10) then "0" +:+ strconv_FormatInt n else strconv_FormatInt n.

(** [minutesToClock]; [/] and [%] on [int] truncate towards zero. *)
Definition minutesToClock (min : Z) : string :=
  let h := Z.quot min 60 in
  let m := Z.rem min 60 in
  fmt_02d h +:+ ":" +:+ fmt_02d m.

(** A byte [cleanClock] keeps. *)
Definition clock_char (a : ascii) : bool := is_digit a || Ascii.eqb a ":".

(** The days of a timetable whose times are in chronological order:
    suhoor ends at fajr, then dhuhr, asr, maghrib and isha, all within
    [[lo, hi]]. *)
Definition chronological (lo hi : Z) (d : DayTimes) : bool :=
  (lo <=? SuhoorEnd d) && (SuhoorEnd d =? Fajr d) && (Fajr d <? Dhuhr d)
  && (Dhuhr d <? Asr d) && (Asr d <? Maghrib d) && (Maghrib d <? Isha d)
  && (Isha d <=? hi).

(** ** Time to live of the cached images *)

(** Instants are counted from the Unix epoch; the zero [time.Time] is the
    first instant of year 1, UTC. *)
Definition time_zero : time_Time := -62135596800 * time_Second.

Definition Time_IsZero (t : time_Time) : bool := t =? time_zero.

(** [time.Until(t)], with [now] the reading of the clock it takes. *)
Definition time_Until (t now : time_Time) : time_Duration := Time_Sub t now.

(** The time to live [cachedReminderImage] computes for the image of an
    event. *)
Definition reminderImageTTL (ev : eventSpec) (now : time_Time) : time_Duration :=
  let ttl := 2 * time_Hour in
  let ttl :=
    if negb (Time_IsZero (Time ev)) then
      let until := time_Until (Time_Add (Time ev) (90 * time_Minute)) now in
      if 0 <? until then until else 30 * time_Minute
    else ttl in
  if ttl <? 15 * time_Minute then 15 * time_Minute else ttl.

(** [cachedReminderImage]; [key] is the fingerprint
    [reminderImageCacheKey] makes of its arguments and [render] the closure
    around [renderReminderImage]. *)
Definition cachedReminderImage {B : Type}
    (imageCache : option (gmap string cachedImage)) (key : string) (ev : eventSpec)
    (now : time_Time) (render : builder B) (clk : clockReads) (b : B)
    : buildResult * option (gmap string cachedImage) * B :=
  getOrBuild imageCache key (reminderImageTTL ev now) render clk b.

(** [timeUntilNextDay]; [next] is the midnight after today in the bot's
    time zone, which [time.Date] computes from the date of a first clock
    reading, and [now] the reading of [time.Until]. *)
Definition timeUntilNextDay (next now : time_Time) : time_Duration :=
  let ttl := time_Until (Time_Add next (5 * time_Minute)) now in
  if ttl <=? 0 then 1 * time_Hour else ttl.

Definition cachedTodayImage {B : Type}
    (imageCache : option (gmap string cachedImage)) (key : string)
    (next now : time_Time) (render : builder B) (clk : clockReads) (b : B)
    : buildResult * option (gmap string cachedImage) * B :=
  getOrBuild imageCache key (timeUntilNextDay next now) render clk b.

Definition cachedCalendarImage {B : Type}
    (imageCache : option (gmap string cachedImage)) (key : string)
    (render : builder B) (clk : clockReads) (b : B)
    : buildResult * option (gmap string cachedImage) * B :=
  getOrBuild imageCache key (12 * time_Hour) render clk b.

(** No entry of the cache has expired at [now], in the sense of the sweep. *)
Definition all_unexpired (now : time_Time) (items : gmap string cachedImage) : Prop :=
  map_Forall (λ _ entry, now ≤ expiresAt entry) items.

(** ** Localised texts *)

(** [userLang]: the chat's language, Tajik when none is set. *)
Definition userLang `{GoLib} (b : Bot) (chatID : Z) : string * Bot :=
  let '(settings, b) := bot_Get b chatID in
  let lang := normalizeLang (Language settings) in
  (if bool_decide (lang = "") then langTG else lang, b).

(** [dict[key]] of [translations[lang]] when it is there and not blank. *)
Definition translated
    (translations : gmap string (gmap string string)) (lang key : string) : option string :=
  match translations !! lang with
  | Some dict =>
      match dict !! key with
      | Some text => if bool_decide (strings_TrimSpace text ≠ "") then Some text else None
      | None => None
      end
  | None => None
  end.

(** [tr], over the table [translations] of the program. *)
Definition tr `{GoLib}
    (translations : gmap string (gmap string string)) (lang key : string) : string :=
  let lang := normalizeLang lang in
  let lang := if bool_decide (lang = "") then langTG else lang in
  match translated translations lang key with
  | Some text => text
  | None =>
      match translated translations langTG key with
      | Some text => text
      | None => key
      end
  end.

Definition eventTitle `{GoLib}
    (translations : gmap string (gmap string string)) (lang : string) (ev : eventSpec)
    : string :=
  let title := strings_TrimSpace (Title ev) in
  if bool_decide (title ≠ "") then title
  else tr translations lang ("event_" +:+ Key ev).

(** The first value that is not blank, trimmed, of a [range] over a map
    that visits the values in the order given. *)
Definition first_nonblank (values : list string) : string :=
  default "" (List.find (λ v, negb (bool_decide (v = ""))) (strings_TrimSpace <$> values)).

(** [localizedNiyatText].  Go ranges over a map in an order of its own
    choosing: [order] lists the entries of [niyatByLang] as the final loop
    meets them.  A missing key reads as the empty string. *)
Definition localizedNiyatText `{GoLib}
    (niyatByLang : gmap string string) (order : list (string * string)) (lang : string)
    : string :=
  if bool_decide (size niyatByLang = 0%nat) then ""
  else
    let lang := normalizeLang lang in
    let lang := if bool_decide (lang = "") then langTG else lang in
    let text := strings_TrimSpace (default "" (niyatByLang !! lang)) in
    let text :=
      if bool_decide (text = "")
      then strings_TrimSpace (default "" (niyatByLang !! langTG)) else text in
    if bool_decide (text ≠ "") then text
    else first_nonblank (order.*2).

(** [randomHadithForLang].  [order] is the order of the [range] as above
    and [intn] the function [rand.Intn]; the result is [None] where the
    index expression would panic.  A missing key reads as the [nil]
    list. *)
Definition randomHadithForLang `{GoLib}
    (hadithsByLang : gmap string (list string)) (order : list (string * list string))
    (intn : nat → nat) (lang : string) : option string :=
  if bool_decide (size hadithsByLang = 0%nat) then Some ""
  else
    let lang := normalizeLang lang in
    let lang := if bool_decide (lang = "") then langTG else lang in
    let list := default [] (hadithsByLang !! lang) in
    let list :=
      if bool_decide (length list = 0%nat)
      then default [] (hadithsByLang !! langTG) else list in
    let list :=
      if bool_decide (length list = 0%nat)
      then default list (List.find (λ items, negb (bool_decide (length items = 0%nat))) (order.*2))
      else list in
    if bool_decide (length list = 0%nat) then Some ""
    else list !! intn (length list).

(** ** The scheduler and its loops *)

(** [reminderState]: the cancel function, named by the context it cancels,
    and the region. *)
Record reminderState : Type := mkReminderState {
  rs_cancel : nat;
  rs_region : string
}.

(** [ReminderManager], as far as [Start] and [Stop] go: the table
    [rm.active], the loops started so far (context, chat, region; contexts
    are numbered in the order they are made) and the contexts cancelled so
    far.  What a loop does with its context is the loop's own matter. *)
Record ReminderManager : Type := mkReminderManager {
  rm_active : gmap Z reminderState;
  rm_loops : list (nat * Z * string);
  rm_cancelled : gset nat
}.

Definition newReminderManager : ReminderManager :=
  {| rm_active := ∅; rm_loops := []; rm_cancelled := ∅ |}.

Definition Start (rm : ReminderManager) (chatID : Z) (region : string) : ReminderManager :=
  let cancelled :=
    match rm_active rm !! chatID with
    | Some existing => {[ rs_cancel existing ]} ∪ rm_cancelled rm
    | None => rm_cancelled rm
    end in
  let ctx := length (rm_loops rm) in
  {| rm_active := <[chatID := {| rs_cancel := ctx; rs_region := region |}]> (rm_active rm);
     rm_loops := rm_loops rm ++ [(ctx, chatID, region)];
     rm_cancelled := cancelled |}.

Definition Stop (rm : ReminderManager) (chatID : Z) : ReminderManager :=
  match rm_active rm !! chatID with
  | Some existing =>
      {| rm_active := delete chatID (rm_active rm);
         rm_loops := rm_loops rm;
         rm_cancelled := {[ rs_cancel existing ]} ∪ rm_cancelled rm |}
  | None => rm
  end.

(** A call the bot makes on its scheduler. *)
Inductive schedulerCall : Type :=
  | CallStart (chatID : Z) (region : string)
  | CallStop (chatID : Z).

Definition scheduler_step (rm : ReminderManager) (c : schedulerCall) : ReminderManager :=
  match c with
  | CallStart chatID region => Start rm chatID region
  | CallStop chatID => Stop rm chatID
  end.

(** The loop of [main] over the restored subscriptions: [Start] for each,
    in the order [order] in which Go ranges over the map. *)
Definition main_restore (order : list (Z * string)) : ReminderManager :=
  foldl (λ rm cr, Start rm cr.1 cr.2) newReminderManager order.

(** A loop that has been started and whose context has not been
    cancelled.  This says nothing about whether the goroutine still runs: a
    loop for a region without a calendar returns at once, and a loop reads
    its context only while it waits for the start and at the ticks of a
    day, not during the sleep of the out-of-range branch. *)
Definition uncancelled (rm : ReminderManager) (loop : nat * Z * string) : Prop :=
  loop ∈ rm_loops rm ∧ loop.1.1 ∉ rm_cancelled rm.

(** ** What the senders answer *)

(** The regions [regionKeyboard] offers, and the default region of
    [newBot]. *)
Definition regionKeyboard_regions : list string :=
  [ "Душанбе"; "Ашт"; "Айни"; "Кулоб"; "Рашт"; "Хамадони"; "Худжанд";
    "Истаравшан"; "Исфара"; "Конибодом"; "Хоруг"; "Мургоб"; "Ш. Шохин";
    "Муъминобод"; "Панчакент"; "Шахритус"; "Н. Хусрав"; "Турсунзода" ].

Definition defaultRegion : string := "Душанбе".

(** The callback data of a region button. *)
Definition region_button (r : string) : string := "region:" +:+ r.

(** The answer of [sendToday]: the prompt for a region, one of two
    notices, or the image of a day. *)
Inductive todayReply : Type :=
  | PromptRegion
  | CalendarNotFound
  | TodayOutOfRange
  | TodayImage (day : DayTimes).

Definition sendToday
    (calendars : gmap string (list DayTimes)) (settings : UserSettings)
    (start now : time_Time) : todayReply :=
  if bool_decide (Region settings = "") then PromptRegion
  else
    match calendars !! Region settings with
    | None => CalendarNotFound
    | Some cal =>
        if bool_decide (length cal = 0%nat) then CalendarNotFound
        else
          match currentDaySchedule cal start now with
          | None => TodayOutOfRange
          | Some day => TodayImage day
          end
    end.

(** The schedule [sendCalendar] draws: the chat's region, the default
    region when it has none; [None] is the notice that a region is
    needed. *)
Definition sendCalendar
    (calendars : gmap string (list DayTimes)) (settings : UserSettings)
    : option (string * list DayTimes) :=
  let region := Region settings in
  let region := if bool_decide (region = "") then defaultRegion else region in
  match calendars !! region with
  | Some schedule => Some (region, schedule)
  | None => None
  end.

(** The region and the day number [sendTestNotification] passes to
    [sendReminder]. *)
Definition sendTestNotification_day
    (calendars : gmap string (list DayTimes)) (settings : UserSettings)
    (start now : time_Time) : string * Z :=
  let region := strings_TrimSpace (Region settings) in
  let region := if bool_decide (region = "") then defaultRegion else region in
  let dayNumber :=
    match calendars !! region with
    | Some schedule =>
        match currentDaySchedule schedule start now with
        | Some day => if 0 <? Day day then Day day else 1
        | None => 1
        end
    | None => 1
    end in
  (region, dayNumber).

(** ** Predicates of the handlers *)

(** The scheduler's table agrees with the store: a chat has a loop exactly
    when its notifications are on, for the region stored. *)
Definition table_agrees (b : Bot) : Prop :=
  ∀ chatID,
    active b !! chatID =
    (users (state b) !! chatID) ≫=
      (λ settings, if Notifications settings then Some (Region settings) else None).

(** Every stored language is a supported code, or empty. *)
Definition languages_supported (s : StateStore) : Prop :=
  ∀ chatID settings,
    users s !! chatID = Some settings →
    Language settings ∈ [""; langTG; langRU; langEN; langUZ].

(** A byte in the printable ASCII range opens no white space rune and
    closes none: every rune of [ps] starts outside that range. *)
Definition outside_printable (ps : list (list ascii)) : bool :=
  forallb (λ p, match p with
                | [] => false
                | a :: _ => (nat_of_ascii a <=? 32)%nat || (128 <=? nat_of_ascii a)%nat
                end) ps.

(** What [Start] and [Stop] keep: contexts are numbered by their place in
    the list of loops, only contexts that exist are cancelled, an entry of
    the table names a loop of its chat that is not cancelled, and a loop
    that is not cancelled is the entry of its chat. *)
Definition scheduler_inv (rm : ReminderManager) : Prop :=
  (∀ i loop, rm_loops rm !! i = Some loop → loop.1.1 = i)
  ∧ (∀ ctx, ctx ∈ rm_cancelled rm → (ctx < length (rm_loops rm))%nat)
  ∧ (∀ chatID entry, rm_active rm !! chatID = Some entry →
       rm_loops rm !! rs_cancel entry = Some (rs_cancel entry, chatID, rs_region entry)
       ∧ rs_cancel entry ∉ rm_cancelled rm)
  ∧ (∀ ctx chatID region, (ctx, chatID, region) ∈ rm_loops rm →
       ctx ∉ rm_cancelled rm →
       rm_active rm !! chatID = Some {| rs_cancel := ctx; rs_region := region |}).

(** A printable ASCII byte, and the runes none of whose bytes is one. *)
Definition printable (a : ascii) : bool :=
  (33 <=? nat_of_ascii a)%nat && (nat_of_ascii a <? 128)%nat.

Definition no_printable (ps : list (list ascii)) : bool :=
  forallb (forallb (λ a, negb (printable a))) ps.

(** * Theorems *)

(** ** Machine integers *)

Lemma wrap64_small z : is_int64 z → wrap64 z = z.
Proof.
  unfold is_int64, int64_min, int64_max, wrap64. intros Hz.
  rewrite Z.mod_small by lia. lia.
Qed.

Lemma wrap64_range z : is_int64 (wrap64 z).
Proof.
  unfold is_int64, int64_min, int64_max, wrap64.
  pose proof (Z.mod_pos_bound (z + 2 ^ 63) (2 ^ 64)). lia.
Qed.

(** ** Trigger policy *)

Lemma sent_index_fired sent k : sent_index sent k = true ↔ fired sent k.
Proof.
  unfold sent_index, fired. destruct sent as [m|].
  - destruct (m !! k) as [[|]|] eqn:E; simpl; split; try congruence; eauto.
    + intros (m' & [= <-] & Hm). congruence.
    + intros (m' & [= <-] & Hm). congruence.
  - split; [congruence | intros (m & ? & _); congruence].
Qed.

Lemma loop_sent_true m k v : loop_sent m → m !! k = Some v → v = true.
Proof.
  induction 1 as [|m k' Hm IH]; intros Hk.
  - by rewrite lookup_empty in Hk.
  - unfold mark_sent in Hk. destruct (decide (k' = k)) as [->|Hne].
    + rewrite lookup_insert_eq in Hk. congruence.
    + rewrite lookup_insert_ne in Hk by done. auto.
Qed.

(** For the loop's maps the fired-set is the set of keys present. *)
Lemma loop_sent_fired_dom m k : loop_sent m → fired (Some m) k ↔ k ∈ dom m.
Proof.
  intros Hm. rewrite elem_of_dom. unfold fired. split.
  - intros (m' & [= <-] & Hk). eauto.
  - intros [v Hk]. exists m. split; [done|].
    by rewrite (loop_sent_true m k v Hm Hk) in Hk.
Qed.

Lemma shouldTriggerReminder_unfold now ev sent :
  shouldTriggerReminder now ev sent =
  negb (sent_index sent (Key ev)) && (remind_mark ev <=? now).
Proof.
  unfold shouldTriggerReminder, remind_mark, Time_Add, Time_Before.
  assert (Hcmp : negb (now <? Time ev + -30 * time_Minute)
                 = (Time ev - 30 * time_Minute <=? now)).
  { rewrite Z.leb_antisym. f_equal. }
  destruct sent as [m|]; cbn [sent_index].
  - rewrite bool_decide_eq_true_2 by done. cbn [andb].
    destruct (default false (m !! Key ev)); cbn [negb andb]; [done | exact Hcmp].
  - rewrite bool_decide_eq_false_2 by (intros H; by apply H).
    cbn [negb andb]. exact Hcmp.
Qed.

(** C1. [shouldTriggerReminder now ev sent] is true exactly when [now] is at
    or after [ev.Time] minus 30 minutes and [ev.Key] is not in the fired-set;
    with an empty fired-set it is false strictly before the 30-minute mark
    and true at the mark itself; it is false whenever the key is in the
    fired-set, whatever the time. *)
Theorem shouldTriggerReminder_iff :
  (∀ now ev sent,
      shouldTriggerReminder now ev sent = true ↔
      remind_mark ev ≤ now ∧ ¬ fired sent (Key ev))
  ∧ (∀ now ev, now < remind_mark ev → shouldTriggerReminder now ev (Some ∅) = false)
  ∧ (∀ ev, shouldTriggerReminder (remind_mark ev) ev (Some ∅) = true)
  ∧ (∀ now ev sent, fired sent (Key ev) → shouldTriggerReminder now ev sent = false).
Proof.
  split; [|split; [|split]].
  - intros now ev sent. rewrite shouldTriggerReminder_unfold.
    rewrite andb_true_iff, negb_true_iff, Z.leb_le, <- sent_index_fired.
    rewrite not_true_iff_false. tauto.
  - intros now ev Hlt. rewrite shouldTriggerReminder_unfold.
    apply andb_false_iff. right. apply Z.leb_gt. exact Hlt.
  - intros ev. rewrite shouldTriggerReminder_unfold. simpl.
    rewrite lookup_empty. simpl. apply Z.leb_le. lia.
  - intros now ev sent Hf. rewrite shouldTriggerReminder_unfold.
    apply sent_index_fired in Hf. by rewrite Hf.
Qed.

(** The cases of the repository's test: an event at 10:00 on 2026-02-19
    (UTC+5), asked at 09:29:59, at 09:30:00 and at 09:45:00 with nothing
    sent, and at 09:45:00 with ["fajr"] already sent. *)
Lemma shouldTriggerReminder_test_cases :
  let ev := {| Key := "fajr"; Title := ""; Time := 1771477200 * time_Second;
               IsNiyat := false; UseIftar := false; UseSuhoor := false |} in
  shouldTriggerReminder (1771475399 * time_Second) ev (Some ∅) = false
  ∧ shouldTriggerReminder (1771475400 * time_Second) ev (Some ∅) = true
  ∧ shouldTriggerReminder (1771476300 * time_Second) ev (Some ∅) = true
  ∧ shouldTriggerReminder (1771476300 * time_Second) ev (Some {[ "fajr" := true ]}) = false.
Proof.
  intros ev.
  destruct shouldTriggerReminder_iff as (Hiff & Hbefore & Hat & Hfired).
  split; [|split; [|split]].
  - apply Hbefore. vm_compute. reflexivity.
  - exact (Hat ev).
  - apply Hiff. split; [vm_compute; discriminate|].
    intros (m & [= <-] & Hm). by rewrite lookup_empty in Hm.
  - apply Hfired. exists {[ "fajr" := true ]}. split; [reflexivity|].
    apply lookup_singleton_eq.
Defined.

(** ** Event deriver *)

Lemma minutes_exact m :
  - max_minutes ≤ m ≤ max_minutes → minutes m = m * time_Minute.
Proof.
  intros Hm. unfold minutes, Duration_mul, int_mul. apply wrap64_small.
  unfold is_int64, int64_min, int64_max, max_minutes in *.
  change time_Minute with 60000000000. lia.
Qed.

(** A minutes-since-midnight value is far inside the representable range. *)
Lemma minutes_of_day_exact m : 0 ≤ m < 1440 → minutes m = m * time_Minute.
Proof. intros Hm. apply minutes_exact. unfold max_minutes. lia. Qed.

(** C2.  For every base timestamp and every day, [reminderEventsForDay]
    returns exactly six events, in the order suhoor, fajr, dhuhr, asr,
    maghrib, isha; the suhoor flag is on the first event only and the iftar
    flag on the fifth only; each timestamp is
    [base.Add(time.Duration(m) * time.Minute)] for the event's minute offset
    [m].  For every day schedule, that is, every day whose six offsets are
    minutes since midnight, within [[0, 1440)], each timestamp is the base
    plus the event's minute offset; this holds more generally for every day
    whose offsets are representable as a duration (at most 153722867
    minutes in absolute value). *)
Theorem reminderEventsForDay_six_events base day :
  let evs := reminderEventsForDay base day in
  length evs = 6%nat
  ∧ Key <$> evs = ["suhoor"; "fajr"; "dhuhr"; "asr"; "maghrib"; "isha"]
  ∧ UseSuhoor <$> evs = [true; false; false; false; false; false]
  ∧ UseIftar <$> evs = [false; false; false; false; true; false]
  ∧ Time <$> evs =
      [ Time_Add base (minutes (SuhoorEnd day)); Time_Add base (minutes (Fajr day));
        Time_Add base (minutes (Dhuhr day)); Time_Add base (minutes (Asr day));
        Time_Add base (minutes (Maghrib day)); Time_Add base (minutes (Isha day)) ]
  ∧ (minutes_representable day →
     Time <$> evs =
       [ base + SuhoorEnd day * time_Minute; base + Fajr day * time_Minute;
         base + Dhuhr day * time_Minute; base + Asr day * time_Minute;
         base + Maghrib day * time_Minute; base + Isha day * time_Minute ])
  ∧ (times_within 0 1439 day →
     Time <$> evs =
       [ base + SuhoorEnd day * time_Minute; base + Fajr day * time_Minute;
         base + Dhuhr day * time_Minute; base + Asr day * time_Minute;
         base + Maghrib day * time_Minute; base + Isha day * time_Minute ]).
Proof.
  cbv zeta. do 5 (split; [reflexivity|]).
  assert (Hexact : minutes_representable day →
     Time <$> reminderEventsForDay base day =
       [ base + SuhoorEnd day * time_Minute; base + Fajr day * time_Minute;
         base + Dhuhr day * time_Minute; base + Asr day * time_Minute;
         base + Maghrib day * time_Minute; base + Isha day * time_Minute ]).
  { unfold minutes_representable. intros Hrep.
    repeat match goal with H : Forall _ (_ :: _) |- _ => apply Forall_cons in H as [? H] end.
    cbn -[minutes time_Minute Z.mul Z.add]. unfold Time_Add.
    rewrite !minutes_exact by assumption. reflexivity. }
  split; [exact Hexact|].
  intros Hday. apply Hexact. unfold minutes_representable, times_within in *.
  eapply Forall_impl; [exact Hday|]. intros m Hm. cbn beta in Hm.
  unfold max_minutes. lia.
Qed.

Lemma reminderEventsForDay_six_events_witness :
  let day := {| Data := "19.02.2026"; Day := 1; SuhoorEnd := 341; Fajr := 341;
                Dhuhr := 761; Asr := 940; Maghrib := 1094; Isha := 1170 |} in
  let base := 1771441200 * time_Second in
  Time <$> reminderEventsForDay base day =
    [ base + 341 * time_Minute; base + 341 * time_Minute; base + 761 * time_Minute;
      base + 940 * time_Minute; base + 1094 * time_Minute; base + 1170 * time_Minute ].
Proof.
  intros day base.
  refine (proj2 (proj2 (proj2 (proj2 (proj2 (proj2
            (reminderEventsForDay_six_events base day)))))) _).
  unfold times_within, day. cbn.
  repeat constructor; lia.
Defined.

(** ** Day lookup *)

Lemma find_some_elem {A} (f : A → bool) (l : list A) (x : A) :
  List.find f l = Some x → x ∈ l ∧ f x = true.
Proof.
  intros H. apply List.find_some in H as [Hin Hf].
  split; [by apply list_elem_of_In | done].
Qed.





(** At the day boundaries of a cycle the floating-point day number is the
    exact one: [k] whole days after the start it is [k + 1], and a
    nanosecond earlier still [k]. *)
Lemma dayIndexAt_boundaries :
  forallb (λ k, (dayIndexAt 0 (k * (24 * time_Hour)) =? k + 1)
                && (dayIndexAt 0 (k * (24 * time_Hour) - 1) =? k))
          (Z.of_nat <$> seq 0 32) = true.
Proof. vm_compute. reflexivity. Qed.

(** ** Regional timetables *)

Lemma adjust_shift offset val :
  0 ≤ val + offset ≤ int64_max → adjust offset val = val + offset.
Proof.
  intros H. unfold adjust, int_add.
  rewrite wrap64_small by (unfold is_int64, int64_min; lia).
  destruct (val + offset <? 0) eqn:E; [apply Z.ltb_lt in E; lia | done].
Qed.

(** [applyOffset] is a plain shift as long as no time drops below zero. *)
Lemma applyOffset_shifted bd offset lo hi :
  times_within lo hi bd → 0 ≤ lo + offset → hi + offset ≤ int64_max →
  applyOffset bd offset = shifted bd offset.
Proof.
  unfold times_within. intros Hb Hlo Hhi.
  repeat match goal with H : Forall _ (_ :: _) |- _ => apply Forall_cons in H as [? H] end.
  unfold applyOffset, shifted. f_equal; apply adjust_shift; lia.
Qed.

Lemma baseDays_times :
  ∃ days, baseDays = Some days ∧ Forall (times_within 300 1200) days.
Proof.
  eexists. split; [vm_compute; reflexivity|].
  unfold times_within. repeat (apply Forall_cons; split); try apply Forall_nil;
    cbn; lia.
Qed.

Lemma offsets_table_bounds : Forall (λ ro, -20 ≤ ro.2 ≤ 5) offsets_table.
Proof. unfold offsets_table. repeat constructor; cbn; lia. Qed.

Lemma foldr_insert_lookup {A B} (f : A → B) (l : list (string * A)) (k : string) :
  foldr (λ '(r, a) (m : gmap string B), <[r := f a]> m) ∅ l !! k
  = f <$> (list_to_map l : gmap string A) !! k.
Proof.
  induction l as [|[r a] l IH]; cbn.
  - by rewrite !lookup_empty.
  - destruct (decide (r = k)) as [->|Hne].
    + by rewrite !lookup_insert_eq.
    + by rewrite !lookup_insert_ne.
Qed.

(** C7. For every region of the offsets table and every day of the base
    timetable, the region's calendar entry at that position is the base
    entry with the region's offset added to each of the six times, the date
    string and the day number unchanged. *)
Theorem buildCalendars_uniform_shift :
  ∃ days calendars,
    baseDays = Some days ∧ buildCalendars = Some calendars ∧
    ∀ region offset, offsets !! region = Some offset →
      ∃ rdays, calendars !! region = Some rdays ∧
        length rdays = length days ∧
        ∀ i bd, days !! i = Some bd →
          rdays !! i =
            Some {| Data := Data bd; Day := Day bd;
                    SuhoorEnd := SuhoorEnd bd + offset; Fajr := Fajr bd + offset;
                    Dhuhr := Dhuhr bd + offset; Asr := Asr bd + offset;
                    Maghrib := Maghrib bd + offset; Isha := Isha bd + offset |}.
Proof.
  destruct baseDays_times as (days & Hdays & Htimes).
  exists days. eexists. split; [exact Hdays|]. split.
  { unfold buildCalendars. rewrite Hdays. reflexivity. }
  intros region offset Hoff.
  exists ((λ bd, applyOffset bd offset) <$> days).
  split; [|split].
  - rewrite (foldr_insert_lookup (λ offset, (λ bd, applyOffset bd offset) <$> days)).
    fold offsets. by rewrite Hoff.
  - by rewrite length_fmap.
  - intros i bd Hbd. rewrite list_lookup_fmap, Hbd. cbn. f_equal.
    assert (Hrange : -20 ≤ offset ≤ 5).
    { unfold offsets in Hoff. apply elem_of_list_to_map_2 in Hoff.
      pose proof offsets_table_bounds as Hall.
      rewrite Forall_forall in Hall. exact (Hall _ Hoff). }
    pose proof (proj1 (Forall_lookup _ _) Htimes i bd Hbd) as Hwithin.
    rewrite (applyOffset_shifted bd offset 300 1200);
      [reflexivity | exact Hwithin | lia | unfold int64_max; lia].
Qed.

(** The clamp of [applyOffset] at zero is what keeps the shift from being
    uniform in general: a time earlier than the offset is large stays at
    midnight. *)
Lemma applyOffset_clamps :
  Fajr (applyOffset {| Data := ""; Day := 1; SuhoorEnd := 5; Fajr := 5; Dhuhr := 700;
                       Asr := 900; Maghrib := 1000; Isha := 1100 |} (-20)) = 0.
Proof. reflexivity. Qed.

(** The check of the repository's test on the built calendars: day 1 of the
    region with offset -6 against day 1 of the base region. *)
Lemma buildCalendars_asht_day1 :
  (calendars ← buildCalendars;
   dushanbe ← calendars !! "Душанбе";
   asht ← calendars !! "Ашт";
   d1 ← List.find (λ d, Day d =? 1) dushanbe;
   a1 ← List.find (λ d, Day d =? 1) asht;
   Some ((Fajr a1 =? Fajr d1 - 6) && (Maghrib a1 =? Maghrib d1 - 6))) = Some true.
Proof. vm_compute. reflexivity. Qed.

(** ** Image cache *)

Lemma counting_eq {B} (build : builder B) b n :
  counting build (b, n) = ((build b).1, ((build b).2, S n)).
Proof. unfold counting. by destruct (build b) as [r b']. Qed.

Lemma getOrBuild_bypass_eq {B} c key ttl (build : builder B) clk b :
  ttl ≤ 0 → getOrBuild c key ttl build clk b = ((build b).1, c, (build b).2).
Proof.
  intros Httl. unfold getOrBuild. destruct c as [items|].
  - rewrite (proj2 (Z.leb_le ttl 0) Httl). by destruct (build b).
  - by destruct (build b).
Qed.

(** C8. With [ttl <= 0], [getOrBuild] bypasses the cache: each call runs the
    builder once and returns its result, error included, as it is; the
    entry map comes back unchanged, and the outcome does not depend on what
    the map holds. *)
Theorem getOrBuild_bypass {B} c key ttl (build : builder B) clk b n :
  ttl ≤ 0 →
  (getOrBuild c key ttl build clk b).1.1 = (build b).1
  ∧ (getOrBuild c key ttl build clk b).2 = (build b).2
  ∧ (getOrBuild c key ttl build clk b).1.2 = c
  ∧ (getOrBuild c key ttl (counting build) clk (b, n)).2.2 = S n
  ∧ ∀ c' clk', (getOrBuild c' key ttl build clk' b).1.1
               = (getOrBuild c key ttl build clk b).1.1.
Proof.
  intros Httl. rewrite !getOrBuild_bypass_eq by done.
  rewrite counting_eq. repeat split; try reflexivity.
  intros c' clk'. by rewrite getOrBuild_bypass_eq.
Qed.

Lemma getOrBuild_bypass_witness :
  let fresh := {| data := [x01]; expiresAt := 100 |} in
  let build : builder unit := λ _, (([x02], None), tt) in
  (getOrBuild (Some {["k" := fresh]}) "k" 0 build (at_instant 0) tt).1.1
    = ([x02], None)
  ∧ (getOrBuild (Some {["k" := fresh]}) "k" 0 build (at_instant 0) tt).1.2
    = Some {["k" := fresh]}.
Proof.
  intros fresh build.
  pose proof (getOrBuild_bypass (Some {["k" := fresh]}) "k" 0 build (at_instant 0) tt 0%nat)
    as H.
  destruct H as (H1 & _ & H3 & _); [lia|]. split; [exact H1 | exact H3].
Defined.



Lemma getOrBuild_miss {B} items key ttl (build : builder B) clk b :
  0 < ttl →
  (∀ cached, items !! key = Some cached → expiresAt cached ≤ now_lookup clk) →
  getOrBuild (Some items) key ttl build clk b = buildAndStore items key ttl build clk b.
Proof.
  intros Httl Hmiss. unfold getOrBuild.
  rewrite (proj2 (Z.leb_gt ttl 0) Httl).
  destruct (items !! key) as [cached|] eqn:E; [|done].
  unfold Time_Before. rewrite (proj2 (Z.ltb_ge _ _) (Hmiss cached eq_refl)). done.
Qed.

Lemma getOrBuild_hit {B} items key ttl (build : builder B) clk b cached :
  0 < ttl → items !! key = Some cached → now_lookup clk < expiresAt cached →
  getOrBuild (Some items) key ttl build clk b = ((data cached, None), Some items, b).
Proof.
  intros Httl Hk Hfresh. unfold getOrBuild.
  rewrite (proj2 (Z.leb_gt ttl 0) Httl), Hk.
  unfold Time_Before. by rewrite (proj2 (Z.ltb_lt _ _) Hfresh).
Qed.

Lemma buildAndStore_runs_builder {B} items key ttl (build : builder B) clk b n :
  (buildAndStore items key ttl (counting build) clk (b, n)).2.2 = S n.
Proof.
  unfold buildAndStore. rewrite counting_eq.
  destruct (build b) as [[bytes [e|]] b']; reflexivity.
Qed.




(** ** Package [strconv] *)

Lemma string_of_uint_head_digit p c s :
  NilEmpty.string_of_uint (Pos.to_uint p) = String c s →
  Ascii.eqb c "+" = false ∧ Ascii.eqb c "-" = false.
Proof.
  pose proof (DecimalPos.Unsigned.to_uint_nonnil p) as Hnn.
  destruct (Pos.to_uint p); cbn; try congruence; intros [= <- _]; split; reflexivity.
Qed.

Lemma uint_of_string_to_uint p :
  NilZero.uint_of_string (NilEmpty.string_of_uint (Pos.to_uint p)) = Some (Pos.to_uint p).
Proof.
  pose proof (DecimalPos.Unsigned.to_uint_nonnil p) as Hnn.
  rewrite <- (NilZero.usu _ Hnn). f_equal.
  by destruct (Pos.to_uint p).
Qed.

Lemma of_uint_to_uint p : Z.of_uint (Pos.to_uint p) = Z.pos p.
Proof. unfold Z.of_uint. by rewrite DecimalPos.Unsigned.of_to. Qed.

(** A chat id written by [FormatInt] is read back by [ParseInt]. *)
Lemma ParseInt_FormatInt (i : Z) :
  is_int64 i → strconv_ParseInt (strconv_FormatInt i) = Some i.
Proof.
  unfold is_int64, int64_min, int64_max, strconv_FormatInt. intros Hi.
  destruct i as [|p|p]; [reflexivity| |].
  - cbn [Z.to_int NilZero.string_of_int]. unfold NilZero.string_of_uint.
    pose proof (DecimalPos.Unsigned.to_uint_nonnil p) as Hnn.
    destruct (Pos.to_uint p) eqn:Ep; try congruence; rewrite <- Ep;
      (destruct (NilEmpty.string_of_uint (Pos.to_uint p)) as [|c s] eqn:Es;
       [ rewrite Ep in Es; discriminate | ]);
      destruct (string_of_uint_head_digit p c s Es) as [Hplus Hminus];
      unfold strconv_ParseInt; rewrite Hplus, Hminus, <- Es, uint_of_string_to_uint,
        of_uint_to_uint; cbn [negb andb];
      rewrite (proj2 (Z.leb_gt (2 ^ 63) (Z.pos p))) by lia; reflexivity.
  - cbn [Z.to_int NilZero.string_of_int]. unfold NilZero.string_of_uint.
    pose proof (DecimalPos.Unsigned.to_uint_nonnil p) as Hnn.
    assert (Hs : (match Pos.to_uint p with
                  | Nil => "0"%string
                  | _ => NilEmpty.string_of_uint (Pos.to_uint p)
                  end) = NilEmpty.string_of_uint (Pos.to_uint p)).
    { by destruct (Pos.to_uint p). }
    rewrite Hs. unfold strconv_ParseInt. cbn [Ascii.eqb Bool.eqb].
    rewrite uint_of_string_to_uint, of_uint_to_uint. cbn [negb andb].
    rewrite (proj2 (Z.ltb_ge (2 ^ 63) (Z.pos p))) by lia. reflexivity.
Qed.

#[global] Instance FormatInt_inj : Inj (=) (=) strconv_FormatInt.
Proof.
  intros i j Hij. unfold strconv_FormatInt in Hij.
  assert (Hint : Z.to_int i = Z.to_int j).
  { assert (Hnn : ∀ z, Z.to_int z ≠ Pos Nil ∧ Z.to_int z ≠ Neg Nil).
    { intros [|p|p]; cbn; split; try discriminate;
        intros [= H]; by apply (DecimalPos.Unsigned.to_uint_nonnil p). }
    pose proof (NilZero.isi (Z.to_int i) (proj1 (Hnn i)) (proj2 (Hnn i))) as Hi.
    pose proof (NilZero.isi (Z.to_int j) (proj1 (Hnn j)) (proj2 (Hnn j))) as Hj.
    rewrite Hij in Hi. congruence. }
  by rewrite <- (DecimalZ.of_to i), <- (DecimalZ.of_to j), Hint.
Qed.

(** ** Persistence *)

Lemma keys_parse_apart_insert i x (m : gmap string UserSettings) :
  keys_parse_apart (<[i := x]> m) → m !! i = None → keys_parse_apart m.
Proof.
  intros Hap Hi k1 k2 id [y1 H1] [y2 H2]. apply Hap.
  - exists y1. rewrite lookup_insert_ne; [done | congruence].
  - exists y2. rewrite lookup_insert_ne; [done | congruence].
Qed.

(** What [loadFromDisk] leaves in the store: a chat id read from a key of
    the file gets the file's settings; every other id keeps what the store
    had. *)
Lemma loadUsers_lookup data into :
  keys_parse_apart data →
  ∀ id x,
    loadUsers data into !! id = Some x ↔
    (∃ key, data !! key = Some x ∧ strconv_ParseInt key = Some id)
    ∨ ((∀ key, is_Some (data !! key) → strconv_ParseInt key ≠ Some id)
       ∧ into !! id = Some x).
Proof.
  unfold loadUsers.
  apply (map_fold_weak_ind
    (λ r m, keys_parse_apart m → ∀ id x,
       r !! id = Some x ↔
       (∃ key, m !! key = Some x ∧ strconv_ParseInt key = Some id)
       ∨ ((∀ key, is_Some (m !! key) → strconv_ParseInt key ≠ Some id)
          ∧ into !! id = Some x))).
  - intros _ id x. split.
    + intros H. right. split; [|done]. intros key [y Hy]. by rewrite lookup_empty in Hy.
    + intros [(key & Hk & _) | [_ H]]; [by rewrite lookup_empty in Hk | done].
  - intros i x0 m r Hi IH Hap id x.
    specialize (IH (keys_parse_apart_insert i x0 m Hap Hi) id x).
    destruct (strconv_ParseInt i) as [j|] eqn:Ej.
    + destruct (decide (j = id)) as [->|Hne].
      * rewrite lookup_insert_eq. split.
        -- intros [= <-]. left. exists i. by rewrite lookup_insert_eq.
        -- intros [(key & Hk & Hp) | [Hnone _]].
           ++ assert (key = i) as ->.
              { apply (Hap key i id); [by eexists | | done | done].
                rewrite lookup_insert_eq. by eexists. }
              rewrite lookup_insert_eq in Hk. congruence.
           ++ exfalso. apply (Hnone i); [|done]. rewrite lookup_insert_eq. by eexists.
      * rewrite lookup_insert_ne by done. rewrite IH. split.
        -- intros [(key & Hk & Hp) | [Hnone Hinto]].
           ++ left. exists key. split; [|done].
              rewrite lookup_insert_ne; [done | congruence].
           ++ right. split; [|done]. intros key [y Hy].
              destruct (decide (i = key)) as [<-|Hik]; [congruence|].
              rewrite lookup_insert_ne in Hy by done. apply Hnone. by eexists.
        -- intros [(key & Hk & Hp) | [Hnone Hinto]].
           ++ left. exists key. split; [|done].
              destruct (decide (i = key)) as [<-|Hik]; [congruence|].
              by rewrite lookup_insert_ne in Hk.
           ++ right. split; [|done]. intros key [y Hy]. apply Hnone.
              exists y. rewrite lookup_insert_ne; [done | congruence].
    + rewrite IH. split.
      * intros [(key & Hk & Hp) | [Hnone Hinto]].
        -- left. exists key. split; [|done].
           rewrite lookup_insert_ne; [done | congruence].
        -- right. split; [|done]. intros key [y Hy].
           destruct (decide (i = key)) as [<-|Hik]; [congruence|].
           rewrite lookup_insert_ne in Hy by done. apply Hnone. by eexists.
      * intros [(key & Hk & Hp) | [Hnone Hinto]].
        -- left. exists key. split; [|done].
           destruct (decide (i = key)) as [<-|Hik]; [congruence|].
           by rewrite lookup_insert_ne in Hk.
        -- right. split; [|done]. intros key [y Hy]. apply Hnone.
           exists y. rewrite lookup_insert_ne; [done | congruence].
Qed.

(** Loading what [snapshotLocked] made of a store into an empty store gives
    the store's records back. *)
Lemma loadUsers_snapshot (us : gmap Z UserSettings) :
  chat_ids_int64 us →
  loadUsers (kmap strconv_FormatInt us) ∅ = us.
Proof.
  intros Hids. apply map_eq. intros id. apply option_eq. intros x.
  rewrite loadUsers_lookup.
  - split.
    + intros [(key & Hk & Hp) | [_ H]]; [|by rewrite lookup_empty in H].
      apply lookup_kmap_Some in Hk as (i & -> & Hi); [|apply _].
      rewrite (ParseInt_FormatInt i (Hids i x Hi)) in Hp. congruence.
    + intros Hx. left. exists (strconv_FormatInt id). split.
      * apply lookup_kmap_Some; [apply _|]. eauto.
      * apply ParseInt_FormatInt. exact (Hids id x Hx).
  - intros k1 k2 id' [y1 H1] [y2 H2] Hp1 Hp2.
    apply lookup_kmap_Some in H1 as (i1 & -> & Hi1); [|apply _].
    apply lookup_kmap_Some in H2 as (i2 & -> & Hi2); [|apply _].
    rewrite (ParseInt_FormatInt i1 (Hids i1 y1 Hi1)) in Hp1.
    rewrite (ParseInt_FormatInt i2 (Hids i2 y2 Hi2)) in Hp2. congruence.
Qed.

(** ** [strings.TrimSpace] is idempotent *)

Lemma strip_prefix_Some p l l' : strip_prefix p l = Some l' ↔ l = p ++ l'.
Proof.
  revert l. induction p as [|a p IH]; intros l; cbn.
  - split; [by intros [= ->] | by intros ->].
  - destruct l as [|b l]; [split; discriminate|].
    destruct (Ascii.eqb_spec a b) as [->|Hne].
    + rewrite IH. split; [by intros -> | by intros [= ->]].
    + split; [discriminate | intros [= -> _]; done].
Qed.

Lemma strip_any_Some ps l l' :
  strip_any ps l = Some l' → ∃ p, p ∈ ps ∧ l = p ++ l'.
Proof.
  induction ps as [|p ps IH]; cbn; [discriminate|].
  destruct (strip_prefix p l) as [r|] eqn:E.
  - intros [= <-]. exists p. split; [left | by apply strip_prefix_Some].
  - intros H. destruct (IH H) as (q & Hq & Hl). exists q. split; [by right | done].
Qed.

Lemma strip_any_None ps l p r :
  strip_any ps l = None → p ∈ ps → l ≠ p ++ r.
Proof.
  induction ps as [|q ps IH]; cbn; [by intros _ ?%elem_of_nil|].
  destruct (strip_prefix q l) as [r'|] eqn:E; [discriminate|].
  intros Hnone [->|Hp]%elem_of_cons Hl.
  - apply strip_prefix_Some in Hl. congruence.
  - by apply (IH Hnone Hp).
Qed.

Lemma trim_front_fixed n ps l : strip_any ps l = None → trim_front n ps l = l.
Proof. intros H. destruct n; cbn; [done | by rewrite H]. Qed.

(** With patterns that are not empty and fuel for every byte, nothing that
    could be stripped is left at the front, and what is left is a suffix. *)
Lemma trim_front_done n ps l :
  Forall (λ p, p ≠ []) ps → (length l ≤ n)%nat →
  strip_any ps (trim_front n ps l) = None ∧ ∃ cut, l = cut ++ trim_front n ps l.
Proof.
  intros Hne. revert l. induction n as [|n IH]; intros l Hlen.
  - destruct l; [|cbn in Hlen; lia]. cbn. split; [|by exists []].
    destruct (strip_any ps []) as [l'|] eqn:E; [|done].
    apply strip_any_Some in E as (p & Hp & Hl).
    rewrite Forall_forall in Hne. specialize (Hne p Hp).
    destruct p; [done | discriminate].
  - cbn. destruct (strip_any ps l) as [l'|] eqn:E.
    + pose proof E as E'. apply strip_any_Some in E' as (p & Hp & ->).
      rewrite Forall_forall in Hne. pose proof (Hne p Hp) as Hpne.
      destruct (IH l') as [Hnone [cut Hcut]].
      { rewrite length_app in Hlen. destruct p; [done | cbn in Hlen; lia]. }
      split; [done|]. exists (p ++ cut). by rewrite <- app_assoc, <- Hcut.
    + split; [done | by exists []].
Qed.

Lemma strings_TrimSpace_list s :
  strings_TrimSpace s = string_of_list_ascii (trim_list (list_ascii_of_string s)).
Proof. reflexivity. Qed.

Lemma space_runes_nonempty : Forall (λ p : list ascii, p ≠ []) space_runes.
Proof. unfold space_runes. repeat constructor; discriminate. Qed.

Lemma rev_runes_nonempty : Forall (λ p : list ascii, p ≠ []) (@rev ascii <$> space_runes).
Proof. unfold space_runes. repeat constructor; discriminate. Qed.

Lemma trim_list_idem l : trim_list (trim_list l) = trim_list l.
Proof.
  unfold trim_list at 2.
  set (t := trim_front (length l) space_runes l).
  set (r := trim_front (length t) (@rev ascii <$> space_runes) (rev t)).
  destruct (trim_front_done (length l) space_runes l space_runes_nonempty (le_n _))
    as [Ht _]. fold t in Ht.
  destruct (trim_front_done (length t) (@rev ascii <$> space_runes) (rev t)
              rev_runes_nonempty) as [Hr [cut Hcut]].
  { by rewrite length_rev. }
  fold r in Hr, Hcut.
  assert (Hfront : strip_any space_runes (rev r) = None).
  { destruct (strip_any space_runes (rev r)) as [rest|] eqn:E; [|done].
    apply strip_any_Some in E as (p & Hp & Hrev). exfalso.
    apply (strip_any_None space_runes t p (rest ++ rev cut) Ht Hp).
    rewrite <- (rev_involutive t), Hcut, rev_app_distr, Hrev. by rewrite <- app_assoc. }
  unfold trim_list. rewrite (trim_front_fixed _ _ (rev r) Hfront).
  rewrite rev_involutive. by rewrite (trim_front_fixed _ _ r Hr).
Qed.

Lemma strings_TrimSpace_idem s :
  strings_TrimSpace (strings_TrimSpace s) = strings_TrimSpace s.
Proof.
  rewrite !strings_TrimSpace_list, list_ascii_of_string_of_list_ascii.
  by rewrite trim_list_idem.
Qed.

(** ** Writing and loading the snapshot *)

Lemma writeStateSnapshot_written `{GoLib} path snapshot (d d' : gmap string node) :
  strings_TrimSpace path ≠ "" →
  writeStateSnapshot path snapshot d = (d', None) →
  ∃ raw, json_MarshalIndent {| Users := snapshot |} = Ok raw
         ∧ d' !! strings_TrimSpace path = Some (File raw).
Proof.
  intros Hpath. unfold writeStateSnapshot.
  rewrite bool_decide_eq_false_2 by done.
  destruct (json_MarshalIndent _) as [raw|e]; [|discriminate].
  intros Hw. exists raw. split; [done|].
  destruct (if bool_decide (filepath_Dir (strings_TrimSpace path) ≠ ".")
               && bool_decide (filepath_Dir (strings_TrimSpace path) ≠ "")
            then os_MkdirAll d (filepath_Dir (strings_TrimSpace path))
            else (d, None)) as [d1 [e|]]; [discriminate|].
  unfold os_WriteFile in Hw.
  destruct (d1 !! (strings_TrimSpace path +:+ ".tmp")) as [[c|]|] eqn:Etmp;
    try discriminate;
    unfold os_Rename in Hw; rewrite lookup_insert_eq in Hw;
    (destruct (<[_ := _]> d1 !! strings_TrimSpace path) as [[c'|]|];
     try discriminate; injection Hw as <-; apply lookup_insert_eq).
Qed.

Lemma ActiveNotificationRegions_lookup s chatID region :
  ActiveNotificationRegions s !! chatID = Some region ↔
  ∃ settings, users s !! chatID = Some settings
    ∧ Notifications settings = true
    ∧ region = strings_TrimSpace (Region settings)
    ∧ region ≠ "".
Proof.
  unfold ActiveNotificationRegions. rewrite lookup_omap_Some. split.
  - intros (settings & Hf & Hs). exists settings. split; [done|].
    destruct (Notifications settings); cbn in Hf; [|discriminate].
    case_bool_decide; [discriminate|]. injection Hf as <-. done.
  - intros (settings & Hs & Hn & -> & Hne). exists settings. split; [|done].
    rewrite Hn. cbn. by rewrite bool_decide_eq_false_2.
Qed.

Lemma loadFromDisk_after_write `{GoLib} (s : StateStore) (d d' : gmap string node) :
  chat_ids_int64 (users s) →
  strings_TrimSpace (persistPath s) ≠ "" →
  json_round_trips {| Users := snapshotLocked s |} →
  writeStateSnapshot (persistPath s) (snapshotLocked s) d = (d', None) →
  loadFromDisk {| users := ∅; persistPath := persistPath s |} d' = (s, None).
Proof.
  intros Hids Hpath Hcodec Hwrite.
  destruct (writeStateSnapshot_written _ _ _ _ Hpath Hwrite) as (raw & Hraw & Hfile).
  destruct (Hcodec raw Hraw) as [Hread Hblank].
  unfold loadFromDisk. cbn [persistPath users].
  rewrite bool_decide_eq_false_2 by done.
  unfold os_ReadFile. rewrite Hfile.
  rewrite bool_decide_eq_false_2 by done. rewrite Hread. cbn [Users].
  unfold snapshotLocked. rewrite (loadUsers_snapshot _ Hids). by destruct s.
Qed.

(** C5. Take a store whose chat ids are [int64]s and whose path is not
    blank, and suppose the write of its snapshot succeeds and the JSON codec
    round-trips that snapshot.  Loading the written file into an empty store
    gives the same subscriber map: the same chat ids with equal language,
    region, notifications and region-selected fields, empty regions
    included.  [ActiveNotificationRegions] of the loaded store then holds
    exactly the chats whose notifications flag is true and whose region,
    white space trimmed, is not empty, each with its trimmed region. *)
Theorem snapshot_round_trip `{GoLib} (s : StateStore) (d d' : gmap string node) :
  chat_ids_int64 (users s) →
  strings_TrimSpace (persistPath s) ≠ "" →
  json_round_trips {| Users := snapshotLocked s |} →
  writeStateSnapshot (persistPath s) (snapshotLocked s) d = (d', None) →
  let loaded := (loadFromDisk {| users := ∅; persistPath := persistPath s |} d').1 in
  loadFromDisk {| users := ∅; persistPath := persistPath s |} d' = (s, None)
  ∧ users loaded = users s
  ∧ ∀ chatID region,
      ActiveNotificationRegions loaded !! chatID = Some region ↔
      ∃ settings, users s !! chatID = Some settings
        ∧ Notifications settings = true
        ∧ region = strings_TrimSpace (Region settings)
        ∧ region ≠ "".
Proof.
  intros Hids Hpath Hcodec Hwrite loaded. unfold loaded.
  rewrite (loadFromDisk_after_write s d d' Hids Hpath Hcodec Hwrite). cbn [fst].
  split; [done|]. split; [done|]. apply ActiveNotificationRegions_lookup.
Qed.

Lemma snapshot_round_trip_witness :
  let s := {| users := sample_users; persistPath := "state.json" |} in
  let d' := (@writeStateSnapshot sample_lib "state.json" (snapshotLocked s) ∅).1 in
  @loadFromDisk sample_lib {| users := ∅; persistPath := "state.json" |} d' = (s, None)
  ∧ ActiveNotificationRegions s !! 42 = Some "Душанбе"
  ∧ ActiveNotificationRegions s !! 7 = None.
Proof.
  intros s d'.
  pose proof (@snapshot_round_trip sample_lib s ∅ d') as H.
  destruct H as (Hload & _ & _).
  - unfold chat_ids_int64. apply (bool_decide_unpack _). vm_compute. exact I.
  - vm_compute. discriminate.
  - intros raw Hraw. vm_compute in Hraw. injection Hraw as <-.
    split; [vm_compute; reflexivity | vm_compute; discriminate].
  - vm_compute. reflexivity.
  - split; [exact Hload|]. split; vm_compute; reflexivity.
Defined.

(** ** Startup *)

(** C9. Creating the store at startup: when the state file is absent, or
    present with nothing but white space in it, the store starts without
    records and without an error; when the file is present and
    [json.Unmarshal] refuses its contents, [newStateStore] returns that
    error, and [main] exits fatally. *)
Theorem newStateStore_startup `{GoLib} path (d : gmap string node) :
  let file := strings_TrimSpace path in
  let empty := {| users := ∅; persistPath := file |} in
  (d !! file = None → newStateStore path d = Ok empty)
  ∧ (∀ raw, d !! file = Some (File raw) → strings_TrimSpace raw = "" →
       newStateStore path d = Ok empty)
  ∧ (∀ raw e, file ≠ "" → d !! file = Some (File raw) →
       strings_TrimSpace raw ≠ "" → json_Unmarshal raw = Err e →
       newStateStore path d = Err e)
  ∧ (∀ e, file ≠ "" → newStateStore path d = Err e →
       main_startup path d = Fatal ("failed to initialize state store: " +:+ e)).
Proof.
  intros file empty.
  assert (Hidem : strings_TrimSpace file = file) by apply strings_TrimSpace_idem.
  assert (Hunfold : newStateStore path d =
            match loadFromDisk empty d with
            | (_, Some err) => Err err
            | (store, None) => Ok store
            end) by reflexivity.
  assert (Hload : loadFromDisk empty d =
            if bool_decide (file = "") then (empty, None)
            else match os_ReadFile d file with
                 | Err e => if os_IsNotExist e then (empty, None) else (empty, Some e)
                 | Ok raw =>
                     if bool_decide (strings_TrimSpace raw = "") then (empty, None)
                     else match json_Unmarshal raw with
                          | Err e => (empty, Some e)
                          | Ok data =>
                              ({| users := loadUsers (Users data) ∅;
                                  persistPath := file |}, None)
                          end
                 end).
  { unfold loadFromDisk, empty. cbn [persistPath users]. by rewrite Hidem. }
  rewrite Hunfold, Hload.
  split; [|split; [|split]].
  - intros Habs. case_bool_decide; [done|].
    unfold os_ReadFile. by rewrite Habs.
  - intros raw Hfile Hblank. case_bool_decide; [done|].
    unfold os_ReadFile. rewrite Hfile. by rewrite bool_decide_eq_true_2.
  - intros raw e Hne Hfile Hblank Hbad. rewrite bool_decide_eq_false_2 by done.
    unfold os_ReadFile. rewrite Hfile. rewrite bool_decide_eq_false_2 by done.
    by rewrite Hbad.
  - intros e Hne Hnew. unfold main_startup. fold file.
    rewrite bool_decide_eq_false_2 by done.
    assert (Hsame : newStateStore file d = newStateStore path d).
    { unfold newStateStore. by rewrite Hidem. }
    by rewrite Hsame, Hunfold, Hload, Hnew.
Qed.

Lemma newStateStore_startup_witness :
  let empty := {| users := ∅; persistPath := "state.json" |} in
  @newStateStore sample_lib "state.json" ∅ = Ok empty
  ∧ @newStateStore sample_lib "state.json"
      {[ "state.json" := File (String (ascii_of_nat 10) "  ") ]} = Ok empty
  ∧ @newStateStore sample_lib "state.json" {[ "state.json" := File "{'users': " ]}
    = Err "invalid character"
  ∧ @main_startup sample_lib "state.json" {[ "state.json" := File "{'users': " ]}
    = Fatal "failed to initialize state store: invalid character".
Proof.
  intros empty.
  destruct (@newStateStore_startup sample_lib "state.json" ∅) as (Habsent & _).
  destruct (@newStateStore_startup sample_lib "state.json"
              {[ "state.json" := File (String (ascii_of_nat 10) "  ") ]})
    as (_ & Hblank & _).
  destruct (@newStateStore_startup sample_lib "state.json"
              {[ "state.json" := File "{'users': " ]})
    as (_ & _ & Hbad & Hfatal).
  assert (Herr : @newStateStore sample_lib "state.json"
                   {[ "state.json" := File "{'users': " ]} = Err "invalid character").
  { apply (Hbad "{'users': "); [discriminate | reflexivity | discriminate | reflexivity]. }
  split; [exact (Habsent eq_refl)|].
  split; [exact (Hblank _ eq_refl eq_refl)|].
  split; [exact Herr|].
  apply Hfatal; [discriminate | exact Herr].
Defined.

(** The file is read back by the next start: a store that has written its
    snapshot is what [newStateStore] returns for the same path. *)
Lemma newStateStore_after_write `{GoLib} (s : StateStore) (d d' : gmap string node) :
  chat_ids_int64 (users s) →
  strings_TrimSpace (persistPath s) ≠ "" →
  json_round_trips {| Users := snapshotLocked s |} →
  writeStateSnapshot (persistPath s) (snapshotLocked s) d = (d', None) →
  newStateStore (persistPath s) d'
  = Ok {| users := users s; persistPath := strings_TrimSpace (persistPath s) |}.
Proof.
  intros Hids Hpath Hcodec Hwrite.
  set (s1 := {| users := users s; persistPath := strings_TrimSpace (persistPath s) |}).
  assert (Hw : writeStateSnapshot (persistPath s1) (snapshotLocked s1) d = (d', None)).
  { unfold writeStateSnapshot in *. cbn [persistPath s1].
    rewrite strings_TrimSpace_idem. exact Hwrite. }
  pose proof (loadFromDisk_after_write s1 d d' Hids) as Hrt.
  cbn [persistPath s1] in Hrt. rewrite strings_TrimSpace_idem in Hrt.
  unfold newStateStore. by rewrite (Hrt Hpath Hcodec Hw).
Qed.

(** ** The setters *)

Lemma update_and_persist_users `{GoLib} f s d chatID :
  users (update_and_persist f s d chatID).1
  = <[chatID := f (default UserSettings_zero (users s !! chatID))]> (users s).
Proof. reflexivity. Qed.

(** C10. [SetRegion(chatID, region)], for any chat id and any region string,
    the empty one included: the chat's record gets the region, its
    notifications flag and its region-selected flag become true, its
    language stays what it was (the empty string for a chat without a
    record), and every other chat's record is unchanged. *)
Theorem SetRegion_sets_flags `{GoLib} s (d : gmap string node) chatID region :
  let s' := (SetRegion s d chatID region).1 in
  users s' !! chatID =
    Some {| Language := Language (default UserSettings_zero (users s !! chatID));
            Region := region; Notifications := true; RegionSelected := true |}
  ∧ (∀ other, other ≠ chatID → users s' !! other = users s !! other)
  ∧ persistPath s' = persistPath s.
Proof.
  intros s'. unfold s', SetRegion. rewrite update_and_persist_users.
  split; [apply lookup_insert_eq|]. split; [|reflexivity].
  intros other Hne. by rewrite lookup_insert_ne.
Qed.

(** ** The invariant and the handlers *)

Lemma strip_prefix_nil p l : strip_prefix p l = Some [] → l = p.
Proof. intros H. apply strip_prefix_Some in H. by rewrite app_nil_r in H. Qed.

Lemma TrimPrefix_empty s p :
  strings_HasPrefix s p = true → strings_TrimPrefix s p = "" → s = p.
Proof.
  unfold strings_HasPrefix, strings_TrimPrefix. intros Hp%bool_decide_eq_true.
  destruct Hp as [r Hr]. rewrite Hr. intros Hempty.
  assert (r = []) as ->.
  { destruct r; [done | discriminate]. }
  apply strip_prefix_nil in Hr.
  rewrite <- (string_of_list_ascii_of_string s), <- (string_of_list_ascii_of_string p).
  by rewrite Hr.
Qed.

Lemma Get_users s chatID :
  users (Get s chatID).2 !! chatID = Some (Get s chatID).1
  ∧ (∀ other, other ≠ chatID → users (Get s chatID).2 !! other = users s !! other)
  ∧ (Get s chatID).1 = default UserSettings_zero (users s !! chatID).
Proof.
  unfold Get. destruct (users s !! chatID) as [settings|] eqn:E; cbn.
  - by rewrite E.
  - rewrite lookup_insert_eq. repeat split. intros other Hne. by rewrite lookup_insert_ne.
Qed.

Lemma Get_invariant s chatID :
  enabled_have_region s → enabled_have_region (Get s chatID).2.
Proof.
  intros Hinv. unfold Get. destruct (users s !! chatID) eqn:E; [done|].
  intros id settings. cbn. destruct (decide (chatID = id)) as [->|Hne].
  - rewrite lookup_insert_eq. by intros [= <-].
  - rewrite lookup_insert_ne by done. apply Hinv.
Qed.

(** A setter keeps the invariant when the record it writes has a region
    whenever it has notifications on. *)
Lemma update_and_persist_invariant `{GoLib} f s d chatID :
  enabled_have_region s →
  (let settings := f (default UserSettings_zero (users s !! chatID)) in
   Notifications settings = true → Region settings ≠ "") →
  enabled_have_region (update_and_persist f s d chatID).1.
Proof.
  intros Hinv Hf id settings. rewrite update_and_persist_users.
  destruct (decide (chatID = id)) as [->|Hne].
  - rewrite lookup_insert_eq. intros [= <-]. exact Hf.
  - rewrite lookup_insert_ne by done. apply Hinv.
Qed.

Lemma bot_Get_state b chatID : state (bot_Get b chatID).2 = (Get (state b) chatID).2.
Proof. unfold bot_Get. by destruct (Get (state b) chatID). Qed.

Lemma bot_Get_settings b chatID : (bot_Get b chatID).1 = (Get (state b) chatID).1.
Proof. unfold bot_Get. by destruct (Get (state b) chatID). Qed.

Lemma SetLanguage_invariant `{GoLib} s d chatID lang :
  enabled_have_region s → enabled_have_region (SetLanguage s d chatID lang).1.
Proof.
  intros Hinv. apply update_and_persist_invariant; [done|]. cbn.
  destruct (users s !! chatID) as [settings|] eqn:E; cbn;
    [exact (Hinv chatID settings E) | discriminate].
Qed.

Lemma requireLanguage_invariant `{GoLib} b chatID :
  enabled_have_region (state b) →
  enabled_have_region (state (requireLanguage b chatID).2).
Proof.
  intros Hinv. unfold requireLanguage.
  pose proof (bot_Get_state b chatID) as Hst.
  destruct (bot_Get b chatID) as [settings b1]. cbn in Hst.
  assert (Hinv1 : enabled_have_region (state b1)).
  { rewrite Hst. by apply Get_invariant. }
  case_bool_decide; [done|]. case_bool_decide; [|done].
  cbn [snd with_state state fst]. by apply SetLanguage_invariant.
Qed.

Lemma setNotifications_invariant `{GoLib} b chatID enabled :
  enabled_have_region (state b) →
  enabled_have_region (state (setNotifications b chatID enabled)).
Proof.
  intros Hinv. unfold setNotifications.
  pose proof (bot_Get_state b chatID) as Hst.
  pose proof (bot_Get_settings b chatID) as Hset.
  destruct (bot_Get b chatID) as [settings b1]. cbn in Hst, Hset.
  assert (Hinv1 : enabled_have_region (state b1)).
  { rewrite Hst. by apply Get_invariant. }
  case_bool_decide as Hregion; [done|].
  assert (Hinv2 : enabled_have_region
                    (state (with_state b1 (SetNotifications (state b1) (fs b1) chatID enabled)))).
  { cbn [state with_state fst]. unfold SetNotifications.
    apply update_and_persist_invariant; [done|]. cbn [Notifications Region]. intros _.
    destruct (Get_users (state b) chatID) as (Hlook & _ & _).
    rewrite <- Hst, <- Hset in Hlook. by rewrite Hlook. }
  by destruct enabled.
Qed.

Lemma handleUpdate_invariant `{GoLib} b u :
  names_region u →
  enabled_have_region (state b) → enabled_have_region (state (handleUpdate b u)).
Proof.
  intros Hu Hinv. destruct u as [chatID lower | cb]; cbn [handleUpdate].
  - unfold handleMessage. case_bool_decide.
    + rewrite bot_Get_state. by apply Get_invariant.
    + pose proof (requireLanguage_invariant b chatID Hinv) as Hreq.
      destruct (requireLanguage b chatID) as [[lang ok] b1]. cbn in Hreq.
      destruct ok; cbn [negb]; [|done].
      repeat case_bool_decide; try done; by apply setNotifications_invariant.
  - unfold handleCallback. cbn in Hu. case_bool_decide; [done|].
    destruct (strings_HasPrefix (CallbackData cb) "lang:") eqn:Hlang.
    + rewrite bot_Get_state. apply Get_invariant. cbn [state with_state fst].
      by apply SetLanguage_invariant.
    + destruct (strings_HasPrefix (CallbackData cb) "region:") eqn:Hregion; [|done].
      pose proof (requireLanguage_invariant b (default (FromID cb) (MessageChat cb)) Hinv)
        as Hreq.
      destruct (requireLanguage b _) as [[lang ok] b1]. cbn in Hreq.
      destruct ok; cbn [negb]; [|done].
      cbn [state scheduler_Start with_state fst]. unfold SetRegion.
      apply update_and_persist_invariant; [done|]. cbn [Notifications Region].
      intros _ Hempty. apply Hu. by apply TrimPrefix_empty.
Qed.

(** Every update that names its region keeps the invariant: the guard of
    [setNotifications] and the region keyboard together maintain it. *)
Theorem run_keeps_invariant `{GoLib} b us :
  Forall names_region us →
  enabled_have_region (state b) → enabled_have_region (state (run b us)).
Proof.
  unfold run. intros Hus. revert b.
  induction Hus as [|u us Hu Hus IH]; intros b Hinv; cbn; [done|].
  apply IH. by apply handleUpdate_invariant.
Qed.

Lemma fresh_bot_invariant path : enabled_have_region (state (fresh_bot path)).
Proof. intros id settings. cbn. by rewrite lookup_empty. Qed.

(** C6 fails on a region callback that carries no region.  For a chat whose
    language is set, the callback data ["region:"] passes [requireLanguage]
    and reaches [SetRegion] with the empty string: the chat is left with
    notifications enabled and no region, and a loop is started for it. *)
Theorem handleCallback_empty_region `{GoLib} b chatID settings :
  users (state b) !! chatID = Some settings →
  normalizeLang (Language settings) ≠ "" →
  let cb := {| FromID := chatID; CallbackData := "region:"; MessageChat := None |} in
  let b' := handleCallback b cb in
  (∃ settings', users (state b') !! chatID = Some settings'
      ∧ Region settings' = "" ∧ Notifications settings' = true)
  ∧ active b' !! chatID = Some ""
  ∧ ¬ enabled_have_region (state b').
Proof.
  intros Hsettings Hlang cb b'.
  assert (Hb' : ∃ b1,
            b' = scheduler_Start
                   (with_state b1 (SetRegion (state b1) (fs b1) chatID "")) chatID "").
  { unfold b', handleCallback, cb. cbn [CallbackData FromID MessageChat default].
    rewrite bool_decide_eq_false_2 by discriminate.
    change (strings_HasPrefix "region:" "lang:") with false.
    change (strings_HasPrefix "region:" "region:") with true.
    change (strings_TrimPrefix "region:" "region:") with "". cbn match.
    unfold requireLanguage.
    pose proof (bot_Get_settings b chatID) as Hset.
    destruct (bot_Get b chatID) as [settings1 b0]. cbn in Hset.
    destruct (Get_users (state b) chatID) as (_ & _ & Hdef).
    rewrite Hsettings in Hdef. cbn in Hdef. rewrite <- Hset in Hdef. rewrite Hdef.
    rewrite (bool_decide_eq_false_2 _ Hlang). cbn [negb]. eauto. }
  destruct Hb' as [b1 ->].
  assert (Hrec : ∃ settings', users (state (scheduler_Start
                   (with_state b1 (SetRegion (state b1) (fs b1) chatID "")) chatID ""))
                   !! chatID = Some settings'
                 ∧ Region settings' = "" ∧ Notifications settings' = true).
  { cbn. eexists. split; [apply lookup_insert_eq|]. by split. }
  split; [exact Hrec|]. split; [apply lookup_insert_eq|].
  destruct Hrec as (settings' & Hlook & Hregion & Hnotif).
  intros Hinv. by apply (Hinv chatID settings' Hlook Hnotif).
Qed.

Lemma handleCallback_empty_region_witness :
  let choose_lang := {| FromID := 42; CallbackData := "lang:tg"; MessageChat := None |} in
  let no_region := {| FromID := 42; CallbackData := "region:"; MessageChat := None |} in
  let b := @run sample_lib (fresh_bot "state.json")
             [UCallback choose_lang; UCallback no_region] in
  users (state b) !! 42
  = Some {| Language := "tg"; Region := ""; Notifications := true; RegionSelected := true |}
  ∧ ¬ enabled_have_region (state b).
Proof.
  intros choose_lang no_region b.
  pose proof (@handleCallback_empty_region sample_lib
                (@run sample_lib (fresh_bot "state.json") [UCallback choose_lang]) 42
                {| Language := "tg"; Region := ""; Notifications := false;
                   RegionSelected := false |}) as H.
  destruct H as (_ & _ & Hbroken).
  - vm_compute. reflexivity.
  - vm_compute. discriminate.
  - split; [vm_compute; reflexivity | exact Hbroken].
Defined.

(** The usual course of a subscription keeps the invariant: language, a
    region from the keyboard, notifications off and on again. *)
Lemma run_keeps_invariant_witness :
  let cb data := UCallback {| FromID := 42; CallbackData := data; MessageChat := Some 42 |} in
  let us := [cb "lang:tg"; cb "region:Душанбе"; UMessage 42 "/notifyoff";
             UMessage 42 "/notifyon"] in
  enabled_have_region (state (@run sample_lib (fresh_bot "state.json") us))
  ∧ users (state (@run sample_lib (fresh_bot "state.json") us)) !! 42
    = Some {| Language := "tg"; Region := "Душанбе"; Notifications := true;
              RegionSelected := true |}.
Proof.
  intros cb us. split.
  - apply (@run_keeps_invariant sample_lib (fresh_bot "state.json") us).
    + repeat constructor; discriminate.
    + apply fresh_bot_invariant.
  - vm_compute. reflexivity.
Defined.

(** ** The daily polling loop *)

Lemma fired_mark_sent m k' k :
  fired (Some (mark_sent m k')) k ↔ fired (Some m) k ∨ k = k'.
Proof.
  unfold fired, mark_sent. split.
  - intros (m' & [= <-] & Hk). destruct (decide (k' = k)) as [->|Hne]; [by right|].
    rewrite lookup_insert_ne in Hk by done. left. eauto.
  - intros [(m' & [= <-] & Hk) | ->].
    + eexists. split; [done|]. destruct (decide (k' = k)) as [->|Hne].
      * by rewrite lookup_insert_eq.
      * by rewrite lookup_insert_ne.
    + eexists. split; [done|]. by rewrite lookup_insert_eq.
Qed.

Lemma shouldTriggerReminder_true now ev sent :
  shouldTriggerReminder now ev sent = true ↔
  remind_mark ev ≤ now ∧ ¬ fired sent (Key ev).
Proof.
  rewrite shouldTriggerReminder_unfold.
  rewrite andb_true_iff, negb_true_iff, Z.leb_le, <- sent_index_fired.
  rewrite not_true_iff_false. tauto.
Qed.

(** One tick: no key is delivered twice, none that was already fired is
    delivered, and afterwards exactly the old and the delivered keys are
    fired. *)
Lemma tickEvents_spec now events sent :
  NoDup (Key <$> (tickEvents now events sent).1)
  ∧ (∀ ev, ev ∈ (tickEvents now events sent).1 → ¬ fired (Some sent) (Key ev))
  ∧ (∀ k, fired (Some (tickEvents now events sent).2) k ↔
          fired (Some sent) k ∨ k ∈ Key <$> (tickEvents now events sent).1).
Proof.
  revert sent. induction events as [|ev rest IH]; intros sent; cbn [tickEvents].
  - cbn. split; [constructor|]. split; [by intros ev ?%elem_of_nil|].
    intros k. split; [by left | by intros [?|?%elem_of_nil]].
  - destruct (shouldTriggerReminder now ev (Some sent)) eqn:Htrig.
    + specialize (IH (mark_sent sent (Key ev))).
      destruct (tickEvents now rest (mark_sent sent (Key ev))) as [out sent'].
      cbn [fst snd] in *. destruct IH as (Hnd & Hnew & Hfired).
      apply shouldTriggerReminder_true in Htrig as [_ Hnot].
      split; [|split].
      * rewrite fmap_cons. apply NoDup_cons. split; [|done].
        intros (ev' & Hkey & Hin)%list_elem_of_fmap.
        apply (Hnew ev' Hin). apply fired_mark_sent. by right.
      * intros ev' [->|Hin]%elem_of_cons; [done|].
        intros Hf. apply (Hnew ev' Hin). apply fired_mark_sent. by left.
      * intros k. rewrite Hfired, fired_mark_sent, fmap_cons, elem_of_cons. tauto.
    + apply IH.
Qed.

(** Every event of the list whose mark has been reached is fired after the
    tick. *)
Lemma tickEvents_fires now events sent ev :
  ev ∈ events → remind_mark ev ≤ now →
  fired (Some (tickEvents now events sent).2) (Key ev).
Proof.
  revert sent. induction events as [|ev' rest IH]; intros sent Hin Hmark;
    [by apply elem_of_nil in Hin|].
  cbn [tickEvents]. apply elem_of_cons in Hin as [->|Hin].
  - destruct (shouldTriggerReminder now ev' (Some sent)) eqn:Htrig.
    + pose proof (tickEvents_spec now rest (mark_sent sent (Key ev'))) as (_ & _ & Hf).
      destruct (tickEvents now rest (mark_sent sent (Key ev'))) as [out sent'].
      cbn [fst snd] in *. apply Hf. left. apply fired_mark_sent. by right.
    + pose proof (tickEvents_spec now rest sent) as (_ & _ & Hf).
      apply Hf. left.
      destruct (sent_index (Some sent) (Key ev')) eqn:Hidx;
        [by apply sent_index_fired|].
      rewrite shouldTriggerReminder_unfold, Hidx in Htrig. cbn [negb andb] in Htrig.
      apply Z.leb_gt in Htrig. lia.
  - destruct (shouldTriggerReminder now ev' (Some sent)) eqn:Htrig.
    + specialize (IH (mark_sent sent (Key ev')) Hin Hmark).
      by destruct (tickEvents now rest (mark_sent sent (Key ev'))) as [out sent'].
    + by apply IH.
Qed.

Lemma pollDay_spec nextDay events ticks sent :
  NoDup (Key <$> pollDay nextDay events ticks sent)
  ∧ ∀ ev, ev ∈ pollDay nextDay events ticks sent → ¬ fired (Some sent) (Key ev).
Proof.
  revert sent. induction ticks as [|now ticks IH]; intros sent; cbn [pollDay].
  - split; [constructor | by intros ev ?%elem_of_nil].
  - destruct (negb (Time_Before now nextDay));
      [split; [constructor | by intros ev ?%elem_of_nil]|].
    pose proof (tickEvents_spec now events sent) as (Hnd & Hnew & Hfired).
    destruct (tickEvents now events sent) as [out sent']. cbn [fst snd] in *.
    destruct (IH sent') as [Hnd' Hnew']. split.
    + rewrite fmap_app. apply NoDup_app. split; [done|]. split; [|done].
      intros k Hk (ev & -> & Hin)%list_elem_of_fmap.
      apply (Hnew' ev Hin). apply Hfired. by right.
    + intros ev [Hin|Hin]%elem_of_app; [by apply Hnew|].
      intros Hf. apply (Hnew' ev Hin). apply Hfired. by left.
Qed.

Lemma pollDay_reaches nextDay events pre now post sent ev :
  Forall (λ t, t < nextDay) (pre ++ [now]) →
  ev ∈ events → remind_mark ev ≤ now →
  fired (Some sent) (Key ev)
  ∨ Key ev ∈ Key <$> pollDay nextDay events (pre ++ now :: post) sent.
Proof.
  revert sent. induction pre as [|t pre IH]; intros sent Hbefore Hin Hmark.
  - cbn [app pollDay]. apply Forall_cons in Hbefore as [Hnow _].
    unfold Time_Before. rewrite (proj2 (Z.ltb_lt _ _) Hnow). cbn [negb].
    pose proof (tickEvents_spec now events sent) as (_ & _ & Hfired).
    pose proof (tickEvents_fires now events sent ev Hin Hmark) as Hf.
    destruct (tickEvents now events sent) as [out sent']. cbn [fst snd] in *.
    apply Hfired in Hf as [Hf|Hf]; [by left|]. right.
    rewrite fmap_app. apply elem_of_app. by left.
  - cbn [app pollDay]. rewrite <- app_comm_cons in Hbefore.
    apply Forall_cons in Hbefore as [Ht Hbefore].
    unfold Time_Before. rewrite (proj2 (Z.ltb_lt _ _) Ht). cbn [negb].
    pose proof (tickEvents_spec t events sent) as (_ & _ & Hfired).
    destruct (tickEvents t events sent) as [out sent']. cbn [fst snd] in *.
    destruct (IH sent' Hbefore Hin Hmark) as [Hf|Hd].
    + apply Hfired in Hf as [Hf|Hf]; [by left|]. right.
      rewrite fmap_app. apply elem_of_app. by left.
    + right. rewrite fmap_app. apply elem_of_app. by right.
Qed.


(** Day 1 of the cycle that starts on 2026-02-19 (UTC+5), fajr at 05:41:
    with ticks at 05:10:30, 05:11:00 and 05:11:30 the suhoor and fajr
    reminders go out at the second tick and nothing goes out at the
    third. *)
Lemma pollDay_day1_fajr :
  let base := 1771441200 * time_Second in
  let day := {| Data := "19.02.2026"; Day := 1; SuhoorEnd := 341; Fajr := 341;
                Dhuhr := 761; Asr := 940; Maghrib := 1094; Isha := 1170 |} in
  let at_clock h m s := base + h * time_Hour + m * time_Minute + s * time_Second in
  Key <$> pollDay (base + 24 * time_Hour) (reminderEventsForDay base day)
            [at_clock 5 10 30; at_clock 5 11 0; at_clock 5 11 30] ∅
  = ["suhoor"; "fajr"].
Proof. vm_compute. reflexivity. Qed.

(** ** The day lookup on the built calendars *)

Lemma find_is_Some_days (days : list DayTimes) idx :
  is_Some (List.find (λ d, Day d =? idx) days) ↔ idx ∈ Day <$> days.
Proof.
  induction days as [|d days IH]; cbn.
  - split; [by intros [? ?] | by intros ?%elem_of_nil].
  - destruct (Z.eqb_spec (Day d) idx) as [<-|Hne].
    + split; [intros _; left | by eexists].
    + rewrite IH, elem_of_cons. split; [by right | by intros [?|?]].
Qed.

Lemma buildCalendars_days calendars region rdays :
  buildCalendars = Some calendars → calendars !! region = Some rdays →
  Day <$> rdays = Z.of_nat <$> seq 0 31.
Proof.
  destruct baseDays_times as (days & Hdays & _).
  unfold buildCalendars. rewrite Hdays. intros Hc Hregion.
  apply (inj Some) in Hc. rewrite <- Hc in Hregion.
  rewrite (foldr_insert_lookup (λ offset, (λ bd, applyOffset bd offset) <$> days))
    in Hregion.
  destruct (list_to_map offsets_table !! region) as [offset|]; [|discriminate].
  apply (inj Some) in Hregion. rewrite <- Hregion, <- list_fmap_compose.
  assert (Hall : Day <$> default [] baseDays = Z.of_nat <$> seq 0 31)
    by (vm_compute; reflexivity).
  rewrite Hdays in Hall. cbn [default] in Hall.
  rewrite <- Hall. apply list_fmap_ext. by intros i bd _.
Qed.

(** On every regional calendar built by [buildCalendars] (31 entries, days
    0 to 30) a schedule is returned exactly for the day numbers 0 to 30:
    the placeholder day 0 and the thirty days of the cycle. *)
Theorem currentDaySchedule_built calendars region days start now :
  buildCalendars = Some calendars → calendars !! region = Some days →
  is_Some (currentDaySchedule days start now) ↔ 0 ≤ dayIndexAt start now ≤ 30.
Proof.
  intros Hbuilt Hregion.
  pose proof (buildCalendars_days calendars region days Hbuilt Hregion) as Hdays.
  assert (Hlen : length days = 31%nat).
  { apply (f_equal length) in Hdays. by rewrite !length_fmap, length_seq in Hdays. }
  unfold currentDaySchedule. rewrite Hlen.
  generalize (dayIndexAt start now). intros idx.
  assert (Hmem : idx ∈ Day <$> days ↔ 0 ≤ idx ≤ 30).
  { rewrite Hdays, list_elem_of_fmap. split.
    - intros (n & Heq & Hn%elem_of_seq). lia.
    - intros Hidx. exists (Z.to_nat idx). split; [lia|]. apply elem_of_seq. lia. }
  change (Z.of_nat 31) with 31.
  destruct (Z.ltb_spec idx 0) as [Hlo|Hlo]; destruct (Z.ltb_spec 31 idx) as [Hhi|Hhi];
    cbn [orb].
  - split; [by intros [? ?] | lia].
  - split; [by intros [? ?] | lia].
  - split; [by intros [? ?] | lia].
  - by rewrite find_is_Some_days.
Qed.

Lemma currentDaySchedule_built_witness :
  ∃ calendars days,
    buildCalendars = Some calendars ∧ calendars !! "Душанбе" = Some days
    ∧ (is_Some (currentDaySchedule days (1771441200 * time_Second)
                  (1771441200 * time_Second + 29 * (24 * time_Hour) + 5 * time_Hour))
       ↔ 0 ≤ dayIndexAt (1771441200 * time_Second)
                (1771441200 * time_Second + 29 * (24 * time_Hour) + 5 * time_Hour) ≤ 30).
Proof.
  destruct baseDays_times as (days0 & Hdays0 & _).
  assert (Hbuilt : buildCalendars =
            Some (foldr (λ '(region, offset) (calendars : gmap string (list DayTimes)),
                           <[region := (λ bd, applyOffset bd offset) <$> days0]> calendars)
                        ∅ offsets_table)).
  { unfold buildCalendars. by rewrite Hdays0. }
  assert (Hoff : (list_to_map offsets_table : gmap string Z) !! "Душанбе" = Some 0)
    by (vm_compute; reflexivity).
  eexists. exists ((λ bd, applyOffset bd 0) <$> days0).
  split; [exact Hbuilt|].
  assert (Hregion : foldr (λ '(region, offset) (calendars : gmap string (list DayTimes)),
                             <[region := (λ bd, applyOffset bd offset) <$> days0]> calendars)
                          ∅ offsets_table !! "Душанбе"
                    = Some ((λ bd, applyOffset bd 0) <$> days0)).
  { rewrite (foldr_insert_lookup (λ offset, (λ bd, applyOffset bd offset) <$> days0)).
    by rewrite Hoff. }
  split; [exact Hregion|].
  exact (currentDaySchedule_built _ "Душанбе" _ _ _ Hbuilt Hregion).
Defined.

(** ** Clock strings *)

Lemma is_digit_val a : is_digit a = true → 0 ≤ digit_val a ≤ 9.
Proof.
  unfold is_digit, digit_val. intros H.
  apply andb_true_iff in H as [H1 H2].
  apply Nat.leb_le in H1, H2. lia.
Qed.

Lemma time_Parse_clock_range s h m :
  time_Parse_clock s = Some (h, m) → 0 ≤ h < 24 ∧ 0 ≤ m < 60.
Proof.
  unfold time_Parse_clock.
  assert (Hhm : ∀ h0 rest, 0 ≤ h0 →
    match rest with
    | [c; m1; m2] =>
        if Ascii.eqb c ":" && is_digit m1 && is_digit m2 then
          let m := 10 * digit_val m1 + digit_val m2 in
          if (h0 <? 24) && (m <? 60) then Some (h0, m) else None
        else None
    | _ => None
    end = Some (h, m) → 0 ≤ h < 24 ∧ 0 ≤ m < 60).
  { intros h0 rest Hh0 Heq.
    destruct rest as [|c [|m1 [|m2 [|? ?]]]]; try discriminate.
    destruct (Ascii.eqb c ":"); [|discriminate].
    destruct (is_digit m1) eqn:E1; [|discriminate].
    destruct (is_digit m2) eqn:E2; [|discriminate].
    cbn [andb] in Heq. cbv zeta in Heq.
    destruct (h0 <? 24) eqn:E3; [|discriminate].
    destruct (10 * digit_val m1 + digit_val m2 <? 60) eqn:E4; [|discriminate].
    cbn [andb] in Heq. injection Heq as <- <-.
    apply is_digit_val in E1, E2. lia. }
  destruct (list_ascii_of_string s) as [|h1 rest]; [discriminate|].
  destruct (is_digit h1) eqn:E1; [|discriminate].
  apply is_digit_val in E1.
  destruct rest as [|h2 rest']; [discriminate|].
  destruct (is_digit h2) eqn:E2.
  - apply is_digit_val in E2. apply Hhm. lia.
  - apply (Hhm _ (h2 :: rest')). lia.
Qed.

Lemma mustClockToMinutes_exact raw m :
  mustClockToMinutes raw = Some m →
  ∃ h mi, time_Parse_clock (cleanClock raw) = Some (h, mi)
    ∧ m = 60 * h + mi ∧ 0 ≤ h < 24 ∧ 0 ≤ mi < 60.
Proof.
  unfold mustClockToMinutes.
  destruct (time_Parse_clock (cleanClock raw)) as [[h mi]|] eqn:E; [|discriminate].
  pose proof (time_Parse_clock_range _ _ _ E) as [Hh Hm].
  intros [= <-]. exists h, mi. split; [done|]. split; [|done].
  unfold int_add, int_mul.
  rewrite (wrap64_small (h * 60)) by (unfold is_int64, int64_min, int64_max; lia).
  rewrite wrap64_small by (unfold is_int64, int64_min, int64_max; lia).
  lia.
Qed.

Lemma mustClockToMinutes_bounds raw m :
  mustClockToMinutes raw = Some m → 0 ≤ m < 1440.
Proof.
  intros (h & mi & _ & -> & Hh & Hm)%mustClockToMinutes_exact. lia.
Qed.

Lemma minutesToClock_parses_all :
  forallb (λ m, bool_decide (mustClockToMinutes (minutesToClock m) = Some m))
          (Z.of_nat <$> seq 0 1440) = true.
Proof. vm_compute. reflexivity. Qed.

Lemma minutesToClock_parses m :
  0 ≤ m < 1440 → mustClockToMinutes (minutesToClock m) = Some m.
Proof.
  intros Hm.
  pose proof minutesToClock_parses_all as Hall.
  rewrite forallb_forall in Hall.
  specialize (Hall m).
  apply bool_decide_eq_true_1 in Hall; [exact Hall|].
  apply list_elem_of_In, list_elem_of_fmap.
  exists (Z.to_nat m). split; [lia|].
  apply elem_of_seq. lia.
Qed.

(** Formatting minutes as a clock and reading the clock back gives the
    minutes again, exactly for the minutes of a day: outside [0, 1440) the
    text [minutesToClock] writes is refused or read as another value. *)
Theorem minutesToClock_round_trip m :
  mustClockToMinutes (minutesToClock m) = Some m ↔ 0 ≤ m < 1440.
Proof.
  split; [apply mustClockToMinutes_bounds | apply minutesToClock_parses].
Qed.

(** A clock string that [mustClockToMinutes] accepts yields the minutes
    of a day: sixty times the hour plus the minute that [time.Parse] read,
    with no overflow, and a value within [0, 1440). *)
Theorem mustClockToMinutes_in_day raw m :
  mustClockToMinutes raw = Some m →
  0 ≤ m < 1440
  ∧ ∃ h mi, time_Parse_clock (cleanClock raw) = Some (h, mi)
      ∧ m = 60 * h + mi ∧ 0 ≤ h < 24 ∧ 0 ≤ mi < 60.
Proof.
  intros Hraw. split; [by eapply mustClockToMinutes_bounds|].
  by apply mustClockToMinutes_exact.
Qed.

Lemma mustClockToMinutes_in_day_witness :
  mustClockToMinutes " 5:42 - 6:10" = Some 342
  ∧ 0 ≤ 342 < 1440.
Proof.
  assert (H : mustClockToMinutes " 5:42 - 6:10" = Some 342) by (vm_compute; reflexivity).
  split; [exact H|]. exact (proj1 (mustClockToMinutes_in_day _ _ H)).
Defined.

Lemma strip_any_printable ps c l :
  outside_printable ps = true →
  (33 ≤ nat_of_ascii c < 128)%nat →
  strip_any ps (c :: l) = None.
Proof.
  intros Hps Hc. induction ps as [|p ps IH]; [reflexivity|].
  cbn [outside_printable forallb] in Hps.
  apply andb_true_iff in Hps as [Hp Hps].
  cbn [strip_any]. destruct p as [|a p]; [discriminate|].
  cbn [strip_prefix].
  destruct (Ascii.eqb_spec a c) as [->|_].
  - apply orb_true_iff in Hp as [Hp|Hp]; apply Nat.leb_le in Hp; lia.
  - apply IH, Hps.
Qed.

Lemma strip_any_nil ps : outside_printable ps = true → strip_any ps [] = None.
Proof.
  intros Hps. induction ps as [|p ps IH]; [reflexivity|].
  cbn [outside_printable forallb] in Hps.
  apply andb_true_iff in Hps as [Hp Hps].
  cbn [strip_any]. destruct p as [|a p]; [discriminate|].
  cbn [strip_prefix]. apply IH, Hps.
Qed.

Lemma clock_char_printable a : clock_char a = true → (33 ≤ nat_of_ascii a < 128)%nat.
Proof.
  unfold clock_char, is_digit. intros H.
  apply orb_true_iff in H as [H|H].
  - apply andb_true_iff in H as [H1 H2]. apply Nat.leb_le in H1, H2. lia.
  - apply Ascii.eqb_eq in H as ->. vm_compute. lia.
Qed.

Lemma clock_char_not_dash a : clock_char a = true → Ascii.eqb a "-" = false.
Proof.
  intros H. destruct (Ascii.eqb_spec a "-") as [->|]; [|reflexivity].
  vm_compute in H. discriminate.
Qed.

Lemma trim_list_clock l : Forall (λ a, clock_char a = true) l → trim_list l = l.
Proof.
  intros Hl. unfold trim_list.
  assert (Hfront : ∀ ps k n, outside_printable ps = true →
            Forall (λ a, clock_char a = true) k → trim_front n ps k = k).
  { intros ps k n Hps Hk. apply trim_front_fixed.
    destruct Hk as [|c k Hc Hk]; [by apply strip_any_nil|].
    apply strip_any_printable; [exact Hps|]. by apply clock_char_printable. }
  rewrite (Hfront space_runes l) by (try exact Hl; vm_compute; reflexivity).
  rewrite Hfront.
  - apply rev_involutive.
  - vm_compute. reflexivity.
  - by apply Forall_rev.
Qed.

Lemma cleanClock_loop_chars l : Forall (λ a, clock_char a = true) (cleanClock_loop l).
Proof.
  induction l as [|r l IH]; cbn [cleanClock_loop]; [constructor|].
  destruct (Ascii.eqb r "-"); [constructor|].
  fold (clock_char r). destruct (clock_char r) eqn:E; [by constructor | exact IH].
Qed.

Lemma cleanClock_loop_fixed l :
  Forall (λ a, clock_char a = true) l → cleanClock_loop l = l.
Proof.
  induction 1 as [|r l Hr Hl IH]; cbn [cleanClock_loop]; [reflexivity|].
  rewrite (clock_char_not_dash _ Hr). fold (clock_char r). rewrite Hr. by rewrite IH.
Qed.

Lemma cleanClock_loop_dash l1 l2 :
  cleanClock_loop (l1 ++ "-"%char :: l2) = cleanClock_loop l1.
Proof.
  induction l1 as [|r l1 IH]; cbn [app cleanClock_loop]; [reflexivity|].
  destruct (Ascii.eqb r "-"); [reflexivity|]. by rewrite IH.
Qed.

Lemma cleanClock_fixed raw : cleanClock (cleanClock raw) = cleanClock raw.
Proof.
  unfold cleanClock at 2 3.
  set (L := cleanClock_loop (list_ascii_of_string (strings_TrimSpace raw))).
  assert (HL : Forall (λ a, clock_char a = true) L) by apply cleanClock_loop_chars.
  unfold cleanClock. rewrite strings_TrimSpace_list.
  rewrite !list_ascii_of_string_of_list_ascii.
  rewrite (trim_list_clock _ HL). by rewrite (cleanClock_loop_fixed _ HL).
Qed.

(** [cleanClock] keeps digits and colons only and cuts the text at the
    first dash, so that of a range of clocks the first one is read;
    cleaning a cleaned clock changes nothing, and [mustClockToMinutes]
    reads a clock and its cleaned form alike. *)
Theorem cleanClock_idempotent :
  (∀ raw, Forall (λ a, clock_char a = true) (list_ascii_of_string (cleanClock raw)))
  ∧ (∀ raw, cleanClock (cleanClock raw) = cleanClock raw)
  ∧ (∀ raw, mustClockToMinutes (cleanClock raw) = mustClockToMinutes raw)
  ∧ (∀ l1 l2, cleanClock_loop (l1 ++ "-"%char :: l2) = cleanClock_loop l1).
Proof.
  split; [|split; [|split]].
  - intros raw. unfold cleanClock. rewrite list_ascii_of_string_of_list_ascii.
    apply cleanClock_loop_chars.
  - apply cleanClock_fixed.
  - intros raw. unfold mustClockToMinutes. by rewrite cleanClock_fixed.
  - apply cleanClock_loop_dash.
Qed.

(** ** Regional timetables, continued *)

Lemma adjust_nonneg offset val : 0 ≤ adjust offset val ≤ int64_max.
Proof.
  unfold adjust, int_add.
  pose proof (wrap64_range (val + offset)) as [_ Hhi].
  destruct (Z.ltb_spec (wrap64 (val + offset)) 0); unfold int64_max in *; lia.
Qed.

(** [applyOffset] never yields a negative time, whatever the day and the
    offset (wrap-around included); it keeps the date and the day number,
    and with offset 0 it returns a day of non-negative times unchanged. *)
Theorem applyOffset_never_negative day offset :
  times_within 0 int64_max (applyOffset day offset)
  ∧ Data (applyOffset day offset) = Data day
  ∧ Day (applyOffset day offset) = Day day
  ∧ (times_within 0 int64_max day → applyOffset day 0 = day).
Proof.
  split; [|split; [|split]]; try reflexivity.
  - unfold times_within, applyOffset. cbn.
    repeat (apply Forall_cons; split); try (by apply Forall_nil); apply adjust_nonneg.
  - intros Hday. rewrite (applyOffset_shifted day 0 0 int64_max Hday) by lia.
    destruct day. unfold shifted. cbn. f_equal; lia.
Qed.

Lemma built_calendar_shape calendars region rdays :
  buildCalendars = Some calendars → calendars !! region = Some rdays →
  ∃ offset, (region, offset) ∈ offsets_table
    ∧ rdays = (λ bd, applyOffset bd offset) <$> default [] baseDays.
Proof.
  destruct baseDays_times as (days & Hdays & _).
  unfold buildCalendars. rewrite Hdays. intros Hc Hregion.
  apply (inj Some) in Hc. rewrite <- Hc in Hregion.
  rewrite (foldr_insert_lookup (λ offset, (λ bd, applyOffset bd offset) <$> days))
    in Hregion.
  destruct (list_to_map offsets_table !! region) as [offset|] eqn:E; [|discriminate].
  apply (inj Some) in Hregion. exists offset. split.
  - by apply elem_of_list_to_map_2.
  - by rewrite <- Hregion.
Qed.

Lemma built_calendars_checked :
  forallb (λ ro, forallb (chronological 280 1205)
                   ((λ bd, applyOffset bd ro.2) <$> default [] baseDays))
          offsets_table = true.
Proof. vm_compute. reflexivity. Qed.

Lemma built_day_chronological calendars region days d :
  buildCalendars = Some calendars → calendars !! region = Some days → d ∈ days →
  chronological 280 1205 d = true.
Proof.
  intros Hbuilt Hregion Hd.
  destruct (built_calendar_shape _ _ _ Hbuilt Hregion) as (offset & Hoff & ->).
  pose proof built_calendars_checked as Hall.
  rewrite forallb_forall in Hall.
  specialize (Hall (region, offset) (proj1 (list_elem_of_In _ _) Hoff)).
  cbn [snd] in Hall. rewrite forallb_forall in Hall.
  exact (Hall d (proj1 (list_elem_of_In _ _) Hd)).
Qed.

Lemma chronological_spec lo hi d :
  chronological lo hi d = true ↔
  SuhoorEnd d = Fajr d
  ∧ lo ≤ Fajr d ∧ Fajr d < Dhuhr d ∧ Dhuhr d < Asr d ∧ Asr d < Maghrib d
  ∧ Maghrib d < Isha d ∧ Isha d ≤ hi.
Proof.
  unfold chronological. rewrite !andb_true_iff.
  rewrite !Z.leb_le, !Z.ltb_lt, Z.eqb_eq. lia.
Qed.

(** On every calendar [buildCalendars] makes, every day is in
    chronological order: suhoor ends at fajr, and fajr, dhuhr, asr, maghrib
    and isha follow one another, all between 04:40 and 20:05. *)
Theorem buildCalendars_chronological calendars region days d :
  buildCalendars = Some calendars → calendars !! region = Some days → d ∈ days →
  SuhoorEnd d = Fajr d
  ∧ 280 ≤ Fajr d ∧ Fajr d < Dhuhr d ∧ Dhuhr d < Asr d ∧ Asr d < Maghrib d
  ∧ Maghrib d < Isha d ∧ Isha d ≤ 1205.
Proof.
  intros Hbuilt Hregion Hd. apply chronological_spec.
  by eapply built_day_chronological.
Qed.

(** The first day of the cycle in Dushanbe, as [buildCalendars] has it. *)
Lemma dushanbe_day1 :
  ∃ calendars days,
    buildCalendars = Some calendars ∧ calendars !! "Душанбе" = Some days
    ∧ {| Data := "19.02.2026"; Day := 1; SuhoorEnd := 341; Fajr := 341;
         Dhuhr := 761; Asr := 940; Maghrib := 1094; Isha := 1170 |} ∈ days.
Proof.
  destruct baseDays_times as (days0 & Hdays0 & _).
  assert (Hbuilt : buildCalendars =
            Some (foldr (λ '(region, offset) (calendars : gmap string (list DayTimes)),
                           <[region := (λ bd, applyOffset bd offset) <$> days0]> calendars)
                        ∅ offsets_table)).
  { unfold buildCalendars. by rewrite Hdays0. }
  assert (Hoff : (list_to_map offsets_table : gmap string Z) !! "Душанбе" = Some 0)
    by (vm_compute; reflexivity).
  eexists. exists ((λ bd, applyOffset bd 0) <$> days0).
  split; [exact Hbuilt|]. split.
  - rewrite (foldr_insert_lookup (λ offset, (λ bd, applyOffset bd offset) <$> days0)).
    by rewrite Hoff.
  - assert (Hin : bool_decide
              ({| Data := "19.02.2026"; Day := 1; SuhoorEnd := 341; Fajr := 341;
                  Dhuhr := 761; Asr := 940; Maghrib := 1094; Isha := 1170 |}
               ∈ (λ bd, applyOffset bd 0) <$> default [] baseDays) = true)
      by (vm_compute; reflexivity).
    rewrite Hdays0 in Hin. by apply bool_decide_eq_true_1 in Hin.
Qed.

Lemma buildCalendars_chronological_witness :
  ∃ d : DayTimes,
    Day d = 1 ∧ SuhoorEnd d = Fajr d
    ∧ 280 ≤ Fajr d ∧ Fajr d < Dhuhr d ∧ Dhuhr d < Asr d ∧ Asr d < Maghrib d
    ∧ Maghrib d < Isha d ∧ Isha d ≤ 1205.
Proof.
  destruct dushanbe_day1 as (calendars & days & Hbuilt & Hregion & Hd).
  eexists. split; [|exact (buildCalendars_chronological _ _ _ _ Hbuilt Hregion Hd)].
  reflexivity.
Defined.

(** ** The daily polling loop on a built day *)

Lemma tickEvents_subset now events sent ev :
  ev ∈ (tickEvents now events sent).1 → ev ∈ events.
Proof.
  revert sent. induction events as [|e events IH]; intros sent; cbn [tickEvents].
  - by intros ?%elem_of_nil.
  - destruct (shouldTriggerReminder now e (Some sent)).
    + specialize (IH (mark_sent sent (Key e))).
      destruct (tickEvents now events (mark_sent sent (Key e))) as [out sent'].
      cbn [fst] in *. intros [->|Hin]%elem_of_cons; [left | right; by apply IH].
    + intros Hin. right. by eapply IH.
Qed.

Lemma pollDay_subset nextDay events ticks sent ev :
  ev ∈ pollDay nextDay events ticks sent → ev ∈ events.
Proof.
  revert sent. induction ticks as [|t ticks IH]; intros sent; cbn [pollDay].
  - by intros ?%elem_of_nil.
  - destruct (negb (Time_Before t nextDay)); [by intros ?%elem_of_nil|].
    pose proof (tickEvents_subset t events sent ev) as Hsub.
    destruct (tickEvents t events sent) as [out sent']. cbn [fst] in Hsub.
    intros [Hin|Hin]%elem_of_app; [by apply Hsub | by eapply IH].
Qed.

(** On a day of a built calendar the six events fall at the base plus
    their minutes, each 30-minute mark and each event lies within the day,
    and once a tick of the day has reached the mark of isha all six
    reminders have been delivered, each of them once. *)
Theorem built_day_all_delivered calendars region days d base pre now post :
  buildCalendars = Some calendars → calendars !! region = Some days → d ∈ days →
  Forall (λ t, t < base + 24 * time_Hour) (pre ++ [now]) →
  base + Isha d * time_Minute - 30 * time_Minute ≤ now →
  let events := reminderEventsForDay base d in
  Time <$> events =
    [ base + SuhoorEnd d * time_Minute; base + Fajr d * time_Minute;
      base + Dhuhr d * time_Minute; base + Asr d * time_Minute;
      base + Maghrib d * time_Minute; base + Isha d * time_Minute ]
  ∧ Forall (λ ev, base ≤ remind_mark ev ∧ Time ev < base + 24 * time_Hour) events
  ∧ Key <$> pollDay (base + 24 * time_Hour) events (pre ++ now :: post) ∅
    ≡ₚ ["suhoor"; "fajr"; "dhuhr"; "asr"; "maghrib"; "isha"].
Proof.
  intros Hbuilt Hregion Hd Hticks Hnow events.
  pose proof (built_day_chronological _ _ _ _ Hbuilt Hregion Hd) as Hc.
  apply chronological_spec in Hc as (Hs & H1 & H2 & H3 & H4 & H5 & H6).
  assert (Htimes : Time <$> events =
    [ base + SuhoorEnd d * time_Minute; base + Fajr d * time_Minute;
      base + Dhuhr d * time_Minute; base + Asr d * time_Minute;
      base + Maghrib d * time_Minute; base + Isha d * time_Minute ]).
  { unfold events, reminderEventsForDay, Time_Add. cbn [fmap list_fmap Time].
    rewrite !minutes_of_day_exact by lia. reflexivity. }
  assert (Hin_day : Forall (λ ev, base ≤ remind_mark ev
                                  ∧ Time ev < base + 24 * time_Hour) events).
  { apply Forall_forall. intros ev Hev.
    assert (Ht : Time ev ∈ Time <$> events) by (apply list_elem_of_fmap; eauto).
    rewrite Htimes in Ht. unfold remind_mark.
    change time_Hour with 3600000000000. change time_Minute with 60000000000 in *.
    set_unfold in Ht. lia. }
  split; [exact Htimes|]. split; [exact Hin_day|].
  apply NoDup_Permutation.
  - apply pollDay_spec.
  - apply (bool_decide_unpack _). vm_compute. exact I.
  - intros k. split.
    + intros (ev & -> & Hev%pollDay_subset)%list_elem_of_fmap.
      change (Key ev ∈ Key <$> events). apply list_elem_of_fmap. eauto.
    + intros Hk.
      change (k ∈ Key <$> events) in Hk.
      apply list_elem_of_fmap in Hk as (ev & -> & Hev).
      destruct (pollDay_reaches (base + 24 * time_Hour) events pre now post ∅ ev
                  Hticks Hev) as [Hf|Hdone].
      * assert (Ht : Time ev ∈ Time <$> events) by (apply list_elem_of_fmap; eauto).
        rewrite Htimes in Ht. unfold remind_mark.
        change time_Minute with 60000000000 in *.
        set_unfold in Ht. lia.
      * destruct Hf as (m & [= <-] & Hm). by rewrite lookup_empty in Hm.
      * exact Hdone.
Qed.

Lemma built_day_all_delivered_witness :
  let base := 1771441200 * time_Second in
  let day := {| Data := "19.02.2026"; Day := 1; SuhoorEnd := 341; Fajr := 341;
                Dhuhr := 761; Asr := 940; Maghrib := 1094; Isha := 1170 |} in
  Key <$> pollDay (base + 24 * time_Hour) (reminderEventsForDay base day)
            ([base + 6 * time_Hour] ++ (base + 19 * time_Hour) :: []) ∅
  ≡ₚ ["suhoor"; "fajr"; "dhuhr"; "asr"; "maghrib"; "isha"].
Proof.
  intros base day.
  destruct dushanbe_day1 as (calendars & days & Hbuilt & Hregion & Hd).
  refine (proj2 (proj2 (built_day_all_delivered calendars "Душанбе" days day base
            [base + 6 * time_Hour] (base + 19 * time_Hour) [] Hbuilt Hregion Hd _ _))).
  - repeat constructor; vm_compute; reflexivity.
  - vm_compute. discriminate.
Defined.

(** ** Image cache, continued *)

Lemma reminderImageTTL_min ev now : 15 * time_Minute ≤ reminderImageTTL ev now.
Proof.
  unfold reminderImageTTL. cbv zeta.
  match goal with |- _ ≤ (if ?c then _ else ?t) => destruct (Z.ltb_spec t (15 * time_Minute)) end;
    lia.
Qed.

Lemma timeUntilNextDay_pos next now : 0 < timeUntilNextDay next now.
Proof.
  unfold timeUntilNextDay. cbv zeta.
  destruct (Z.leb_spec (time_Until (Time_Add next (5 * time_Minute)) now) 0);
    [vm_compute; reflexivity | lia].
Qed.

(** The three cached getters never bypass the cache: the time to live of
    a reminder image is at least 15 minutes (and, in the usual range, lasts
    until 90 minutes after the event), that of a today image is positive
    and that of a calendar image is 12 hours; so an entry that is still
    fresh is served without rendering. *)
Theorem cached_getters_use_cache {B} items key (render : builder B) clk b ev now next cached :
  items !! key = Some cached → now_lookup clk < expiresAt cached →
  15 * time_Minute ≤ reminderImageTTL ev now
  ∧ (Time ev ≠ time_zero →
     15 * time_Minute ≤ Time ev + 90 * time_Minute - now ≤ maxDuration →
     reminderImageTTL ev now = Time ev + 90 * time_Minute - now)
  ∧ 0 < timeUntilNextDay next now
  ∧ cachedReminderImage (Some items) key ev now render clk b
    = ((data cached, None), Some items, b)
  ∧ cachedTodayImage (Some items) key next now render clk b
    = ((data cached, None), Some items, b)
  ∧ cachedCalendarImage (Some items) key render clk b
    = ((data cached, None), Some items, b).
Proof.
  intros Hkey Hfresh.
  pose proof (reminderImageTTL_min ev now) as Hmin.
  pose proof (timeUntilNextDay_pos next now) as Hpos.
  split; [exact Hmin|]. split; [|split; [exact Hpos|]].
  - intros Hzero Hrange. unfold reminderImageTTL, Time_IsZero, time_Until, Time_Sub, Time_Add.
    cbv zeta. rewrite (proj2 (Z.eqb_neq _ _) Hzero). cbn [negb].
    assert (Hmd : minDuration < 0) by (vm_compute; reflexivity).
    assert (H15 : 0 < 15 * time_Minute) by (vm_compute; reflexivity).
    destruct (Z.ltb_spec (Time ev + 90 * time_Minute - now) minDuration); [lia|].
    destruct (Z.ltb_spec maxDuration (Time ev + 90 * time_Minute - now)); [lia|].
    destruct (Z.ltb_spec 0 (Time ev + 90 * time_Minute - now)); [|lia].
    destruct (Z.ltb_spec (Time ev + 90 * time_Minute - now) (15 * time_Minute)); lia.
  - assert (H15 : 0 < 15 * time_Minute) by (vm_compute; reflexivity).
    unfold cachedReminderImage, cachedTodayImage, cachedCalendarImage.
    rewrite (getOrBuild_hit items key (reminderImageTTL ev now) render clk b cached)
      by first [exact Hkey | exact Hfresh | lia].
    rewrite (getOrBuild_hit items key (timeUntilNextDay next now) render clk b cached)
      by first [exact Hkey | exact Hfresh | lia].
    rewrite (getOrBuild_hit items key (12 * time_Hour) render clk b cached)
      by first [exact Hkey | exact Hfresh | (vm_compute; reflexivity)].
    done.
Qed.

Lemma cached_getters_use_cache_witness :
  let fresh := {| data := [x89; x50]; expiresAt := 100 |} in
  let build : builder unit := λ _, (([x02], None), tt) in
  let ev := {| Key := "fajr"; Title := ""; Time := 0; IsNiyat := false;
               UseIftar := false; UseSuhoor := false |} in
  reminderImageTTL ev (60 * time_Minute) = 30 * time_Minute
  ∧ cachedReminderImage (Some {["k" := fresh]}) "k" ev (60 * time_Minute) build
      (at_instant 0) tt
    = (([x89; x50], None), Some {["k" := fresh]}, tt).
Proof.
  intros fresh build ev.
  assert (Hkey : ({["k" := fresh]} : gmap string cachedImage) !! "k" = Some fresh)
    by (vm_compute; reflexivity).
  assert (Hfresh : now_lookup (at_instant 0) < expiresAt fresh)
    by (vm_compute; reflexivity).
  pose proof (cached_getters_use_cache _ "k" build (at_instant 0) tt ev
                (60 * time_Minute) 0 fresh Hkey Hfresh) as (_ & Httl & _ & Hr & _).
  split; [|exact Hr].
  apply Httl; vm_compute; [discriminate | split; discriminate].
Defined.

Lemma sweep_lookup now items k v :
  sweep now items !! k = Some v ↔ items !! k = Some v ∧ now ≤ expiresAt v.
Proof.
  unfold sweep. rewrite map_lookup_filter_Some. cbn. unfold Time_After.
  rewrite Z.ltb_ge. reflexivity.
Qed.

(** A call of [getOrBuild] on a cache leaves every other key's entry as
    it was, except that an entry which has expired may be swept: nothing is
    invented, nothing unexpired is evicted, and a fresh hit changes
    nothing at all. *)
Theorem getOrBuild_keeps_unexpired {B} items key ttl (build : builder B) clk b :
  ∃ items', (getOrBuild (Some items) key ttl build clk b).1.2 = Some items'
    ∧ (∀ key' entry, key' ≠ key →
         items' !! key' = Some entry → items !! key' = Some entry)
    ∧ (∀ key' entry, key' ≠ key →
         items !! key' = Some entry → now_sweep clk ≤ expiresAt entry →
         items' !! key' = Some entry)
    ∧ (∀ entry, 0 < ttl → items !! key = Some entry →
         now_lookup clk < expiresAt entry → items' = items).
Proof.
  assert (Hsame : ∃ items', Some items = Some items'
    ∧ (∀ key' entry, key' ≠ key →
         items' !! key' = Some entry → items !! key' = Some entry)
    ∧ (∀ key' entry, key' ≠ key →
         items !! key' = Some entry → now_sweep clk ≤ expiresAt entry →
         items' !! key' = Some entry)
    ∧ (∀ entry, 0 < ttl → items !! key = Some entry →
         now_lookup clk < expiresAt entry → items' = items)).
  { exists items. by repeat split. }
  assert (Hstore : (∀ cached, items !! key = Some cached →
                      Time_Before (now_lookup clk) (expiresAt cached) = false) →
    ∃ items', (buildAndStore items key ttl build clk b).1.2 = Some items'
    ∧ (∀ key' entry, key' ≠ key →
         items' !! key' = Some entry → items !! key' = Some entry)
    ∧ (∀ key' entry, key' ≠ key →
         items !! key' = Some entry → now_sweep clk ≤ expiresAt entry →
         items' !! key' = Some entry)
    ∧ (∀ entry, 0 < ttl → items !! key = Some entry →
         now_lookup clk < expiresAt entry → items' = items)).
  { intros Hstale. unfold buildAndStore.
    destruct (build b) as [[bytes [e|]] b']; cbn [fst snd].
    - exists items. repeat split; try done.
    - eexists. split; [reflexivity|]. repeat split.
      + intros key' entry Hne.
        destruct (512 <? size _)%nat.
        * rewrite sweep_lookup, lookup_insert_ne by done. by intros [? _].
        * by rewrite lookup_insert_ne.
      + intros key' entry Hne Hin Hexp.
        destruct (512 <? size _)%nat.
        * rewrite sweep_lookup, lookup_insert_ne by done. by split.
        * by rewrite lookup_insert_ne.
      + intros entry _ Hin Hfresh. apply Hstale in Hin.
        unfold Time_Before in Hin. apply Z.ltb_ge in Hin. lia. }
  unfold getOrBuild.
  destruct (Z.leb_spec ttl 0) as [Httl|Httl].
  - destruct (build b) as [r b']. cbn [fst snd]. exact Hsame.
  - destruct (items !! key) as [cached|] eqn:Hkey.
    + destruct (Time_Before (now_lookup clk) (expiresAt cached)) eqn:Hb.
      * cbn [fst snd]. exact Hsame.
      * apply Hstore. by intros ? [= <-].
    + apply Hstore. by intros ? [=].
Qed.

(** The cache never serves an expired entry: when a call of [getOrBuild]
    on a cache returns without having run the builder, the key had an entry
    that had not expired at the lookup, the bytes returned are that
    entry's, and the cache is unchanged. *)
Theorem getOrBuild_served_is_fresh {B} items key ttl (build : builder B) clk b n :
  (getOrBuild (Some items) key ttl (counting build) clk (b, n)).2.2 = n →
  ∃ cached, 0 < ttl ∧ items !! key = Some cached
    ∧ now_lookup clk < expiresAt cached
    ∧ getOrBuild (Some items) key ttl (counting build) clk (b, n)
      = ((data cached, None), Some items, (b, n)).
Proof.
  unfold getOrBuild.
  destruct (Z.leb_spec ttl 0) as [Httl|Httl].
  - rewrite counting_eq. cbn [fst snd]. lia.
  - destruct (items !! key) as [cached|] eqn:Hkey.
    + destruct (Time_Before (now_lookup clk) (expiresAt cached)) eqn:Hb.
      * intros _. exists cached. unfold Time_Before in Hb. apply Z.ltb_lt in Hb. done.
      * rewrite buildAndStore_runs_builder. lia.
    + rewrite buildAndStore_runs_builder. lia.
Qed.

Lemma getOrBuild_served_is_fresh_witness :
  let fresh := {| data := [x89; x50]; expiresAt := 100 |} in
  let build : builder unit := λ _, (([x02], None), tt) in
  ∃ cached, 0 < time_Hour
    ∧ ({["k" := fresh]} : gmap string cachedImage) !! "k" = Some cached
    ∧ now_lookup (at_instant 99) < expiresAt cached
    ∧ getOrBuild (Some {["k" := fresh]}) "k" time_Hour (counting build)
        (at_instant 99) (tt, 0%nat)
      = ((data cached, None), Some {["k" := fresh]}, (tt, 0%nat)).
Proof.
  intros fresh build.
  apply (getOrBuild_served_is_fresh {["k" := fresh]} "k" time_Hour build
           (at_instant 99) tt 0%nat).
  vm_compute. reflexivity.
Defined.

Lemma sweep_size now (items : gmap string cachedImage) : (size (sweep now items) ≤ size items)%nat.
Proof. unfold sweep. apply map_size_filter. Qed.

(** After a call of [getOrBuild] that stored an image, the cache holds
    more than 512 entries only if none of them has expired at the time of
    the sweep; and it has grown by one entry at most. *)
Theorem getOrBuild_sweeps {B} items key ttl (build : builder B) clk b bytes b1 :
  0 < ttl →
  (∀ cached, items !! key = Some cached → expiresAt cached ≤ now_lookup clk) →
  build b = ((bytes, None), b1) →
  ∃ items', (getOrBuild (Some items) key ttl build clk b).1.2 = Some items'
    ∧ ((size items' ≤ 512)%nat ∨ all_unexpired (now_sweep clk) items')
    ∧ (size items' ≤ S (size items))%nat.
Proof.
  intros Httl Hstale Hbuild.
  rewrite (getOrBuild_miss items key ttl build clk b Httl Hstale).
  unfold buildAndStore. rewrite Hbuild. cbn [fst snd].
  eexists. split; [reflexivity|].
  set (items1 := <[key := _]> items).
  assert (Hsize : (size items1 ≤ S (size items))%nat).
  { unfold items1. destruct (items !! key) as [old|] eqn:Hkey.
    - rewrite map_size_insert_Some by (by rewrite Hkey). lia.
    - rewrite map_size_insert_None by done. lia. }
  destruct (Nat.ltb_spec 512 (size items1)) as [Hbig|Hsmall].
  - split.
    + right. intros k v Hv. apply sweep_lookup in Hv as [_ Hv]. exact Hv.
    + pose proof (sweep_size (now_sweep clk) items1). lia.
  - split; [left; lia | exact Hsize].
Qed.

Lemma getOrBuild_sweeps_witness :
  let build : builder unit := λ _, (([x89; x50], None), tt) in
  ∃ items', (getOrBuild (Some ∅) "today:0" time_Hour build (at_instant 0) tt).1.2
            = Some items'
    ∧ ((size items' ≤ 512)%nat ∨ all_unexpired (now_sweep (at_instant 0)) items')
    ∧ (size items' ≤ S (size (∅ : gmap string cachedImage)))%nat.
Proof.
  intros build.
  apply (getOrBuild_sweeps ∅ "today:0" time_Hour build (at_instant 0) tt [x89; x50] tt).
  - vm_compute. reflexivity.
  - intros cached Hc. by rewrite lookup_empty in Hc.
  - reflexivity.
Defined.

(** ** Persistence, continued *)

Lemma append_neq (s t : string) : t ≠ "" → s +:+ t ≠ s.
Proof.
  intros Ht. induction s as [|a s IH]; cbn; [exact Ht|].
  intros [= Heq]. by apply IH.
Qed.

Lemma drop_while_length f l : (length (drop_while f l) ≤ length l)%nat.
Proof.
  induction l as [|a l IH]; cbn [drop_while]; [done|].
  destruct (f a); cbn [length]; lia.
Qed.

Lemma length_list_ascii_of_string s :
  length (list_ascii_of_string s) = String.length s.
Proof. induction s as [|a s IH]; cbn; [done | by rewrite IH]. Qed.

Lemma length_string_of_list_ascii l :
  String.length (string_of_list_ascii l) = length l.
Proof. induction l as [|a l IH]; cbn; [done | by rewrite IH]. Qed.

Lemma path_parent_shorter path parent :
  path_parent path = Some parent → (String.length parent < String.length path)%nat.
Proof.
  unfold path_parent. cbv zeta.
  pose proof (drop_while_length (λ a, negb (is_separator a))
                (drop_while is_separator (rev (list_ascii_of_string path)))) as H1.
  pose proof (drop_while_length is_separator (rev (list_ascii_of_string path))) as H2.
  rewrite length_rev, length_list_ascii_of_string in H2.
  destruct (drop_while _ (drop_while _ _)) as [|sep [|a rest]]; try discriminate.
  intros [= <-]. rewrite length_string_of_list_ascii.
  rewrite ?length_app, ?length_rev. cbn [length] in *. lia.
Qed.

(** The recursion of [os.MkdirAll] does not depend on the fuel, once
    there is as much of it as the path is long. *)
Lemma MkdirAll_from_fuel n m (d : gmap string node) path :
  (String.length path ≤ n)%nat → (String.length path ≤ m)%nat →
  MkdirAll_from n d path = MkdirAll_from m d path.
Proof.
  revert m d path. induction n as [|n IH]; intros m d path Hn Hm.
  - destruct m as [|m]; [done|]. cbn [MkdirAll_from].
    destruct (path_parent path) as [parent|] eqn:Hp; [|done].
    apply path_parent_shorter in Hp. lia.
  - destruct m as [|m]; cbn [MkdirAll_from].
    + destruct (path_parent path) as [parent|] eqn:Hp; [|done].
      apply path_parent_shorter in Hp. lia.
    + destruct (path_parent path) as [parent|] eqn:Hp; [|done].
      apply path_parent_shorter in Hp. rewrite (IH m d parent) by lia. done.
Qed.

Lemma path_chain_fuel n m path :
  (String.length path ≤ n)%nat → (String.length path ≤ m)%nat →
  path_chain n path = path_chain m path.
Proof.
  revert m path. induction n as [|n IH]; intros m path Hn Hm.
  - destruct m as [|m]; [done|]. cbn [path_chain].
    destruct (path_parent path) as [parent|] eqn:Hp; [|done].
    apply path_parent_shorter in Hp. lia.
  - destruct m as [|m]; cbn [path_chain].
    + destruct (path_parent path) as [parent|] eqn:Hp; [|done].
      apply path_parent_shorter in Hp. lia.
    + destruct (path_parent path) as [parent|] eqn:Hp; [|done].
      apply path_parent_shorter in Hp. rewrite (IH m parent) by lia. done.
Qed.

(** What [os.MkdirAll] changes: directories appear where nothing was, on
    the path and its parents, and nothing else changes. *)
Lemma MkdirAll_from_changes fuel (d : gmap string node) path q :
  (MkdirAll_from fuel d path).1 !! q = d !! q
  ∨ (d !! q = None ∧ (MkdirAll_from fuel d path).1 !! q = Some Dir
     ∧ q ∈ path_chain fuel path).
Proof.
  revert d path. induction fuel as [|n IH]; intros d path; cbn [MkdirAll_from path_chain].
  - destruct (d !! path) as [[c|]|] eqn:Hpath; cbn [fst]; [by left | by left|].
    unfold os_Mkdir. rewrite Hpath. cbn [fst].
    destruct (decide (q = path)) as [->|Hne].
    + right. rewrite lookup_insert_eq. split; [done|]. split; [done|]. by left.
    + left. by rewrite lookup_insert_ne.
  - destruct (d !! path) as [[c|]|] eqn:Hpath; cbn [fst]; [by left | by left|].
    assert (Hparent : ∃ d1 err1,
      match path_parent path with
      | Some parent => MkdirAll_from n d parent
      | None => (d, None)
      end = (d1, err1)
      ∧ (d1 !! q = d !! q
         ∨ (d !! q = None ∧ d1 !! q = Some Dir
            ∧ q ∈ match path_parent path with
                  | Some parent => path_chain n parent
                  | None => []
                  end))).
    { destruct (path_parent path) as [parent|].
      - specialize (IH d parent). destruct (MkdirAll_from n d parent) as [d1 err1].
        by exists d1, err1.
      - exists d, None. split; [done | by left]. }
    destruct Hparent as (d1 & err1 & -> & Hd1).
    assert (Hstep : d1 !! q = d !! q
                    ∨ (d !! q = None ∧ d1 !! q = Some Dir
                       ∧ q ∈ path :: match path_parent path with
                                     | Some parent => path_chain n parent
                                     | None => []
                                     end)).
    { destruct Hd1 as [Heq|(Hnone & Hdir & Hin)]; [by left|].
      right. split; [done|]. split; [done|]. by right. }
    destruct err1 as [e|]; cbn [fst]; [exact Hstep|].
    unfold os_Mkdir. destruct (d1 !! path) as [node1|] eqn:Hpath1.
    + cbv beta iota zeta. rewrite Hpath1. destruct node1; cbn [fst]; exact Hstep.
    + cbn [fst]. destruct (decide (q = path)) as [->|Hne].
      * right. rewrite lookup_insert_eq. split; [done|]. split; [done|]. by left.
      * rewrite lookup_insert_ne by done. exact Hstep.
Qed.

Lemma os_MkdirAll_changes (d : gmap string node) dir q :
  (os_MkdirAll d dir).1 !! q = d !! q
  ∨ (d !! q = None ∧ (os_MkdirAll d dir).1 !! q = Some Dir
     ∧ q ∈ path_chain (String.length dir) dir).
Proof. apply MkdirAll_from_changes. Qed.

Lemma os_MkdirAll_files (d : gmap string node) dir q raw :
  (os_MkdirAll d dir).1 !! q = Some (File raw) ↔ d !! q = Some (File raw).
Proof.
  destruct (os_MkdirAll_changes d dir q) as [->|(Hnone & Hdir & _)]; [done|].
  rewrite Hnone, Hdir. split; intros [=].
Qed.

(** The write of a snapshot replaces the state file in one step: a write
    that fails leaves the content of the state file as it was; a write that
    succeeds leaves the encoded snapshot in the state file and no temporary
    file; apart from the state file and its temporary file, all that can
    change is that the directory of the state file and its parents are
    created where there was nothing; and with a blank path nothing is
    written. *)
Theorem writeStateSnapshot_atomic `{GoLib} path snapshot (d : gmap string node) :
  let p := strings_TrimSpace path in
  let out := writeStateSnapshot path snapshot d in
  (∀ e raw, out.2 = Some e →
     out.1 !! p = Some (File raw) ↔ d !! p = Some (File raw))
  ∧ (p ≠ "" → out.2 = None →
     ∃ raw, json_MarshalIndent {| Users := snapshot |} = Ok raw
       ∧ out.1 !! p = Some (File raw) ∧ out.1 !! (p +:+ ".tmp") = None)
  ∧ (∀ q, q ≠ p → q ≠ p +:+ ".tmp" →
     out.1 !! q = d !! q
     ∨ (d !! q = None ∧ out.1 !! q = Some Dir
        ∧ q ∈ path_chain (String.length (filepath_Dir p)) (filepath_Dir p)))
  ∧ (p = "" → out = (d, None)).
Proof.
  intros p out. subst out. unfold writeStateSnapshot. fold p.
  assert (Htmp : p +:+ ".tmp" ≠ p) by (by apply append_neq).
  case_bool_decide as Hp; [split; [done|]; split; [done|]; split; [by left | done]|].
  destruct (json_MarshalIndent {| Users := snapshot |}) as [raw|e0];
    [|split; [done|]; split; [done|]; split; [by left | done]].
  set (dir := filepath_Dir p).
  assert (Hmk : ∃ d1 err1,
    (if bool_decide (dir ≠ ".") && bool_decide (dir ≠ "")
     then os_MkdirAll d dir else (d, None)) = (d1, err1)
    ∧ (∀ q r, d1 !! q = Some (File r) ↔ d !! q = Some (File r))
    ∧ (∀ q, d1 !! q = d !! q
            ∨ (d !! q = None ∧ d1 !! q = Some Dir
               ∧ q ∈ path_chain (String.length dir) dir))).
  { destruct (bool_decide (dir ≠ ".") && bool_decide (dir ≠ "")).
    - pose proof (os_MkdirAll_files d dir) as Hf.
      pose proof (os_MkdirAll_changes d dir) as Hc.
      destruct (os_MkdirAll d dir) as [d1 err1]. by exists d1, err1.
    - exists d, None. split; [done|]. split; [done|]. by left. }
  destruct Hmk as (d1 & err1 & -> & Hfiles & Hchange).
  destruct err1 as [e1|].
  { cbn [fst snd].
    split; [intros e r _; apply Hfiles|].
    split; [done|]. split; [intros q _ _; apply Hchange | done]. }
  unfold os_WriteFile.
  assert (Hrename : ∀ d2, d2 = <[p +:+ ".tmp" := File raw]> d1 →
    let out := os_Rename d2 (p +:+ ".tmp") p in
    (∀ e r, out.2 = Some e → out.1 !! p = Some (File r) ↔ d !! p = Some (File r))
    ∧ (p ≠ "" → out.2 = None →
       ∃ raw0, Ok raw = Ok raw0
         ∧ out.1 !! p = Some (File raw0) ∧ out.1 !! (p +:+ ".tmp") = None)
    ∧ (∀ q, q ≠ p → q ≠ p +:+ ".tmp" →
       out.1 !! q = d !! q
       ∨ (d !! q = None ∧ out.1 !! q = Some Dir
          ∧ q ∈ path_chain (String.length dir) dir))
    ∧ (p = "" → out = (d, None))).
  { intros d2 ->. unfold os_Rename. rewrite lookup_insert_eq.
    rewrite lookup_insert_ne by done.
    destruct (d1 !! p) as [[c|]|] eqn:Hd1; cbn [fst snd].
    - split; [done|]. split; [|split; [|done]].
      + intros _ _. exists raw. split; [done|].
        rewrite lookup_insert_eq. split; [done|].
        rewrite lookup_insert_ne by done. apply lookup_delete_eq.
      + intros q Hq1 Hq2.
        rewrite lookup_insert_ne, lookup_delete_ne, lookup_insert_ne by done.
        apply Hchange.
    - split; [|split; [done|split; [|done]]].
      + intros e r _. rewrite lookup_insert_ne by done. rewrite Hd1.
        rewrite <- Hfiles, Hd1. done.
      + intros q Hq1 Hq2. rewrite lookup_insert_ne by done. apply Hchange.
    - split; [done|]. split; [|split; [|done]].
      + intros _ _. exists raw. split; [done|].
        rewrite lookup_insert_eq. split; [done|].
        rewrite lookup_insert_ne by done. apply lookup_delete_eq.
      + intros q Hq1 Hq2.
        rewrite lookup_insert_ne, lookup_delete_ne, lookup_insert_ne by done.
        apply Hchange. }
  destruct (d1 !! (p +:+ ".tmp")) as [[c|]|] eqn:Htmp1.
  - by apply Hrename.
  - cbn [fst snd].
    split; [intros e r _; apply Hfiles|].
    split; [done|]. split; [intros q _ _; apply Hchange | done].
  - by apply Hrename.
Qed.

(** The state file [sub/dir/state.json] on an empty disk: the write makes
    [sub] and [sub/dir] and leaves the snapshot in the file; below a regular
    file [sub] it fails and changes nothing. *)
Lemma writeStateSnapshot_nested :
  let lib := {| strings_ToLower := ToLower_ascii;
                json_MarshalIndent := λ _, Ok "{}";
                json_Unmarshal := λ _, Err "unused";
                filepath_Dir := Dir_clean |} in
  @writeStateSnapshot lib "sub/dir/state.json" ∅ ∅
  = ({[ "sub" := Dir; "sub/dir" := Dir; "sub/dir/state.json" := File "{}" ]}, None)
  ∧ @writeStateSnapshot lib "sub/dir/state.json" ∅ {[ "sub" := File "x" ]}
    = ({[ "sub" := File "x" ]}, Some "not a directory").
Proof. split; vm_compute; reflexivity. Qed.

Lemma loadFromDisk_persistPath `{GoLib} s (d : gmap string node) :
  persistPath (loadFromDisk s d).1 = persistPath s.
Proof.
  unfold loadFromDisk. cbv zeta. case_bool_decide; [done|].
  destruct (os_ReadFile d _) as [raw|e]; [|by destruct (os_IsNotExist e)].
  case_bool_decide; [done|]. by destruct (json_Unmarshal raw).
Qed.

(** [main] never runs with persistence switched off: the store it starts
    with has the trimmed STATE_FILE as its path, or state.json when that
    is blank, and the subscriptions it restarts are those of the store
    with notifications on and a region that is not blank. *)
Theorem main_startup_persists `{GoLib} STATE_FILE (d : gmap string node) state restored :
  main_startup STATE_FILE d = Started state restored →
  strings_TrimSpace (persistPath state) ≠ ""
  ∧ persistPath state
    = (if bool_decide (strings_TrimSpace STATE_FILE = "") then "state.json"
       else strings_TrimSpace STATE_FILE)
  ∧ restored = ActiveNotificationRegions state
  ∧ ∀ chatID region, restored !! chatID = Some region →
      ∃ settings, users state !! chatID = Some settings
        ∧ Notifications settings = true
        ∧ region = strings_TrimSpace (Region settings) ∧ region ≠ "".
Proof.
  unfold main_startup, newStateStore. cbv zeta.
  set (statePath := if bool_decide (strings_TrimSpace STATE_FILE = "")
                    then "state.json" else strings_TrimSpace STATE_FILE).
  assert (Hfix : strings_TrimSpace statePath = statePath).
  { unfold statePath. case_bool_decide; [vm_compute; reflexivity|].
    apply strings_TrimSpace_idem. }
  assert (Hne : statePath ≠ "").
  { unfold statePath. by case_bool_decide. }
  pose proof (loadFromDisk_persistPath
                {| users := ∅; persistPath := strings_TrimSpace statePath |} d) as Hpath.
  destruct (loadFromDisk _ d) as [store [err|]]; [discriminate|].
  cbn [fst persistPath] in Hpath. intros [= <- <-].
  rewrite Hpath, !Hfix. split; [exact Hne|]. split; [reflexivity|].
  split; [reflexivity|].
  intros chatID region Hr. by apply ActiveNotificationRegions_lookup.
Qed.

Lemma main_startup_persists_witness :
  @main_startup sample_lib "  " ∅
  = Started {| users := ∅; persistPath := "state.json" |} ∅
  ∧ strings_TrimSpace "state.json" ≠ "".
Proof.
  assert (Hrun : @main_startup sample_lib "  " ∅
                 = Started {| users := ∅; persistPath := "state.json" |} ∅)
    by (vm_compute; reflexivity).
  split; [exact Hrun|].
  exact (proj1 (@main_startup_persists sample_lib "  " ∅ _ _ Hrun)).
Defined.

(** A subscription survives a restart: when [SetRegion] has written its
    snapshot, [main] started on the resulting disk runs with the same
    records and restarts the reminders of the chat for the trimmed
    region. *)
Theorem subscription_survives_restart `{GoLib} s (d : gmap string node) chatID region :
  chat_ids_int64 (users s) → is_int64 chatID →
  strings_TrimSpace (persistPath s) ≠ "" →
  strings_TrimSpace region ≠ "" →
  let s' := (SetRegion s d chatID region).1 in
  let d' := (SetRegion s d chatID region).2 in
  json_round_trips {| Users := snapshotLocked s' |} →
  (writeStateSnapshot (persistPath s') (snapshotLocked s') d).2 = None →
  ∃ state restored,
    main_startup (persistPath s) d' = Started state restored
    ∧ users state = users s'
    ∧ restored !! chatID = Some (strings_TrimSpace region).
Proof.
  intros Hids Hid Hpath Hregion s' d' Hjson Hwrite.
  assert (Hd' : writeStateSnapshot (persistPath s') (snapshotLocked s') d = (d', None)).
  { unfold d', SetRegion, update_and_persist. cbv zeta. cbn [fst snd].
    rewrite <- Hwrite. by destruct (writeStateSnapshot _ _ d). }
  assert (Hpath' : persistPath s' = persistPath s) by reflexivity.
  assert (Hids' : chat_ids_int64 (users s')).
  { unfold s', SetRegion. rewrite update_and_persist_users.
    by apply map_Forall_insert_2. }
  pose proof (newStateStore_after_write s' d d' Hids'
                ltac:(by rewrite Hpath') Hjson Hd') as Hnew.
  rewrite Hpath' in Hnew.
  unfold main_startup. cbv zeta.
  rewrite (bool_decide_eq_false_2 _ Hpath).
  assert (Hnew' : newStateStore (strings_TrimSpace (persistPath s)) d'
                  = Ok {| users := users s';
                          persistPath := strings_TrimSpace (persistPath s) |}).
  { unfold newStateStore in *. by rewrite strings_TrimSpace_idem. }
  rewrite Hnew'. eexists _, _. split; [reflexivity|]. split; [reflexivity|].
  apply ActiveNotificationRegions_lookup. cbn [users].
  eexists. split.
  - unfold s', SetRegion. rewrite update_and_persist_users. apply lookup_insert_eq.
  - done.
Qed.

Lemma subscription_survives_restart_witness :
  let s := {| users := {[ 42 := {| Language := "tg"; Region := "";
                                   Notifications := false; RegionSelected := false |};
                          7 := {| Language := "ru"; Region := "";
                                  Notifications := true; RegionSelected := true |} ]};
              persistPath := "state.json" |} in
  ∃ state restored,
    @main_startup sample_lib "state.json" (@SetRegion sample_lib s ∅ 42 "Душанбе").2
    = Started state restored
    ∧ users state = users (@SetRegion sample_lib s ∅ 42 "Душанбе").1
    ∧ restored !! 42 = Some (strings_TrimSpace "Душанбе").
Proof.
  intros s.
  apply (@subscription_survives_restart sample_lib s ∅ 42 "Душанбе").
  - unfold chat_ids_int64. apply (bool_decide_unpack _). vm_compute. exact I.
  - apply (bool_decide_unpack _). vm_compute. exact I.
  - vm_compute. discriminate.
  - vm_compute. discriminate.
  - intros raw Hraw. vm_compute in Hraw. injection Hraw as <-.
    split; [vm_compute; reflexivity | vm_compute; discriminate].
  - vm_compute. reflexivity.
Defined.

(** ** The store, continued *)

Lemma normalizeLang_codes `{GoLib} raw :
  normalizeLang raw ∈ [""; langTG; langRU; langEN; langUZ].
Proof.
  unfold normalizeLang. cbv zeta.
  repeat match goal with |- context [bool_decide ?P] => destruct (bool_decide P) end;
    set_solver.
Qed.

(** [SetNotifications] changes the flag of one chat and [SetLanguage] its
    language, which is stored as one of the four codes or empty; every
    other field and every other chat is left as it was. *)
Theorem SetNotifications_SetLanguage_fields `{GoLib} s (d : gmap string node) chatID :
  let old := default UserSettings_zero (users s !! chatID) in
  (∀ enabled,
     users (SetNotifications s d chatID enabled).1 !! chatID =
       Some {| Language := Language old; Region := Region old;
               Notifications := enabled; RegionSelected := RegionSelected old |}
     ∧ (∀ other, other ≠ chatID →
          users (SetNotifications s d chatID enabled).1 !! other = users s !! other))
  ∧ (∀ lang,
     users (SetLanguage s d chatID lang).1 !! chatID =
       Some {| Language := normalizeLang lang; Region := Region old;
               Notifications := Notifications old;
               RegionSelected := RegionSelected old |}
     ∧ normalizeLang lang ∈ [""; langTG; langRU; langEN; langUZ]
     ∧ (∀ other, other ≠ chatID →
          users (SetLanguage s d chatID lang).1 !! other = users s !! other)).
Proof.
  intros old. split.
  - intros enabled. unfold SetNotifications. rewrite update_and_persist_users.
    split; [apply lookup_insert_eq|]. intros other Hne. by rewrite lookup_insert_ne.
  - intros lang. unfold SetLanguage. rewrite update_and_persist_users.
    split; [apply lookup_insert_eq|]. split.
    + apply normalizeLang_codes.
    + intros other Hne. by rewrite lookup_insert_ne.
Qed.

(** Loading a state file into a store: a key of the file that is not the
    decimal form of a chat id is skipped without an error, a record of the
    file replaces the store's record of the same chat, and the store's
    other records stay. *)
Theorem loadFromDisk_skips_foreign_keys `{GoLib} s (d : gmap string node) raw data :
  strings_TrimSpace (persistPath s) ≠ "" →
  d !! strings_TrimSpace (persistPath s) = Some (File raw) →
  strings_TrimSpace raw ≠ "" →
  json_Unmarshal raw = Ok data →
  keys_parse_apart (Users data) →
  ∃ s', loadFromDisk s d = (s', None)
    ∧ persistPath s' = persistPath s
    ∧ ∀ id x,
        users s' !! id = Some x ↔
        (∃ key, Users data !! key = Some x ∧ strconv_ParseInt key = Some id)
        ∨ ((∀ key, is_Some (Users data !! key) → strconv_ParseInt key ≠ Some id)
           ∧ users s !! id = Some x).
Proof.
  intros Hpath Hfile Hraw Hjson Hkeys.
  unfold loadFromDisk, os_ReadFile. cbv zeta.
  rewrite (bool_decide_eq_false_2 _ Hpath), Hfile.
  rewrite (bool_decide_eq_false_2 _ Hraw), Hjson.
  eexists. split; [reflexivity|]. split; [reflexivity|].
  cbn [users]. by apply loadUsers_lookup.
Qed.

Lemma loadFromDisk_skips_foreign_keys_witness :
  let file := json_text [ "{'users': {'42': {'Language': 'tg'}, 'n/a': {}}}" ] in
  let lib :=
    {| strings_ToLower := ToLower_ascii;
       json_MarshalIndent := λ _, Err "json: outside the sample";
       json_Unmarshal := λ raw,
         if decide (raw = file)
         then Ok {| Users := {[ "42" := {| Language := "tg"; Region := "";
                                           Notifications := false;
                                           RegionSelected := false |};
                                "n/a" := UserSettings_zero ]} |}
         else Err "invalid character";
       filepath_Dir := Dir_clean |} in
  let s := {| users := {[ 7 := UserSettings_zero ]}; persistPath := "state.json" |} in
  ∃ s', @loadFromDisk lib s {[ "state.json" := File file ]} = (s', None)
    ∧ users s' !! 42 = Some {| Language := "tg"; Region := "";
                               Notifications := false; RegionSelected := false |}
    ∧ users s' !! 7 = Some UserSettings_zero
    ∧ size (users s') = 2%nat.
Proof.
  intros file lib s.
  destruct (@loadFromDisk_skips_foreign_keys lib s {[ "state.json" := File file ]} file
              {| Users := {[ "42" := {| Language := "tg"; Region := "";
                                        Notifications := false;
                                        RegionSelected := false |};
                             "n/a" := UserSettings_zero ]} |})
    as (s' & Hload & _ & _).
  - vm_compute. discriminate.
  - vm_compute. reflexivity.
  - vm_compute. discriminate.
  - vm_compute. reflexivity.
  - intros k1 k2 id [x1 H1] [x2 H2] Hp1 Hp2. cbn [Users] in H1, H2.
    apply lookup_insert_Some in H1 as [[<- _]|[_ H1]];
      apply lookup_insert_Some in H2 as [[<- _]|[_ H2]]; try reflexivity.
    + apply lookup_singleton_Some in H2 as [<- _].
      vm_compute in Hp2. discriminate.
    + apply lookup_singleton_Some in H1 as [<- _].
      vm_compute in Hp1. discriminate.
    + apply lookup_singleton_Some in H1 as [<- _].
      by apply lookup_singleton_Some in H2 as [<- _].
  - exists s'. split; [exact Hload|].
    assert (Hs' : s' = (@loadFromDisk lib s {[ "state.json" := File file ]}).1)
      by (by rewrite Hload).
    rewrite Hs'. repeat split; vm_compute; reflexivity.
Defined.

(** ** Handlers, continued *)

(** What the handlers are made of: whatever these five steps keep, every
    update keeps. *)
Section handler_invariants.
Context `{GoLib}.
Variable I : Bot → Prop.
Hypothesis I_Get : ∀ b chatID, I b → I (bot_Get b chatID).2.
Hypothesis I_SetLanguage : ∀ b chatID lang,
  I b → I (with_state b (SetLanguage (state b) (fs b) chatID lang)).
Hypothesis I_SetRegion : ∀ b chatID region,
  I b →
  I (scheduler_Start (with_state b (SetRegion (state b) (fs b) chatID region))
       chatID region).
Hypothesis I_notify_on : ∀ b chatID settings,
  I b → users (state b) !! chatID = Some settings →
  I (scheduler_Start (with_state b (SetNotifications (state b) (fs b) chatID true))
       chatID (Region settings)).
Hypothesis I_notify_off : ∀ b chatID,
  I b →
  I (scheduler_Stop (with_state b (SetNotifications (state b) (fs b) chatID false))
       chatID).

Lemma requireLanguage_preserves b chatID : I b → I (requireLanguage b chatID).2.
Proof using I_Get I_SetLanguage.
  intros Hb. unfold requireLanguage.
  pose proof (I_Get b chatID Hb) as Hget.
  destruct (bot_Get b chatID) as [settings b1]. cbn [snd] in Hget.
  case_bool_decide; [done|]. case_bool_decide; [|done].
  cbn [snd]. by apply I_SetLanguage.
Qed.

Lemma setNotifications_preserves b chatID enabled :
  I b → I (setNotifications b chatID enabled).
Proof using I_Get I_notify_on I_notify_off.
  intros Hb. unfold setNotifications.
  pose proof (I_Get b chatID Hb) as Hget.
  pose proof (bot_Get_state b chatID) as Hst.
  pose proof (bot_Get_settings b chatID) as Hset.
  destruct (bot_Get b chatID) as [settings b1]. cbn [fst snd] in Hget, Hst, Hset.
  case_bool_decide; [done|].
  destruct enabled; [|by apply I_notify_off].
  apply I_notify_on; [done|].
  destruct (Get_users (state b) chatID) as (Hlook & _ & _).
  by rewrite Hst, Hset.
Qed.

Lemma handleUpdate_preserves b u : I b → I (handleUpdate b u).
Proof using All.
  intros Hb. destruct u as [chatID lower | cb]; cbn [handleUpdate].
  - unfold handleMessage. case_bool_decide; [by apply I_Get|].
    pose proof (requireLanguage_preserves b chatID Hb) as Hreq.
    destruct (requireLanguage b chatID) as [[lang ok] b1]. cbn [snd] in Hreq.
    destruct ok; cbn [negb]; [|done].
    repeat case_bool_decide; try done; by apply setNotifications_preserves.
  - unfold handleCallback. case_bool_decide; [done|].
    destruct (strings_HasPrefix (CallbackData cb) "lang:").
    + by apply I_Get, I_SetLanguage.
    + destruct (strings_HasPrefix (CallbackData cb) "region:"); [|done].
      pose proof (requireLanguage_preserves b (default (FromID cb) (MessageChat cb)) Hb)
        as Hreq.
      destruct (requireLanguage b _) as [[lang ok] b1]. cbn [snd] in Hreq.
      destruct ok; cbn [negb]; [|done]. by apply I_SetRegion.
Qed.

Lemma run_preserves b us : I b → I (run b us).
Proof using All.
  unfold run. revert b. induction us as [|u us IH]; intros b Hb; cbn; [done|].
  by apply IH, handleUpdate_preserves.
Qed.
End handler_invariants.

Lemma table_agrees_update `{GoLib} f b chatID :
  (∀ settings, Notifications (f settings) = Notifications settings
               ∧ Region (f settings) = Region settings) →
  table_agrees b →
  table_agrees (with_state b (update_and_persist f (state b) (fs b) chatID)).
Proof.
  intros Hf Hb id. cbn [active with_state state fst]. rewrite update_and_persist_users.
  rewrite (Hb id). destruct (decide (chatID = id)) as [->|Hne].
  - rewrite lookup_insert_eq. cbn [mbind option_bind].
    destruct (Hf (default UserSettings_zero (users (state b) !! id))) as [-> ->].
    by destruct (users (state b) !! id).
  - by rewrite lookup_insert_ne.
Qed.

Lemma table_agrees_started `{GoLib} f b chatID region :
  (let settings := f (default UserSettings_zero (users (state b) !! chatID)) in
   Notifications settings = true ∧ Region settings = region) →
  table_agrees b →
  table_agrees (scheduler_Start
                  (with_state b (update_and_persist f (state b) (fs b) chatID))
                  chatID region).
Proof.
  intros Hf Hb id. cbn [active scheduler_Start with_state state fst].
  rewrite update_and_persist_users.
  destruct (decide (chatID = id)) as [->|Hne].
  - rewrite !lookup_insert_eq. cbn [mbind option_bind].
    by destruct Hf as [-> ->].
  - rewrite !lookup_insert_ne by done. apply Hb.
Qed.

Lemma table_agrees_stopped `{GoLib} f b chatID :
  (∀ settings, Notifications (f settings) = false) →
  table_agrees b →
  table_agrees (scheduler_Stop
                  (with_state b (update_and_persist f (state b) (fs b) chatID))
                  chatID).
Proof.
  intros Hf Hb id. cbn [active scheduler_Stop with_state state fst].
  rewrite update_and_persist_users.
  destruct (decide (chatID = id)) as [->|Hne].
  - rewrite lookup_delete_eq, lookup_insert_eq. cbn [mbind option_bind].
    by rewrite Hf.
  - rewrite lookup_delete_ne, lookup_insert_ne by done. apply Hb.
Qed.

Lemma table_agrees_Get b chatID : table_agrees b → table_agrees (bot_Get b chatID).2.
Proof.
  intros Hb id. pose proof (bot_Get_state b chatID) as Hst.
  assert (Hact : active (bot_Get b chatID).2 = active b).
  { unfold bot_Get. by destruct (Get (state b) chatID). }
  rewrite Hact, Hst, (Hb id). unfold Get.
  destruct (users (state b) !! chatID) as [settings|] eqn:Hc; cbn [snd]; [done|].
  cbn [users]. destruct (decide (chatID = id)) as [->|Hne].
  - by rewrite lookup_insert_eq, Hc.
  - by rewrite lookup_insert_ne.
Qed.

(** The scheduler's table follows the store: when the table agrees with
    the store (a chat has a loop exactly when its notifications are on, for
    the region stored), it still does after every sequence of updates. *)
Theorem run_table_agrees `{GoLib} b us : table_agrees b → table_agrees (run b us).
Proof.
  apply run_preserves.
  - apply table_agrees_Get.
  - intros b0 chatID lang. unfold SetLanguage. by apply table_agrees_update.
  - intros b0 chatID region. unfold SetRegion. by apply table_agrees_started.
  - intros b0 chatID settings Hb0 Hc. unfold SetNotifications.
    apply table_agrees_started; [|done]. by rewrite Hc.
  - intros b0 chatID. unfold SetNotifications. by apply table_agrees_stopped.
Qed.

Lemma run_table_agrees_witness :
  let cb data := UCallback {| FromID := 42; CallbackData := data; MessageChat := Some 42 |} in
  let us := [cb "lang:tg"; cb "region:Душанбе"; UMessage 42 "/notifyoff";
             UMessage 7 "/start"; cb "region:"] in
  table_agrees (@run sample_lib (fresh_bot "state.json") us)
  ∧ active (@run sample_lib (fresh_bot "state.json") us) !! 42 = Some "".
Proof.
  intros cb us. split; [|vm_compute; reflexivity].
  apply (@run_table_agrees sample_lib).
  intros id. cbn. by rewrite !lookup_empty.
Defined.

Lemma languages_supported_update `{GoLib} f s d chatID :
  (∀ settings, Language settings ∈ [""; langTG; langRU; langEN; langUZ] →
               Language (f settings) ∈ [""; langTG; langRU; langEN; langUZ]) →
  languages_supported s →
  languages_supported (update_and_persist f s d chatID).1.
Proof.
  intros Hf Hs id settings. rewrite update_and_persist_users.
  destruct (decide (chatID = id)) as [->|Hne].
  - rewrite lookup_insert_eq. intros [= <-]. apply Hf.
    destruct (users s !! id) as [old|] eqn:Hc; cbn [default];
      [by apply (Hs id) | set_solver].
  - rewrite lookup_insert_ne by done. apply Hs.
Qed.

(** Only supported languages are stored: when every language of the store
    is one of the four codes or empty, it still is after every sequence of
    updates; and [userLang] answers with one of the four codes. *)
Theorem run_languages_supported `{GoLib} b us :
  languages_supported (state b) →
  languages_supported (state (run b us))
  ∧ ∀ chatID, (userLang (run b us) chatID).1 ∈ [langTG; langRU; langEN; langUZ].
Proof.
  intros Hb. split.
  - revert Hb. apply (run_preserves (λ b, languages_supported (state b))).
    + intros b0 chatID Hb0 id settings. rewrite bot_Get_state. unfold Get.
      destruct (users (state b0) !! chatID) as [old|] eqn:Hc; cbn [snd]; [apply Hb0|].
      cbn [users]. destruct (decide (chatID = id)) as [->|Hne].
      * rewrite lookup_insert_eq. intros [= <-]. set_solver.
      * rewrite lookup_insert_ne by done. apply Hb0.
    + intros b0 chatID lang Hb0. cbn [state with_state fst]. unfold SetLanguage.
      apply languages_supported_update; [|done]. intros st _. apply normalizeLang_codes.
    + intros b0 chatID region Hb0. cbn [state scheduler_Start with_state fst].
      unfold SetRegion. by apply languages_supported_update.
    + intros b0 chatID settings Hb0 _. cbn [state scheduler_Start with_state fst].
      unfold SetNotifications. by apply languages_supported_update.
    + intros b0 chatID Hb0. cbn [state scheduler_Stop with_state fst].
      unfold SetNotifications. by apply languages_supported_update.
  - intros chatID. unfold userLang.
    destruct (bot_Get (run b us) chatID) as [settings b1]. cbn [fst].
    pose proof (normalizeLang_codes (Language settings)) as Hcodes.
    case_bool_decide as Hl; [apply list_elem_of_here|].
    by apply elem_of_cons in Hcodes as [Heq|Hcodes].
Qed.

Lemma run_languages_supported_witness :
  let cb data := UCallback {| FromID := 42; CallbackData := data; MessageChat := Some 42 |} in
  let us := [cb "lang:RU_ru"; cb "region:Душанбе"] in
  languages_supported (state (@run sample_lib (fresh_bot "state.json") us))
  ∧ Language <$> users (state (@run sample_lib (fresh_bot "state.json") us)) !! 42
    = Some "ru".
Proof.
  intros cb us. split; [|vm_compute; reflexivity].
  apply (@run_languages_supported sample_lib).
  intros id settings. cbn. by rewrite lookup_empty.
Defined.


Lemma bot_Get_known b chatID settings :
  users (state b) !! chatID = Some settings → bot_Get b chatID = (settings, b).
Proof.
  intros Hc. unfold bot_Get, Get. rewrite Hc. by destruct b.
Qed.

Lemma requireLanguage_ok `{GoLib} b chatID settings :
  users (state b) !! chatID = Some settings →
  normalizeLang (Language settings) ≠ "" →
  ∃ b1 settings1,
    requireLanguage b chatID = ((normalizeLang (Language settings), true), b1)
    ∧ active b1 = active b
    ∧ users (state b1) !! chatID = Some settings1
    ∧ Region settings1 = Region settings
    ∧ Notifications settings1 = Notifications settings.
Proof.
  intros Hc Hlang. unfold requireLanguage. rewrite (bot_Get_known _ _ _ Hc).
  rewrite (bool_decide_eq_false_2 _ Hlang).
  case_bool_decide.
  - eexists _, _. split; [reflexivity|]. split; [reflexivity|].
    cbn [state with_state fst]. unfold SetLanguage.
    rewrite update_and_persist_users, lookup_insert_eq, Hc. done.
  - by exists b, settings.
Qed.

Lemma setNotifications_known `{GoLib} b chatID settings enabled :
  users (state b) !! chatID = Some settings →
  (Region settings = "" → setNotifications b chatID enabled = b)
  ∧ (Region settings ≠ "" →
     active (setNotifications b chatID enabled)
     = (if enabled then <[chatID := Region settings]> (active b)
        else delete chatID (active b))
     ∧ users (state (setNotifications b chatID enabled)) !! chatID
       = Some {| Language := Language settings; Region := Region settings;
                 Notifications := enabled;
                 RegionSelected := RegionSelected settings |}).
Proof.
  intros Hc. unfold setNotifications. rewrite (bot_Get_known _ _ _ Hc).
  split; intros Hr.
  - by rewrite (bool_decide_eq_true_2 _ Hr).
  - rewrite (bool_decide_eq_false_2 _ Hr).
    assert (Hu : users (SetNotifications (state b) (fs b) chatID enabled).1 !! chatID
                 = Some {| Language := Language settings; Region := Region settings;
                           Notifications := enabled;
                           RegionSelected := RegionSelected settings |}).
    { unfold SetNotifications.
      by rewrite update_and_persist_users, lookup_insert_eq, Hc. }
    by destruct enabled.
Qed.

(** The commands that switch reminders off and on, for a chat whose
    language is set: after /notifyoff the chat is not among the
    subscriptions a restart restores, and when it has a region its loop is
    removed from the table; /notifyon puts the loop back for the stored
    region, and without a region it changes neither the flag nor the
    table. *)
Theorem notify_commands `{GoLib} b chatID settings :
  users (state b) !! chatID = Some settings →
  normalizeLang (Language settings) ≠ "" →
  let off := handleMessage b chatID "/notifyoff" in
  let on := handleMessage b chatID "/notifyon" in
  ActiveNotificationRegions (state off) !! chatID = None
  ∧ (Region settings ≠ "" →
     active off !! chatID = None
     ∧ active on !! chatID = Some (Region settings)
     ∧ Notifications <$> users (state on) !! chatID = Some true
     ∧ Region <$> users (state on) !! chatID = Some (Region settings))
  ∧ (Region settings = "" →
     active on = active b
     ∧ Notifications <$> users (state on) !! chatID = Some (Notifications settings)).
Proof.
  intros Hc Hlang off on.
  destruct (requireLanguage_ok b chatID settings Hc Hlang)
    as (b1 & settings1 & Hreq & Hact & Hc1 & Hregion & Hnotif).
  assert (Hoff : off = setNotifications b1 chatID false).
  { unfold off, handleMessage.
    change (bool_decide ("/notifyoff" ∈ ["/start"; "/menu"; "/lang"; "/language"]))
      with false.
    by rewrite Hreq. }
  assert (Hon : on = setNotifications b1 chatID true).
  { unfold on, handleMessage.
    change (bool_decide ("/notifyon" ∈ ["/start"; "/menu"; "/lang"; "/language"]))
      with false.
    by rewrite Hreq. }
  destruct (setNotifications_known b1 chatID settings1 false Hc1) as [Hoff0 Hoff1].
  destruct (setNotifications_known b1 chatID settings1 true Hc1) as [Hon0 Hon1].
  rewrite Hregion in *. clearbody off on. subst off on.
  split; [|split].
  - destruct (ActiveNotificationRegions _ !! chatID) as [region|] eqn:Ha; [|done].
    apply ActiveNotificationRegions_lookup in Ha as (st & Hst & Hn & -> & Hne).
    destruct (decide (Region settings = "")) as [Hempty|Hfull].
    + rewrite (Hoff0 Hempty), Hc1 in Hst. injection Hst as <-.
      rewrite Hregion, Hempty in Hne. by contradict Hne.
    + destruct (Hoff1 Hfull) as [_ Hu]. rewrite Hu in Hst. by injection Hst as <-.
  - intros Hfull. destruct (Hoff1 Hfull) as [-> _]. destruct (Hon1 Hfull) as [-> ->].
    by rewrite lookup_delete_eq, lookup_insert_eq.
  - intros Hempty. rewrite (Hon0 Hempty), Hc1. cbn. by rewrite Hact, Hnotif.
Qed.

Lemma notify_commands_witness :
  let cb data := UCallback {| FromID := 42; CallbackData := data; MessageChat := Some 42 |} in
  let b := @run sample_lib (fresh_bot "state.json") [cb "lang:tg"; cb "region:Душанбе"] in
  ActiveNotificationRegions (state b) !! 42 = Some "Душанбе"
  ∧ ActiveNotificationRegions (state (@handleMessage sample_lib b 42 "/notifyoff")) !! 42
    = None.
Proof.
  intros cb b. split; [vm_compute; reflexivity|].
  refine (proj1 (@notify_commands sample_lib b 42
                   {| Language := "tg"; Region := "Душанбе"; Notifications := true;
                      RegionSelected := true |} _ _)).
  - vm_compute. reflexivity.
  - vm_compute. discriminate.
Defined.

(** ** The scheduler's table and its loops *)

Lemma scheduler_inv_new : scheduler_inv newReminderManager.
Proof.
  split; [|split; [|split]]; cbn.
  - by intros i loop ?.
  - intros ctx Hc. by apply elem_of_empty in Hc.
  - intros chatID entry Hc. by rewrite lookup_empty in Hc.
  - intros ctx chatID region Hin. by apply elem_of_nil in Hin.
Qed.

Lemma scheduler_inv_cancel rm chatID entry :
  scheduler_inv rm → rm_active rm !! chatID = Some entry →
  (∀ ctx, ctx ∈ ({[rs_cancel entry]} ∪ rm_cancelled rm : gset nat) →
     (ctx < length (rm_loops rm))%nat)
  ∧ (∀ other entry', other ≠ chatID → rm_active rm !! other = Some entry' →
       rs_cancel entry' ∉ ({[rs_cancel entry]} ∪ rm_cancelled rm : gset nat))
  ∧ (∀ ctx region, (ctx, chatID, region) ∈ rm_loops rm →
       ctx ∈ ({[rs_cancel entry]} ∪ rm_cancelled rm : gset nat)).
Proof.
  intros (Hnum & Hcan & Hact & Hlive) Hc.
  destruct (Hact _ _ Hc) as [Hloop Hnc].
  split; [|split].
  - intros ctx [->%elem_of_singleton|Hin]%elem_of_union; [|by apply Hcan].
    by apply lookup_lt_Some in Hloop.
  - intros other entry' Hne Ho.
    destruct (Hact _ _ Ho) as [Hloop' Hnc'].
    intros [Heq%elem_of_singleton|Hin]%elem_of_union; [|done].
    rewrite Heq, Hloop in Hloop'. by injection Hloop' as ->.
  - intros ctx region Hin.
    destruct (decide (ctx ∈ rm_cancelled rm)) as [Hin'|Hnin];
      [by apply elem_of_union_r|].
    pose proof (Hlive _ _ _ Hin Hnin) as Hc'. rewrite Hc in Hc'.
    injection Hc' as ->. cbn. apply elem_of_union_l. by apply elem_of_singleton.
Qed.

Lemma scheduler_inv_Start rm chatID region :
  scheduler_inv rm → scheduler_inv (Start rm chatID region).
Proof.
  intros Hinv. pose proof Hinv as (Hnum & Hcan & Hact & Hlive).
  set (cancelled := match rm_active rm !! chatID with
                    | Some existing => {[ rs_cancel existing ]} ∪ rm_cancelled rm
                    | None => rm_cancelled rm
                    end).
  assert (Hcan' : ∀ ctx, ctx ∈ cancelled → (ctx < length (rm_loops rm))%nat).
  { unfold cancelled. destruct (rm_active rm !! chatID) as [existing|] eqn:Hc; [|done].
    by apply (scheduler_inv_cancel rm chatID existing). }
  assert (Hother : ∀ other entry', other ≠ chatID → rm_active rm !! other = Some entry' →
                     rs_cancel entry' ∉ cancelled).
  { unfold cancelled. destruct (rm_active rm !! chatID) as [existing|] eqn:Hc.
    - by apply (scheduler_inv_cancel rm chatID existing).
    - intros other entry' _ Ho. by apply (Hact _ _ Ho). }
  assert (Hmine : ∀ ctx region', (ctx, chatID, region') ∈ rm_loops rm → ctx ∈ cancelled).
  { unfold cancelled. destruct (rm_active rm !! chatID) as [existing|] eqn:Hc.
    - by apply (scheduler_inv_cancel rm chatID existing).
    - intros ctx region' Hin.
      destruct (decide (ctx ∈ rm_cancelled rm)) as [|Hnin]; [done|].
      pose proof (Hlive _ _ _ Hin Hnin) as Hc'. by rewrite Hc in Hc'. }
  assert (Hsub : ∀ ctx, ctx ∈ rm_cancelled rm → ctx ∈ cancelled).
  { unfold cancelled. destruct (rm_active rm !! chatID); [|done].
    intros ctx Hin. by apply elem_of_union_r. }
  unfold Start. fold cancelled. split; [|split; [|split]]; cbn.
  - intros i loop Hi. apply lookup_app_Some in Hi as [Hi|[Hlen Hi]]; [by apply Hnum|].
    apply list_lookup_singleton_Some in Hi as [Hi <-]. cbn. lia.
  - intros ctx Hin. rewrite length_app. cbn. apply Hcan' in Hin. lia.
  - intros chat entry Hc. destruct (decide (chatID = chat)) as [<-|Hne].
    + rewrite lookup_insert_eq in Hc. injection Hc as <-. cbn. split.
      * rewrite lookup_app_r by lia. by rewrite Nat.sub_diag.
      * intros Hin%Hcan'. lia.
    + rewrite lookup_insert_ne in Hc by done. split.
      * apply lookup_app_l_Some. by apply Hact.
      * by apply (Hother chat).
  - intros ctx chat region' Hin Hnin.
    apply elem_of_app in Hin as [Hin|Hin%list_elem_of_singleton].
    + destruct (decide (chatID = chat)) as [<-|Hne].
      * by apply Hmine in Hin.
      * rewrite lookup_insert_ne by done. apply Hlive; [done|].
        intros Hc. by apply Hnin, Hsub.
    + injection Hin as -> -> ->. by rewrite lookup_insert_eq.
Qed.

Lemma scheduler_inv_Stop rm chatID : scheduler_inv rm → scheduler_inv (Stop rm chatID).
Proof.
  intros Hinv. pose proof Hinv as (Hnum & Hcan & Hact & Hlive).
  unfold Stop. destruct (rm_active rm !! chatID) as [existing|] eqn:Hc; [|done].
  destruct (scheduler_inv_cancel rm chatID existing Hinv Hc) as (Hcan' & Hother & Hmine).
  split; [|split; [|split]]; cbn.
  - exact Hnum.
  - exact Hcan'.
  - intros chat entry Hd. apply lookup_delete_Some in Hd as [Hne Hd].
    split; [by apply Hact | by apply (Hother chat)].
  - intros ctx chat region Hin Hnin. destruct (decide (chatID = chat)) as [<-|Hne].
    + by apply Hmine in Hin.
    + rewrite lookup_delete_ne by done. apply Hlive; [done|].
      intros Hc'. apply Hnin. by apply elem_of_union_r.
Qed.

Lemma scheduler_inv_run calls rm :
  scheduler_inv rm → scheduler_inv (foldl scheduler_step rm calls).
Proof.
  revert rm. induction calls as [|c calls IH]; intros rm Hinv; cbn; [done|].
  apply IH. destruct c; cbn; [by apply scheduler_inv_Start | by apply scheduler_inv_Stop].
Qed.

(** However the bot calls [Start] and [Stop], the contexts that have not
    been cancelled are those of the entries of the table: no chat has two
    started loops with an uncancelled context, [Start] on a chat that has an
    entry cancels that entry's context and [Stop] cancels the context and
    removes the entry.  The regions of the table evolve as an insertion and
    a deletion.  (Cancelling a context asks a loop to end; whether and when
    it does is the loop's matter.) *)
Theorem scheduler_contexts_follow_table calls :
  let rm := foldl scheduler_step newReminderManager calls in
  (∀ ctx chatID region,
     uncancelled rm (ctx, chatID, region) ↔
     rm_active rm !! chatID = Some {| rs_cancel := ctx; rs_region := region |})
  ∧ (∀ loop1 loop2, uncancelled rm loop1 → uncancelled rm loop2 →
       loop1.1.2 = loop2.1.2 → loop1 = loop2)
  ∧ (∀ chatID region,
       ¬ uncancelled (Stop (Start rm chatID region) chatID)
           (length (rm_loops rm), chatID, region)
       ∧ rs_region <$> rm_active (Start rm chatID region)
         = <[chatID := region]> (rs_region <$> rm_active rm)
       ∧ rs_region <$> rm_active (Stop rm chatID) = delete chatID (rs_region <$> rm_active rm)).
Proof.
  intros rm.
  pose proof (scheduler_inv_run calls _ scheduler_inv_new) as Hinv. fold rm in Hinv.
  pose proof Hinv as (Hnum & Hcan & Hact & Hlive).
  assert (Hiff : ∀ ctx chatID region,
     uncancelled rm (ctx, chatID, region) ↔
     rm_active rm !! chatID = Some {| rs_cancel := ctx; rs_region := region |}).
  { intros ctx chatID region. unfold uncancelled. cbn. split.
    - intros [Hin Hnin]. by apply Hlive.
    - intros Hc. destruct (Hact _ _ Hc) as [Hloop Hnc]. cbn in *.
      split; [by eapply list_elem_of_lookup_2 | done]. }
  split; [exact Hiff|]. split.
  - intros [[c1 chat1] r1] [[c2 chat2] r2] H1%Hiff H2%Hiff Heq. cbn in Heq. subst chat2.
    rewrite H1 in H2. by injection H2 as -> ->.
  - intros chatID region. split; [|split].
    + intros [_ Hnin]. apply Hnin. unfold Stop, Start. cbn.
      rewrite lookup_insert_eq. cbn. apply elem_of_union_l. by apply elem_of_singleton.
    + unfold Start. cbn. by rewrite fmap_insert.
    + unfold Stop. destruct (rm_active rm !! chatID) as [existing|] eqn:Hc; cbn.
      * by rewrite fmap_delete.
      * symmetry. apply delete_id. by rewrite lookup_fmap, Hc.
Qed.

(** ** Localised texts, continued *)

Lemma strip_any_keeps_printable ps l l' :
  no_printable ps = true → strip_any ps l = Some l' →
  Exists (λ a, printable a = true) l → Exists (λ a, printable a = true) l'.
Proof.
  intros Hps Hstrip Hl.
  apply strip_any_Some in Hstrip as (p & Hp & ->).
  apply Exists_app in Hl as [Hl|Hl]; [|done].
  unfold no_printable in Hps. rewrite forallb_forall in Hps.
  specialize (Hps p (proj1 (list_elem_of_In _ _) Hp)).
  rewrite forallb_forall in Hps.
  apply Exists_exists in Hl as (a & Ha & Hpr).
  specialize (Hps a (proj1 (list_elem_of_In _ _) Ha)). by rewrite Hpr in Hps.
Qed.

Lemma trim_front_keeps_printable n ps l :
  no_printable ps = true →
  Exists (λ a, printable a = true) l →
  Exists (λ a, printable a = true) (trim_front n ps l).
Proof.
  intros Hps. revert l. induction n as [|n IH]; intros l Hl; cbn [trim_front]; [done|].
  destruct (strip_any ps l) as [l'|] eqn:Hs; [|done].
  apply IH. by eapply strip_any_keeps_printable.
Qed.

Lemma trim_list_printable l :
  Exists (λ a, printable a = true) l → Exists (λ a, printable a = true) (trim_list l).
Proof.
  intros Hl. unfold trim_list.
  apply Exists_rev, trim_front_keeps_printable; [vm_compute; reflexivity|].
  apply Exists_rev, trim_front_keeps_printable; [vm_compute; reflexivity | done].
Qed.

Lemma TrimSpace_not_blank s :
  Exists (λ a, printable a = true) (list_ascii_of_string s) → strings_TrimSpace s ≠ "".
Proof.
  intros Hs%trim_list_printable. rewrite strings_TrimSpace_list.
  intros Heq. apply (f_equal list_ascii_of_string) in Heq.
  rewrite list_ascii_of_string_of_list_ascii in Heq.
  change (list_ascii_of_string "") with (@nil ascii) in Heq.
  rewrite Heq in Hs. by apply Exists_nil in Hs.
Qed.

Lemma translated_not_blank translations lang key text :
  translated translations lang key = Some text → strings_TrimSpace text ≠ "".
Proof.
  unfold translated. destruct (translations !! lang) as [dict|]; [|done].
  destruct (dict !! key) as [t|]; [|done].
  case_bool_decide; [|done]. by intros [= <-].
Qed.

(** [tr] answers with the text of the language asked for when the table
    has one that is not blank, otherwise with the Tajik text, otherwise
    with the key itself; so the text for a key that is not blank is never
    blank.  An event's own title goes before the table, and the title of an
    event is never blank. *)
Theorem tr_never_blank `{GoLib} translations lang key ev :
  let l := if bool_decide (normalizeLang lang = "") then langTG else normalizeLang lang in
  tr translations lang key
  = default (default key (translated translations langTG key))
            (translated translations l key)
  ∧ (strings_TrimSpace key ≠ "" → strings_TrimSpace (tr translations lang key) ≠ "")
  ∧ (strings_TrimSpace (Title ev) ≠ "" →
     eventTitle translations lang ev = strings_TrimSpace (Title ev))
  ∧ strings_TrimSpace (eventTitle translations lang ev) ≠ "".
Proof.
  intros l.
  assert (Htr : ∀ k, tr translations lang k
                     = default (default k (translated translations langTG k))
                               (translated translations l k)).
  { intros k. unfold tr. cbv zeta. fold l.
    destruct (translated translations l k); [done|].
    by destruct (translated translations langTG k). }
  assert (Hnb : ∀ k, strings_TrimSpace k ≠ "" →
                     strings_TrimSpace (tr translations lang k) ≠ "").
  { intros k Hk. rewrite Htr.
    destruct (translated translations l k) as [t|] eqn:E1; cbn [default];
      [by eapply translated_not_blank|].
    destruct (translated translations langTG k) as [t|] eqn:E2; cbn [default];
      [by eapply translated_not_blank | done]. }
  split; [apply Htr|]. split; [apply Hnb|].
  unfold eventTitle. cbv zeta. split.
  - intros Ht. by rewrite (bool_decide_eq_true_2 _ Ht).
  - case_bool_decide as Ht.
    + by rewrite strings_TrimSpace_idem.
    + apply Hnb, TrimSpace_not_blank. cbn. apply Exists_cons_hd.
      vm_compute. reflexivity.
Qed.

Lemma TrimSpace_empty : strings_TrimSpace "" = "".
Proof. vm_compute. reflexivity. Qed.

Lemma default_text_Some (m : gmap string string) k :
  strings_TrimSpace (default "" (m !! k)) ≠ "" →
  ∃ v, m !! k = Some v ∧ strings_TrimSpace (default "" (m !! k)) = strings_TrimSpace v.
Proof.
  destruct (m !! k) as [v|]; cbn [default]; [by exists v|].
  intros Hne. by rewrite TrimSpace_empty in Hne.
Qed.

Lemma first_nonblank_spec (values : list string) :
  (first_nonblank values ≠ "" →
   ∃ v, v ∈ values ∧ first_nonblank values = strings_TrimSpace v)
  ∧ (∀ v, v ∈ values → strings_TrimSpace v ≠ "" → first_nonblank values ≠ "").
Proof.
  unfold first_nonblank.
  destruct (List.find _ (strings_TrimSpace <$> values)) as [x|] eqn:Hfind; cbn [default].
  - apply find_some in Hfind as [Hin Hx].
    apply list_elem_of_In, list_elem_of_fmap in Hin as (v & -> & Hv).
    apply negb_true_iff, bool_decide_eq_false in Hx.
    split; [by exists v | done].
  - split; [done|]. intros v Hv Hne.
    pose proof (find_none _ _ Hfind (strings_TrimSpace v)) as Hnone. cbn in Hnone.
    rewrite (bool_decide_eq_false_2 _ Hne) in Hnone.
    assert (Hin : In (strings_TrimSpace v) (strings_TrimSpace <$> values)).
    { apply list_elem_of_In, list_elem_of_fmap. by exists v. }
    by specialize (Hnone Hin).
Qed.

(** The niyat text, whatever order Go ranges over the map in: it is the
    trimmed text of the language asked for when that is not blank,
    otherwise the Tajik one, otherwise that of some other language; it is
    always the trimmed text of an entry of the map, and it is empty only
    when every text of the map is blank. *)
Theorem localizedNiyatText_fallback `{GoLib} niyatByLang order lang :
  order ≡ₚ map_to_list niyatByLang →
  let l := if bool_decide (normalizeLang lang = "") then langTG else normalizeLang lang in
  let text := localizedNiyatText niyatByLang order lang in
  (strings_TrimSpace (default "" (niyatByLang !! l)) ≠ "" →
   text = strings_TrimSpace (default "" (niyatByLang !! l)))
  ∧ (strings_TrimSpace (default "" (niyatByLang !! l)) = "" →
     strings_TrimSpace (default "" (niyatByLang !! langTG)) ≠ "" →
     text = strings_TrimSpace (default "" (niyatByLang !! langTG)))
  ∧ (text ≠ "" → ∃ k v, niyatByLang !! k = Some v ∧ text = strings_TrimSpace v)
  ∧ (text = "" ↔ ∀ k v, niyatByLang !! k = Some v → strings_TrimSpace v = "").
Proof.
  intros Horder l text.
  assert (Hentries : ∀ v, v ∈ order.*2 ↔ ∃ k, niyatByLang !! k = Some v).
  { intros v. rewrite list_elem_of_fmap. split.
    - intros ([k v'] & -> & Hin). exists k.
      apply elem_of_map_to_list. by rewrite <- Horder.
    - intros [k Hk]. exists (k, v). split; [done|].
      rewrite Horder. by apply elem_of_map_to_list. }
  unfold text, localizedNiyatText. cbv zeta. fold l.
  case_bool_decide as Hsize.
  { apply map_size_empty_iff in Hsize. subst niyatByLang.
    rewrite !lookup_empty. cbn [default]. rewrite TrimSpace_empty.
    by repeat split. }
  set (t1 := strings_TrimSpace (default "" (niyatByLang !! l))).
  set (t2 := strings_TrimSpace (default "" (niyatByLang !! langTG))).
  assert (Hall : ∀ t, t ≠ "" → (∃ k v, niyatByLang !! k = Some v ∧ t = strings_TrimSpace v) →
            (t ≠ "" → ∃ k v, niyatByLang !! k = Some v ∧ t = strings_TrimSpace v)
            ∧ (t = "" ↔ ∀ k v, niyatByLang !! k = Some v → strings_TrimSpace v = "")).
  { intros t Ht (k & v & Hk & Hv). split; [by exists k, v|].
    split; [done|]. intros Hblank. rewrite Hv in Ht. by specialize (Hblank k v Hk). }
  destruct (decide (t1 = "")) as [H1|H1].
  - rewrite (bool_decide_eq_true_2 _ H1).
    destruct (decide (t2 = "")) as [H2|H2].
    + rewrite bool_decide_eq_false_2 by (by intros ?).
      destruct (first_nonblank_spec (order.*2)) as [Hsome Hnone].
      split; [done|]. split; [done|]. split.
      * intros Hne. destruct (Hsome Hne) as (v & [k Hk]%Hentries & Hv). by exists k, v.
      * split.
        -- intros Hblank k v Hk.
           destruct (decide (strings_TrimSpace v = "")) as [|Hv]; [done|].
           exfalso. apply (Hnone v); [|done|done]. apply Hentries. by exists k.
        -- intros Hblank.
           destruct (decide (first_nonblank (order.*2) = "")) as [|Hne]; [done|].
           destruct (Hsome Hne) as (v & [k Hk]%Hentries & Hv).
           by rewrite Hv, (Hblank k v Hk).
    + rewrite (bool_decide_eq_true_2 _ H2).
      split; [done|]. split; [done|]. apply Hall; [done|].
      destruct (default_text_Some niyatByLang langTG H2) as (v & Hk & Hv).
      by exists langTG, v.
  - rewrite (bool_decide_eq_false_2 _ H1), (bool_decide_eq_true_2 _ H1).
    split; [done|]. split; [done|]. apply Hall; [done|].
    destruct (default_text_Some niyatByLang l H1) as (v & Hk & Hv).
    by exists l, v.
Qed.

Lemma localizedNiyatText_fallback_witness :
  let niyat : gmap string string := {[ "tg" := " niyat "; "ru" := "  " ]} in
  @localizedNiyatText sample_lib niyat (map_to_list niyat) "ru_RU" = "niyat".
Proof.
  intros niyat.
  destruct (@localizedNiyatText_fallback sample_lib niyat (map_to_list niyat) "ru_RU")
    as (_ & Htg & _); [done|].
  rewrite Htg; vm_compute; [reflexivity | reflexivity | discriminate].
Defined.

(** The hadith of the day, whatever order Go ranges over the map in and
    whatever [rand.Intn] draws within its bounds: the index is always in
    range, the hadith comes from the list of the language asked for when
    that list is not empty, and a hadith of the collection is returned
    whenever the collection has one. *)
Theorem randomHadithForLang_fallback `{GoLib} hadithsByLang order intn lang :
  order ≡ₚ map_to_list hadithsByLang →
  (∀ n, (0 < n)%nat → (intn n < n)%nat) →
  let l := if bool_decide (normalizeLang lang = "") then langTG else normalizeLang lang in
  ∃ text, randomHadithForLang hadithsByLang order intn lang = Some text
    ∧ (∀ list, hadithsByLang !! l = Some list → list ≠ [] → text ∈ list)
    ∧ ((∃ k list, hadithsByLang !! k = Some list ∧ list ≠ []) →
       ∃ k list, hadithsByLang !! k = Some list ∧ text ∈ list)
    ∧ ((∀ k list, hadithsByLang !! k = Some list → list = []) → text = "").
Proof.
  intros Horder Hintn l.
  assert (Hentries : ∀ v, v ∈ order.*2 ↔ ∃ k, hadithsByLang !! k = Some v).
  { intros v. rewrite list_elem_of_fmap. split.
    - intros ([k v'] & -> & Hin). exists k.
      apply elem_of_map_to_list. by rewrite <- Horder.
    - intros [k Hk]. exists (k, v). split; [done|].
      rewrite Horder. by apply elem_of_map_to_list. }
  assert (Hpick : ∀ list : list string, list ≠ [] →
            ∃ text, list !! intn (length list) = Some text ∧ text ∈ list).
  { intros list Hne.
    destruct (list !! intn (length list)) as [text|] eqn:Hi.
    - exists text. split; [done|]. by eapply list_elem_of_lookup_2.
    - apply lookup_ge_None in Hi.
      assert (0 < length list)%nat by (destruct list; [done | cbn; lia]).
      specialize (Hintn (length list)). lia. }
  assert (Hlen : ∀ list : list string, length list = 0%nat ↔ list = []).
  { intros list. by destruct list. }
  unfold randomHadithForLang. cbv zeta. fold l.
  case_bool_decide as Hsize.
  { apply map_size_empty_iff in Hsize. subst hadithsByLang.
    exists "". split; [done|]. split; [|split; [|done]].
    - intros list Hk. by rewrite lookup_empty in Hk.
    - intros (k & list & Hk & _). by rewrite lookup_empty in Hk. }
  set (l1 := default [] (hadithsByLang !! l)).
  set (l2 := if bool_decide (length l1 = 0%nat)
             then default [] (hadithsByLang !! langTG) else l1).
  set (found := List.find (λ items, negb (bool_decide (length items = 0%nat))) (order.*2)).
  set (l3 := if bool_decide (length l2 = 0%nat) then default l2 found else l2).
  assert (H3 : l3 = [] ∨ ∃ k, hadithsByLang !! k = Some l3).
  { unfold l3. case_bool_decide as E2.
    - destruct found as [items|] eqn:Hf; cbn [default].
      + apply find_some in Hf as [Hin _]. right.
        by apply Hentries, list_elem_of_In.
      + left. by apply Hlen.
    - right. unfold l2 in *. case_bool_decide as E1.
      + exists langTG. destruct (hadithsByLang !! langTG); [done|]. by contradict E2.
      + exists l. unfold l1 in *. destruct (hadithsByLang !! l); [done|]. by contradict E1. }
  assert (Hmine : ∀ list, hadithsByLang !! l = Some list → list ≠ [] → l3 = list).
  { intros list Hk Hne. unfold l3, l2, l1. rewrite Hk. cbn [default].
    rewrite !(bool_decide_eq_false_2 (length list = 0%nat)); [done|..];
      by rewrite Hlen. }
  assert (Hany : (∃ k list, hadithsByLang !! k = Some list ∧ list ≠ []) → l3 ≠ []).
  { intros (k & list & Hk & Hne). unfold l3. case_bool_decide as E2; [|by rewrite <- Hlen].
    destruct found as [items|] eqn:Hf; cbn [default].
    - apply find_some in Hf as [_ Hx].
      apply negb_true_iff, bool_decide_eq_false in Hx. by rewrite <- Hlen.
    - pose proof (find_none _ _ Hf list) as Hnone. cbn in Hnone.
      rewrite bool_decide_eq_false_2 in Hnone by (by rewrite Hlen).
      assert (Hin : In list (order.*2)).
      { apply list_elem_of_In, Hentries. by exists k. }
      by specialize (Hnone Hin). }
  destruct (decide (l3 = [])) as [Hnil|Hcons].
  - rewrite bool_decide_eq_true_2 by (by rewrite Hlen).
    exists "". split; [done|]. split; [|split; [|done]].
    + intros list Hk Hne. rewrite (Hmine list Hk Hne) in Hnil. done.
    + intros Hex. by apply Hany in Hex.
  - rewrite bool_decide_eq_false_2 by (by rewrite Hlen).
    destruct (Hpick l3 Hcons) as (text & Hi & Hin).
    exists text. split; [done|]. split; [|split].
    + intros list Hk Hne. by rewrite <- (Hmine list Hk Hne).
    + intros _. destruct H3 as [|[k Hk]]; [done|]. by exists k, l3.
    + intros Hempty. destruct H3 as [|[k Hk]]; [done|]. by apply Hempty in Hk.
Qed.

Lemma randomHadithForLang_fallback_witness :
  let hadiths : gmap string (list string) := {[ "tg" := ["a"; "b"]; "ru" := [] ]} in
  ∃ text, @randomHadithForLang sample_lib hadiths (map_to_list hadiths) (λ n, n - 1)%nat "ru"
          = Some text
    ∧ text ∈ ["a"; "b"].
Proof.
  intros hadiths.
  destruct (@randomHadithForLang_fallback sample_lib hadiths (map_to_list hadiths)
              (λ n, n - 1)%nat "ru")
    as (text & Hr & _ & Hany & _); [done | intros n Hn; lia |].
  exists text. split; [exact Hr|].
  destruct Hany as (k & list & Hk & Hin).
  - exists "tg", ["a"; "b"]. split; [vm_compute; reflexivity | discriminate].
  - apply lookup_insert_Some in Hk as [[_ <-]|[_ Hk]]; [done|].
    apply lookup_singleton_Some in Hk as [_ <-].
    destruct (proj1 (elem_of_nil text) Hin).
Defined.

(** ** The region keyboard and the senders *)

Lemma list_ascii_of_string_append (s t : string) :
  list_ascii_of_string (s +:+ t) = list_ascii_of_string s ++ list_ascii_of_string t.
Proof.
  induction s as [|a s IH]; [reflexivity|].
  change (a :: list_ascii_of_string (s +:+ t)
          = a :: (list_ascii_of_string s ++ list_ascii_of_string t)).
  by rewrite IH.
Qed.

Lemma strip_prefix_app p l : strip_prefix p (p ++ l) = Some l.
Proof. by apply strip_prefix_Some. Qed.

Lemma prefix_append p s :
  strings_HasPrefix (p +:+ s) p = true ∧ strings_TrimPrefix (p +:+ s) p = s.
Proof.
  unfold strings_HasPrefix, strings_TrimPrefix.
  rewrite list_ascii_of_string_append, strip_prefix_app.
  split; [by apply bool_decide_eq_true_2 | apply string_of_list_ascii_of_string].
Qed.

Lemma built_regions calendars r :
  buildCalendars = Some calendars →
  is_Some (calendars !! r) ↔ r ∈ regionKeyboard_regions.
Proof.
  destruct baseDays_times as (days & Hdays & _).
  unfold buildCalendars. rewrite Hdays. intros Hc.
  apply (inj Some) in Hc. rewrite <- Hc.
  rewrite (foldr_insert_lookup (λ offset, (λ bd, applyOffset bd offset) <$> days)).
  rewrite fmap_is_Some.
  change regionKeyboard_regions with (offsets_table.*1).
  pose proof (not_elem_of_list_to_map (M := gmap string) offsets_table r) as Hnot.
  split.
  - intros Hsome. destruct (decide (r ∈ offsets_table.*1)) as [Hin|Hnin]; [exact Hin|].
    apply Hnot in Hnin. rewrite Hnin in Hsome. destruct Hsome as [? [=]].
  - intros Hin. apply not_eq_None_Some. intros E. apply Hnot in E. exact (E Hin).
Qed.

Lemma built_calendar_days calendars r days :
  buildCalendars = Some calendars → calendars !! r = Some days →
  length days = 31%nat.
Proof.
  intros Hbuilt Hr. pose proof (buildCalendars_days _ _ _ Hbuilt Hr) as Hdays.
  clear Hbuilt Hr.
  apply (f_equal length) in Hdays. by rewrite !length_fmap, length_seq in Hdays.
Qed.

(** Every button of the region keyboard names a region that has a
    calendar, and so does the default region.  Pressing a region button
    (the callback query carries the message of the keyboard, whose chat is
    then the chat concerned; without a message it is the sender's), for a
    chat whose language is set, stores that region with notifications on
    and starts the chat's loop for a region whose calendar of 31 days
    exists. *)
Theorem region_button_subscribes `{GoLib} calendars b sender message chatID settings r :
  buildCalendars = Some calendars →
  r ∈ regionKeyboard_regions →
  default sender message = chatID →
  users (state b) !! chatID = Some settings →
  normalizeLang (Language settings) ≠ "" →
  let b' := handleCallback b {| FromID := sender; CallbackData := region_button r;
                                MessageChat := message |} in
  (∃ settings', users (state b') !! chatID = Some settings'
     ∧ Region settings' = r ∧ Notifications settings' = true
     ∧ RegionSelected settings' = true)
  ∧ active b' !! chatID = Some r
  ∧ (∃ days, calendars !! r = Some days ∧ length days = 31%nat)
  ∧ is_Some (calendars !! defaultRegion).
Proof.
  intros Hbuilt Hr Hchat Hc Hlang b'.
  assert (Hcal : ∃ days, calendars !! r = Some days ∧ length days = 31%nat).
  { apply (built_regions calendars r Hbuilt) in Hr as [days Hdays].
    exists days. split; [exact Hdays|]. by eapply built_calendar_days. }
  assert (Hdef : is_Some (calendars !! defaultRegion)).
  { apply (built_regions calendars defaultRegion Hbuilt).
    apply (bool_decide_unpack _). vm_compute. exact I. }
  clear Hbuilt.
  destruct (prefix_append "region:" r) as [Hpre Htrim].
  split; [|split; [|split]].
  - unfold b', handleCallback. cbn [CallbackData FromID MessageChat]. rewrite Hchat.
    rewrite bool_decide_eq_false_2 by done.
    change (strings_HasPrefix (region_button r) "lang:") with false.
    unfold region_button. rewrite Hpre, Htrim.
    unfold requireLanguage. rewrite (bot_Get_known _ _ _ Hc).
    rewrite (bool_decide_eq_false_2 _ Hlang). cbn [negb].
    cbn [state scheduler_Start with_state fst]. unfold SetRegion.
    rewrite update_and_persist_users, lookup_insert_eq.
    eexists. split; [reflexivity|]. split; [reflexivity|]. split; reflexivity.
  - unfold b', handleCallback. cbn [CallbackData FromID MessageChat]. rewrite Hchat.
    rewrite bool_decide_eq_false_2 by done.
    change (strings_HasPrefix (region_button r) "lang:") with false.
    unfold region_button. rewrite Hpre, Htrim.
    destruct (requireLanguage_ok b chatID settings Hc Hlang) as (b1 & st1 & -> & _).
    cbn [negb active scheduler_Start]. apply lookup_insert_eq.
  - exact Hcal.
  - exact Hdef.
Qed.


Lemma region_button_subscribes_witness :
  let b := @run sample_lib (fresh_bot "state.json")
             [UCallback {| FromID := 7; CallbackData := "lang:tg";
                           MessageChat := Some 42 |}] in
  let b' := @handleCallback sample_lib b
              {| FromID := 7; CallbackData := region_button "Хоруг";
                 MessageChat := Some 42 |} in
  active b' !! 42 = Some "Хоруг"
  ∧ Region <$> users (state b') !! 42 = Some "Хоруг"
  ∧ users (state b') !! 7 = None
  ∧ ∃ calendars days,
      buildCalendars = Some calendars ∧ calendars !! "Хоруг" = Some days
      ∧ length days = 31%nat.
Proof.
  intros b b'.
  destruct dushanbe_day1 as (calendars & _ & Hbuilt & _).
  destruct (@region_button_subscribes sample_lib calendars b 7 (Some 42) 42
              {| Language := "tg"; Region := ""; Notifications := false;
                 RegionSelected := false |} "Хоруг" Hbuilt)
    as ((st & Hst & Hregion & _) & Hactive & (days & Hdays & Hlen) & _).
  - apply (bool_decide_unpack _). vm_compute. exact I.
  - reflexivity.
  - vm_compute. reflexivity.
  - vm_compute. discriminate.
  - split; [exact Hactive|].
    split; [unfold b'; rewrite Hst; cbn; rewrite Hregion; reflexivity|].
    split; [vm_compute; reflexivity|]. exists calendars, days.
    split; [exact Hbuilt|]. split; [exact Hdays | exact Hlen].
Defined.

Lemma currentDaySchedule_month (days : list DayTimes) start now :
  Day <$> days = Z.of_nat <$> seq 0 31 →
  (currentDaySchedule days start now = None ↔ ¬ 0 ≤ dayIndexAt start now ≤ 30)
  ∧ (∀ d, currentDaySchedule days start now = Some d →
       d ∈ days ∧ Day d = dayIndexAt start now ∧ 0 ≤ Day d ≤ 30).
Proof.
  intros Hdays.
  assert (Hlen : length days = 31%nat).
  { apply (f_equal length) in Hdays. by rewrite !length_fmap, length_seq in Hdays. }
  unfold currentDaySchedule. rewrite Hlen. cbv zeta.
  generalize (dayIndexAt start now). intros idx.
  assert (Hmem : idx ∈ Day <$> days ↔ 0 ≤ idx ≤ 30).
  { rewrite Hdays, list_elem_of_fmap. split.
    - intros (n & Heq & Hn%elem_of_seq). lia.
    - intros Hidx. exists (Z.to_nat idx). split; [lia|]. apply elem_of_seq. lia. }
  change (Z.of_nat 31) with 31.
  assert (Hfind : ∀ d, List.find (λ d, Day d =? idx) days = Some d →
                       d ∈ days ∧ Day d = idx ∧ 0 ≤ Day d ≤ 30).
  { intros d [Hin Heq%Z.eqb_eq]%find_some_elem. split; [done|]. split; [done|].
    rewrite Heq. apply Hmem. rewrite <- Heq. apply list_elem_of_fmap. by exists d. }
  destruct (Z.ltb_spec idx 0) as [Hlo|Hlo]; destruct (Z.ltb_spec 31 idx) as [Hhi|Hhi];
    cbn [orb]; try (split; [split; [lia | done] | by intros d [=]]).
  split; [|exact Hfind].
  rewrite <- Hmem, <- find_is_Some_days.
  destruct (List.find _ days) as [d|].
  - split; [done|]. intros Hn. destruct Hn. by eexists.
  - split; [|done]. by intros _ [? [=]].
Qed.

(** The answers of the senders over the built calendars: [sendCalendar]
    draws a calendar exactly for a chat with no region (the default
    region's) or with a region of the keyboard; [sendToday] answers a
    region of the keyboard with the day whose number is today's, or with
    the out-of-range notice exactly when today's number is outside 0..30,
    and any other region with the calendar-not-found notice; the day
    number of a test notification always lies within 1..30. *)
Theorem senders_on_built_calendars calendars settings start now :
  buildCalendars = Some calendars →
  (is_Some (sendCalendar calendars settings) ↔
   Region settings = "" ∨ Region settings ∈ regionKeyboard_regions)
  ∧ (Region settings ∈ regionKeyboard_regions →
     (sendToday calendars settings start now = TodayOutOfRange ↔
      ¬ 0 ≤ dayIndexAt start now ≤ 30)
     ∧ (0 ≤ dayIndexAt start now ≤ 30 →
        ∃ day, sendToday calendars settings start now = TodayImage day
          ∧ Day day = dayIndexAt start now))
  ∧ (Region settings ≠ "" → Region settings ∉ regionKeyboard_regions →
     sendToday calendars settings start now = CalendarNotFound)
  ∧ 1 ≤ (sendTestNotification_day calendars settings start now).2 ≤ 30.
Proof.
  intros Hbuilt.
  assert (Hregions : ∀ r, is_Some (calendars !! r) ↔ r ∈ regionKeyboard_regions)
    by (intros r; by apply built_regions).
  assert (Hmonth : ∀ r days, calendars !! r = Some days →
            Day <$> days = Z.of_nat <$> seq 0 31)
    by (intros r days; by apply buildCalendars_days).
  clear Hbuilt.
  assert (Hlen : ∀ r days, calendars !! r = Some days → length days = 31%nat).
  { intros r days Hdays%Hmonth. apply (f_equal length) in Hdays.
    by rewrite !length_fmap, length_seq in Hdays. }
  assert (Hempty : "" ∉ regionKeyboard_regions).
  { apply (bool_decide_unpack _). vm_compute. exact I. }
  assert (Hdefault : defaultRegion ∈ regionKeyboard_regions).
  { apply (bool_decide_unpack _). vm_compute. exact I. }
  split; [|split; [|split]].
  - unfold sendCalendar. cbv zeta. case_bool_decide as Hr.
    + apply Hregions in Hdefault as [days ->].
      split; [by left | by eexists].
    + destruct (calendars !! Region settings) as [days|] eqn:Hc.
      * split; [|by eexists]. intros _. right.
        apply Hregions. by eexists.
      * split; [by intros [? [=]]|]. intros [Hr'|Hin]; [done|].
        apply Hregions in Hin as [days Hin]. by rewrite Hc in Hin.
  - intros Hin. unfold sendToday.
    rewrite bool_decide_eq_false_2 by (by intros Heq; rewrite Heq in Hin).
    apply Hregions in Hin as [days Hdays]. rewrite Hdays.
    rewrite (Hlen _ _ Hdays).
    rewrite bool_decide_eq_false_2 by done.
    destruct (currentDaySchedule_month days start now (Hmonth _ _ Hdays))
      as [Hnone Hsome].
    destruct (currentDaySchedule days start now) as [day|] eqn:Hcur.
    + destruct (Hsome day eq_refl) as (_ & Hday & Hrange). split.
      * split; [done|]. intros Hout. lia.
      * intros _. by exists day.
    + split; [by rewrite <- Hnone|]. intros Hrange. by apply Hnone in Hrange.
  - intros Hr Hnin. unfold sendToday. rewrite (bool_decide_eq_false_2 _ Hr).
    destruct (calendars !! Region settings) as [days|] eqn:Hc; [|done].
    exfalso. apply Hnin, Hregions. by eexists.
  - unfold sendTestNotification_day. cbv zeta. cbn [snd].
    destruct (calendars !! _) as [days|] eqn:Hc; [|lia].
    destruct (currentDaySchedule_month days start now (Hmonth _ _ Hc)) as [_ Hsome].
    destruct (currentDaySchedule days start now) as [day|]; [|lia].
    destruct (Hsome day eq_refl) as (_ & _ & Hrange).
    destruct (Z.ltb_spec 0 (Day day)); lia.
Qed.

Lemma senders_on_built_calendars_witness :
  ∃ calendars,
    buildCalendars = Some calendars
    ∧ is_Some (sendCalendar calendars UserSettings_zero)
    ∧ 1 ≤ (sendTestNotification_day calendars UserSettings_zero 0 0).2 ≤ 30.
Proof.
  destruct dushanbe_day1 as (calendars & _ & Hbuilt & _).
  exists calendars. split; [exact Hbuilt|].
  destruct (senders_on_built_calendars calendars UserSettings_zero 0 0 Hbuilt)
    as (Hcal & _ & _ & Hday).
  split; [|exact Hday]. apply Hcal. by left.
Defined.

(** ** Before a language is chosen *)

Lemma Get_subscribes_nobody s chatID :
  ActiveNotificationRegions (Get s chatID).2 = ActiveNotificationRegions s.
Proof.
  unfold Get. destruct (users s !! chatID) as [settings|] eqn:Hc; cbn [fst snd]; [done|].
  unfold ActiveNotificationRegions. cbn [users].
  rewrite omap_insert_None by reflexivity.
  apply delete_id. by rewrite lookup_omap, Hc.
Qed.

Lemma bot_Get_active b chatID : active (bot_Get b chatID).2 = active b.
Proof. unfold bot_Get. by destruct (Get (state b) chatID). Qed.

(** A chat that has not chosen a language cannot subscribe: whatever the
    command, [handleMessage] does no more than read the chat's settings,
    and so does a region callback; reading creates the chat's empty record
    and leaves the subscriptions and the scheduler's table as they
    were. *)
Theorem no_subscription_without_language `{GoLib} b chatID :
  normalizeLang (Language (Get (state b) chatID).1) = "" →
  (∀ lower, handleMessage b chatID lower = (bot_Get b chatID).2)
  ∧ (∀ cb, default (FromID cb) (MessageChat cb) = chatID →
       strings_HasPrefix (CallbackData cb) "lang:" = false →
       handleCallback b cb = b ∨ handleCallback b cb = (bot_Get b chatID).2)
  ∧ ActiveNotificationRegions (state (bot_Get b chatID).2)
    = ActiveNotificationRegions (state b)
  ∧ active (bot_Get b chatID).2 = active b
  ∧ (∀ other, other ≠ chatID →
       users (state (bot_Get b chatID).2) !! other = users (state b) !! other).
Proof.
  intros Hlang.
  assert (Hreq : requireLanguage b chatID = (("", false), (bot_Get b chatID).2)).
  { unfold requireLanguage. pose proof (bot_Get_settings b chatID) as Hset.
    destruct (bot_Get b chatID) as [settings b1]. cbn [fst snd] in *.
    rewrite Hset. by rewrite (bool_decide_eq_true_2 _ Hlang). }
  split; [|split; [|split; [|split]]].
  - intros lower. unfold handleMessage. case_bool_decide; [done|]. by rewrite Hreq.
  - intros cb Hchat Hl. unfold handleCallback. case_bool_decide; [by left|].
    rewrite Hl, Hchat, Hreq. cbn [negb]. destruct (strings_HasPrefix _ "region:"); auto.
  - rewrite bot_Get_state. apply Get_subscribes_nobody.
  - apply bot_Get_active.
  - intros other Hne. rewrite bot_Get_state. by apply Get_users.
Qed.

Lemma no_subscription_without_language_witness :
  let b := fresh_bot "state.json" in
  @handleMessage sample_lib b 42 "/notifyon" = (bot_Get b 42).2
  ∧ ActiveNotificationRegions (state (@handleMessage sample_lib b 42 "/notifyon")) = ∅.
Proof.
  intros b.
  destruct (@no_subscription_without_language sample_lib b 42) as (Hmsg & _ & Hact & _);
    [vm_compute; reflexivity|].
  split; [apply Hmsg|]. rewrite Hmsg, Hact. vm_compute. reflexivity.
Defined.

(** ** Restoring the subscriptions at startup *)

Lemma restore_table (l : list (Z * string)) rm :
  rs_region <$> rm_active (foldl (λ rm cr, Start rm cr.1 cr.2) rm l)
  = list_to_map (rev l) ∪ (rs_region <$> rm_active rm).
Proof.
  revert rm. induction l as [|[c r] l IH]; intros rm; cbn [foldl rev].
  - by rewrite list_to_map_nil, (left_id ∅ (∪)).
  - rewrite IH. cbn [fst snd]. unfold Start. cbn [rm_active].
    rewrite fmap_insert. cbn [rs_region].
    rewrite list_to_map_app. cbn [list_to_map foldr fst snd].
    rewrite <- (assoc_L (∪)). f_equal.
    by rewrite insert_union_singleton_l, insert_empty.
Qed.

Lemma restore_fresh (l : list (Z * string)) rm :
  NoDup (l.*1) → (∀ c, c ∈ l.*1 → rm_active rm !! c = None) →
  rm_cancelled (foldl (λ rm cr, Start rm cr.1 cr.2) rm l) = rm_cancelled rm
  ∧ length (rm_loops (foldl (λ rm cr, Start rm cr.1 cr.2) rm l))
    = (length (rm_loops rm) + length l)%nat.
Proof.
  revert rm. induction l as [|[c r] l IH]; intros rm Hnd Hfresh; cbn [foldl].
  - cbn. split; [done | lia].
  - cbn [fmap list_fmap fst] in Hnd. apply NoDup_cons in Hnd as [Hc Hnd].
    destruct (IH (Start rm c r) Hnd) as [Hcan Hlen].
    + intros c' Hc'. unfold Start. cbn [rm_active].
      rewrite lookup_insert_ne by (intros ->; done).
      apply Hfresh. cbn. by right.
    + cbn [fst snd]. rewrite Hcan, Hlen. unfold Start. cbn [rm_cancelled rm_loops].
      rewrite (Hfresh c) by (cbn; left). rewrite length_app. cbn. split; [done | lia].
Qed.

Lemma restore_as_calls (order : list (Z * string)) rm :
  foldl scheduler_step rm ((λ cr, CallStart cr.1 cr.2) <$> order)
  = foldl (λ rm cr, Start rm cr.1 cr.2) rm order.
Proof.
  revert rm. induction order as [|cr order IH]; intros rm; cbn; [done|]. apply IH.
Qed.

(** The loops [main] starts at startup: whatever order Go ranges over the
    restored subscriptions in, the scheduler's table ends up holding
    exactly those subscriptions, one loop has been started for each of
    them, for its chat and region, and no context has been cancelled.
    (A loop so started returns at once when its region has no calendar.) *)
Theorem startup_starts_loops (restored : gmap Z string) order :
  order ≡ₚ map_to_list restored →
  let rm := main_restore order in
  rs_region <$> rm_active rm = restored
  ∧ length (rm_loops rm) = size restored
  ∧ rm_cancelled rm = ∅
  ∧ ∀ chatID region, restored !! chatID = Some region →
      ∃ ctx, uncancelled rm (ctx, chatID, region).
Proof.
  intros Horder rm. unfold main_restore in rm.
  assert (Hnd : NoDup (order.*1)).
  { rewrite Horder. apply NoDup_fst_map_to_list. }
  assert (Htable : rs_region <$> rm_active rm = restored).
  { unfold rm. rewrite restore_table. cbn [rm_active newReminderManager].
    rewrite fmap_empty, (right_id ∅ (∪)).
    transitivity (list_to_map (map_to_list restored) : gmap Z string);
      [|apply list_to_map_to_list].
    assert (Hrev : rev order ≡ₚ order) by (symmetry; apply Permutation_rev).
    apply list_to_map_proper; [by rewrite Hrev | by rewrite Hrev]. }
  destruct (restore_fresh order newReminderManager Hnd) as [Hcan Hlen];
    [intros c _; apply lookup_empty|].
  fold rm in Hcan, Hlen. cbn in Hcan, Hlen.
  split; [exact Htable|]. split; [|split; [exact Hcan|]].
  - rewrite Hlen, Horder. by rewrite length_map_to_list.
  - intros chatID region Hr.
    pose proof (scheduler_inv_run ((λ cr, CallStart cr.1 cr.2) <$> order)
                  newReminderManager scheduler_inv_new) as Hinv.
    rewrite restore_as_calls in Hinv. fold rm in Hinv. destruct Hinv as (_ & _ & Hact & _).
    rewrite <- Htable, lookup_fmap in Hr.
    destruct (rm_active rm !! chatID) as [entry|] eqn:He; [|done].
    injection Hr as <-. destruct (Hact _ _ He) as [Hloop Hnc].
    exists (rs_cancel entry). split; [by eapply list_elem_of_lookup_2 | done].
Qed.

Lemma startup_starts_loops_witness :
  let restored : gmap Z string := {[ 42 := "Душанбе"; 7 := "Хоруг" ]} in
  let rm := main_restore (map_to_list restored) in
  rs_region <$> rm_active rm = restored ∧ length (rm_loops rm) = 2%nat.
Proof.
  intros restored rm.
  destruct (startup_starts_loops restored (map_to_list restored)) as (Ht & Hl & _);
    [done|].
  split; [exact Ht|]. exact Hl.
Defined.
